(** * Antigravity proxy: OAuth PKCE flow and account ledger

    A shallow embedding of [src/oauth.js] and of the account-ledger half of
    [src/accounts-cli.js], together with the library behaviour they rely on
    (Node's [crypto], [URLSearchParams], promises, [http.Server]). *)

From Stdlib Require Import ZArith Ascii String List Bool Lia.
From Stdlib.Strings Require Import Byte.
From stdpp Require Import base option list strings gmap.

Local Open Scope string_scope.
#[local] Set Warnings "-register-all".

(** ** Bytes, characters, text *)

Module Text.

Definition byte_val (b : byte) : N := Byte.to_N b.

Definition ascii_val (c : ascii) : N := N_of_ascii c.

(** A JavaScript string made of code units below 256 is a [string]; Node
    turns it into bytes (UTF-8 of an ASCII string) unit by unit. *)
Definition bytes_of_string (s : string) : list byte :=
  map byte_of_ascii (list_ascii_of_string s).

Definition nth_char (alphabet : string) (i : N) : ascii :=
  match String.get (N.to_nat i) alphabet with
  | Some c => c
  | None => "?"%char
  end.

Fixpoint contains_char (c : ascii) (s : string) : bool :=
  match s with
  | EmptyString => false
  | String d s' => if Ascii.eqb c d then true else contains_char c s'
  end.

Fixpoint forall_chars (p : ascii -> bool) (s : string) : bool :=
  match s with
  | EmptyString => true
  | String d s' => p d && forall_chars p s'
  end.

Fixpoint concat_strings (l : list string) : string :=
  match l with
  | [] => ""
  | s :: l' => s ++ concat_strings l'
  end.

(** [Array.prototype.join] with a one-character separator. *)
Fixpoint join (sep : ascii) (l : list string) : string :=
  match l with
  | [] => ""
  | [s] => s
  | s :: l' => s ++ String sep (join sep l')
  end.

(** [String.prototype.split] with a one-character separator. *)
Fixpoint split_on (sep : ascii) (s : string) : list string :=
  match s with
  | EmptyString => [""]
  | String c s' =>
      if Ascii.eqb c sep then "" :: split_on sep s'
      else match split_on sep s' with
           | [] => [String c ""]
           | w :: ws => String c w :: ws
           end
  end.

(** The part of [s] after the first occurrence of [sep], if any. *)
Fixpoint after_first (sep : ascii) (s : string) : option string :=
  match s with
  | EmptyString => None
  | String c s' => if Ascii.eqb c sep then Some s' else after_first sep s'
  end.

End Text.

(** ** [Buffer.toString('hex')], [Buffer.toString('base64url')] *)

Module Encoding.
Import Text.

Definition hex_digits : string := "0123456789abcdef".
Definition HEX_DIGITS : string := "0123456789ABCDEF".

Definition hex_of_byte (b : byte) : string :=
  let n := byte_val b in
  String (nth_char hex_digits (n / 16)) (String (nth_char hex_digits (n mod 16)) "").

(** [buf.toString('hex')]: two lower-case digits per byte. *)
Definition hex (bs : list byte) : string :=
  concat_strings (map hex_of_byte bs).

Definition base64_alphabet : string :=
  "ABCDEFGHIJKLMNOPQRSTUVWXYZabcdefghijklmnopqrstuvwxyz0123456789+/".

Definition base64url_alphabet : string :=
  "ABCDEFGHIJKLMNOPQRSTUVWXYZabcdefghijklmnopqrstuvwxyz0123456789-_".

(** The four 6-bit groups of a 24-bit quantum. *)
Definition sextets (b0 b1 b2 : byte) : N * N * N * N :=
  let n := (byte_val b0 * 65536 + byte_val b1 * 256 + byte_val b2)%N in
  (n / 262144, (n / 4096) mod 64, (n / 64) mod 64, n mod 64)%N.

(** [buf.toString('base64url')]: RFC 4648 section 5 alphabet; Node leaves
    the padding out when it encodes. *)
Fixpoint base64url (bs : list byte) : string :=
  match bs with
  | [] => ""
  | [b0] =>
      let '(s0, s1, _, _) := sextets b0 x00 x00 in
      String (nth_char base64url_alphabet s0)
        (String (nth_char base64url_alphabet s1) "")
  | [b0; b1] =>
      let '(s0, s1, s2, _) := sextets b0 b1 x00 in
      String (nth_char base64url_alphabet s0)
        (String (nth_char base64url_alphabet s1)
           (String (nth_char base64url_alphabet s2) ""))
  | b0 :: b1 :: b2 :: rest =>
      let '(s0, s1, s2, s3) := sextets b0 b1 b2 in
      String (nth_char base64url_alphabet s0)
        (String (nth_char base64url_alphabet s1)
           (String (nth_char base64url_alphabet s2)
              (String (nth_char base64url_alphabet s3) (base64url rest))))
  end.

(** Spec side of the refinement: "URL-safe base64 with no padding
    characters", read as RFC 4648 section 4 base64 (alphabet with [+] and
    [/], [=] padding to a multiple of four) followed by the two
    substitutions and the removal of the padding. *)
Fixpoint base64_padded (bs : list byte) : string :=
  match bs with
  | [] => ""
  | [b0] =>
      let '(s0, s1, _, _) := sextets b0 x00 x00 in
      String (nth_char base64_alphabet s0)
        (String (nth_char base64_alphabet s1) "==")
  | [b0; b1] =>
      let '(s0, s1, s2, _) := sextets b0 b1 x00 in
      String (nth_char base64_alphabet s0)
        (String (nth_char base64_alphabet s1)
           (String (nth_char base64_alphabet s2) "="))
  | b0 :: b1 :: b2 :: rest =>
      let '(s0, s1, s2, s3) := sextets b0 b1 b2 in
      String (nth_char base64_alphabet s0)
        (String (nth_char base64_alphabet s1)
           (String (nth_char base64_alphabet s2)
              (String (nth_char base64_alphabet s3) (base64_padded rest))))
  end.

Definition url_safe_char (c : ascii) : ascii :=
  if Ascii.eqb c "+" then "-"%char
  else if Ascii.eqb c "/" then "_"%char
  else c.

Fixpoint url_safe_unpadded (s : string) : string :=
  match s with
  | EmptyString => ""
  | String c s' =>
      if Ascii.eqb c "=" then url_safe_unpadded s'
      else String (url_safe_char c) (url_safe_unpadded s')
  end.

Definition URLsafeBase64_spec (bs : list byte) : string :=
  url_safe_unpadded (base64_padded bs).

Definition is_base64url_char (c : ascii) : bool :=
  contains_char c base64url_alphabet.

(** Decoding, to state that the encoding loses nothing. *)
Fixpoint index_of (c : ascii) (alphabet : string) : option N :=
  match alphabet with
  | EmptyString => None
  | String d rest =>
      if Ascii.eqb c d then Some 0%N
      else option_map N.succ (index_of c rest)
  end.

Definition sextet_of (c : ascii) : N :=
  match index_of c base64url_alphabet with
  | Some i => i
  | None => 0%N
  end.

Definition byte_of_N (n : N) : byte :=
  match Byte.of_N n with
  | Some b => b
  | None => x00
  end.

Fixpoint base64url_decode (s : string) : list byte :=
  match s with
  | String c0 (String c1 EmptyString) =>
      let n := (sextet_of c0 * 64 + sextet_of c1)%N in
      [byte_of_N (n / 16)]
  | String c0 (String c1 (String c2 EmptyString)) =>
      let n := (sextet_of c0 * 4096 + sextet_of c1 * 64 + sextet_of c2)%N in
      [byte_of_N (n / 1024); byte_of_N ((n / 4) mod 256)]
  | String c0 (String c1 (String c2 (String c3 rest))) =>
      let n := (sextet_of c0 * 262144 + sextet_of c1 * 4096
                + sextet_of c2 * 64 + sextet_of c3)%N in
      byte_of_N (n / 65536) :: byte_of_N ((n / 256) mod 256)
        :: byte_of_N (n mod 256) :: base64url_decode rest
  | _ => []
  end.

(** The [application/x-www-form-urlencoded] serializer behind
    [URLSearchParams.prototype.toString]. *)
Definition is_alnum (c : ascii) : bool :=
  let n := ascii_val c in
  ((48 <=? n) && (n <=? 57) || (65 <=? n) && (n <=? 90)
   || (97 <=? n) && (n <=? 122))%N.

Definition form_safe (c : ascii) : bool :=
  is_alnum c || contains_char c "*-._".

Definition percent_encode (c : ascii) : string :=
  let n := ascii_val c in
  String "%" (String (nth_char HEX_DIGITS (n / 16))
                (String (nth_char HEX_DIGITS (n mod 16)) "")).

Definition form_encode_char (c : ascii) : string :=
  if form_safe c then String c ""
  else if Ascii.eqb c " " then "+"
  else percent_encode c.

Fixpoint form_urlencode (s : string) : string :=
  match s with
  | EmptyString => ""
  | String c s' => form_encode_char c ++ form_urlencode s'
  end.

(** One [name=value] item of a serialized query. *)
Definition query_item (kv : string * string) : string :=
  form_urlencode (fst kv) ++ String "=" (form_urlencode (snd kv)).

Definition URLSearchParams_toString (params : list (string * string)) : string :=
  join "&" (map query_item params).

End Encoding.

(** ** [crypto.createHash('sha256')]: FIPS 180-4 on 32-bit words *)

Module SHA256.
Import Text.
Local Open Scope Z_scope.

Definition wrap32 (x : Z) : Z := x mod 4294967296.
Definition add32 (x y : Z) : Z := wrap32 (x + y).
Definition rotr (n x : Z) : Z :=
  Z.lor (Z.shiftr x n) (wrap32 (Z.shiftl x (32 - n))).
Definition not32 (x : Z) : Z := Z.lxor x 4294967295.

Definition Ch (x y z : Z) : Z := Z.lxor (Z.land x y) (Z.land (not32 x) z).
Definition Maj (x y z : Z) : Z :=
  Z.lxor (Z.lxor (Z.land x y) (Z.land x z)) (Z.land y z).
Definition Sigma0 (x : Z) : Z := Z.lxor (Z.lxor (rotr 2 x) (rotr 13 x)) (rotr 22 x).
Definition Sigma1 (x : Z) : Z := Z.lxor (Z.lxor (rotr 6 x) (rotr 11 x)) (rotr 25 x).
Definition sigma0 (x : Z) : Z := Z.lxor (Z.lxor (rotr 7 x) (rotr 18 x)) (Z.shiftr x 3).
Definition sigma1 (x : Z) : Z := Z.lxor (Z.lxor (rotr 17 x) (rotr 19 x)) (Z.shiftr x 10).

Definition primes64 : list Z :=
  [2; 3; 5; 7; 11; 13; 17; 19; 23; 29; 31; 37; 41; 43; 47; 53;
   59; 61; 67; 71; 73; 79; 83; 89; 97; 101; 103; 107; 109; 113; 127; 131;
   137; 139; 149; 151; 157; 163; 167; 173; 179; 181; 191; 193; 197; 199; 211; 223;
   227; 229; 233; 239; 241; 251; 257; 263; 269; 271; 277; 281; 283; 293; 307; 311].

(** Integer cube root by bits, from bit [k-1] down. *)
Fixpoint icbrt_bits (k : nat) (n r : Z) : Z :=
  match k with
  | O => r
  | S k' =>
      let r' := r + Z.shiftl 1 (Z.of_nat k') in
      icbrt_bits k' n (if r' * r' * r' <=? n then r' else r)
  end.

(** Round constants: the first 32 bits of the fractional part of the cube
    root of each of the first 64 primes. *)
Definition K : list Z :=
  Eval vm_compute in
    map (fun p => wrap32 (icbrt_bits 40 (p * Z.shiftl 1 96) 0)) primes64.

(** Initial hash value: the same with square roots of the first 8 primes. *)
Definition H0 : list Z :=
  Eval vm_compute in
    map (fun p => wrap32 (Z.sqrt (p * Z.shiftl 1 64))) (firstn 8 primes64).

Definition zbyte (b : byte) : Z := Z.of_N (Byte.to_N b).

Definition byte_of_Z (z : Z) : byte :=
  match Byte.of_N (Z.to_N (z mod 256)) with
  | Some b => b
  | None => x00
  end.

Definition be_bytes (width : nat) (z : Z) : list byte :=
  map (fun i => byte_of_Z (Z.shiftr z (8 * Z.of_nat (width - 1 - i)))) (seq 0 width).

(** Padding: a one bit, zeros up to 56 mod 64 bytes, the bit length on 64 bits. *)
Definition pad (msg : list byte) : list byte :=
  let len := Z.of_nat (length msg) in
  let zeros := Z.to_nat ((55 - len) mod 64) in
  msg ++ [x80] ++ repeat x00 zeros ++ be_bytes 8 (8 * len).

Fixpoint be_words (bs : list byte) : list Z :=
  match bs with
  | b0 :: b1 :: b2 :: b3 :: rest =>
      (zbyte b0 * 16777216 + zbyte b1 * 65536 + zbyte b2 * 256 + zbyte b3)
        :: be_words rest
  | _ => []
  end.

Fixpoint blocks (fuel : nat) (ws : list Z) : list (list Z) :=
  match fuel with
  | O => []
  | S f =>
      match ws with
      | [] => []
      | _ => firstn 16 ws :: blocks f (skipn 16 ws)
      end
  end.

Definition word_at (w : list Z) (i : nat) : Z := nth i w 0.

Fixpoint schedule (n : nat) (w : list Z) : list Z :=
  match n with
  | O => w
  | S n' =>
      let t := length w in
      let x := add32 (add32 (sigma1 (word_at w (t - 2))) (word_at w (t - 7)))
                     (add32 (sigma0 (word_at w (t - 15))) (word_at w (t - 16))) in
      schedule n' (w ++ [x])
  end.

Definition regs : Type := (Z * Z * Z * Z * Z * Z * Z * Z)%type.

Definition round (s : regs) (kw : Z * Z) : regs :=
  let '(a, b, c, d, e, f, g, h) := s in
  let t1 := add32 (add32 (add32 h (Sigma1 e)) (add32 (Ch e f g) (fst kw))) (snd kw) in
  let t2 := add32 (Sigma0 a) (Maj a b c) in
  (add32 t1 t2, a, b, c, add32 d t1, e, f, g).

Definition compress (s : regs) (block : list Z) : regs :=
  let w := schedule 48 block in
  let '(a, b, c, d, e, f, g, h) := fold_left round (combine K w) s in
  let '(a0, b0, c0, d0, e0, f0, g0, h0) := s in
  (add32 a0 a, add32 b0 b, add32 c0 c, add32 d0 d,
   add32 e0 e, add32 f0 f, add32 g0 g, add32 h0 h).

Definition init : regs :=
  (word_at H0 0, word_at H0 1, word_at H0 2, word_at H0 3,
   word_at H0 4, word_at H0 5, word_at H0 6, word_at H0 7).

Definition digest_bytes (s : regs) : list byte :=
  let '(a, b, c, d, e, f, g, h) := s in
  concat (map (be_bytes 4) [a; b; c; d; e; f; g; h]).

Definition sha256 (msg : list byte) : list byte :=
  let ws := be_words (pad msg) in
  digest_bytes (fold_left compress (blocks (length ws) ws) init).

End SHA256.

(** ** JavaScript values, exceptions, and the effects of the two modules *)

Module JS.

(** Values as they come out of [JSON.parse] and flow through the code.
    Numbers are integers here (token lifetimes, counters). An object is
    its own properties in insertion order; a property is read from its
    first binding. *)
Inductive value : Type :=
| Undefined
| Null
| Bool (b : bool)
| Num (z : Z)
| Str (s : string)
| Arr (items : list value)
| Obj (props : list (string * value)).

(** A thrown [Error], by its message. *)
Definition Exn : Type := string.

(** How a call ends: it returns, it throws, or it awaits something that
    never settles. *)
Inductive result (A : Type) : Type :=
| Ok (a : A)
| Throw (e : Exn)
| Hang.
Arguments Ok {A} a.
Arguments Throw {A} e.
Arguments Hang {A}.

Definition truthy (v : value) : bool :=
  match v with
  | Undefined | Null => false
  | Bool b => b
  | Num z => negb (z =? 0)%Z
  | Str s => negb (String.eqb s "")
  | Arr _ | Obj _ => true
  end.

Definition is_string (v : value) : bool :=
  match v with Str _ => true | _ => false end.

Fixpoint assoc (k : string) (props : list (string * value)) : option value :=
  match props with
  | [] => None
  | (k', v) :: rest => if String.eqb k k' then Some v else assoc k rest
  end.

(** [o.k] on the own properties of an object. *)
Definition prop (k : string) (props : list (string * value)) : value :=
  match assoc k props with
  | Some v => v
  | None => Undefined
  end.

(** [o.k = v]: an existing property keeps its place, a new one goes last. *)
Fixpoint set_prop (k : string) (v : value) (props : list (string * value))
  : list (string * value) :=
  match props with
  | [] => [(k, v)]
  | (k', v') :: rest =>
      if String.eqb k k' then (k', v) :: rest
      else (k', v') :: set_prop k v rest
  end.

(** [v.k] for a named data property: a [TypeError] on [undefined] and
    [null], [undefined] on the other primitives and on arrays. *)
Definition get (v : value) (k : string) : result value :=
  match v with
  | Undefined | Null => Throw "TypeError: Cannot read properties"
  | Obj props => Ok (prop k props)
  | _ => Ok Undefined
  end.

(** [v?.k] *)
Definition get_opt (v : value) (k : string) : value :=
  match v with
  | Obj props => prop k props
  | _ => Undefined
  end.

(** [a === b]. Two objects (or arrays) are equal only when they are the
    same reference; the values compared by this code come from different
    documents, so never are. *)
Definition strict_eq (a b : value) : bool :=
  match a, b with
  | Undefined, Undefined => true
  | Null, Null => true
  | Bool x, Bool y => Bool.eqb x y
  | Num x, Num y => (x =? y)%Z
  | Str x, Str y => String.eqb x y
  | _, _ => false
  end.

(** What [JSON.parse] and [response.json()] do with a text that is or is
    not a JSON document. *)
Definition parsed (o : option value) : result value :=
  match o with
  | Some v => Ok v
  | None => Throw "SyntaxError: Unexpected token in JSON"
  end.

(** [a || b] *)
Definition or_else (a b : value) : value := if truthy a then a else b.

Definition lower_char (c : ascii) : ascii :=
  let n := N_of_ascii c in
  if ((65 <=? n) && (n <=? 90))%N then ascii_of_N (n + 32) else c.

(** [s.toLowerCase()] on ASCII letters. *)
Fixpoint toLowerCase (s : string) : string :=
  match s with
  | EmptyString => ""
  | String c s' => String (lower_char c) (toLowerCase s')
  end.

End JS.

(** ** The secure random source *)

Module Crypto.

(** The operating system's generator: an endless supply of bytes and how
    many have been drawn. *)
Record Csprng : Type := { supply : nat -> byte; drawn : nat }.

(** [crypto.randomBytes(n)] *)
Definition randomBytes (n : nat) (g : Csprng) : list byte * Csprng :=
  (map (fun i => supply g (drawn g + i)) (seq 0 n),
   {| supply := supply g; drawn := drawn g + n |}).

End Crypto.

(** ** [src/oauth.js] *)

Module OAuth.
Import Text Encoding JS Crypto.

Definition GOOGLE_CLIENT_ID : string :=
  "1071006060591-tmhssin2h21lcre235vtolojh4g403ep.apps.googleusercontent.com".
Definition GOOGLE_AUTH_URL : string := "https://accounts.google.com/o/oauth2/v2/auth".
Definition CALLBACK_PORT : string := "51121".
Definition REDIRECT_URI : string :=
  "http://localhost:" ++ CALLBACK_PORT ++ "/oauth-callback".
Definition SCOPES : string :=
  join " " [ "https://www.googleapis.com/auth/cloud-platform";
             "https://www.googleapis.com/auth/userinfo.email";
             "https://www.googleapis.com/auth/userinfo.profile";
             "https://www.googleapis.com/auth/cclog";
             "https://www.googleapis.com/auth/experimentsandconfigs" ].

(** *** PKCE and the authorization URL *)

Record PKCE : Type := { verifier : string; challenge : string }.

Definition generatePKCE (g : Csprng) : PKCE * Csprng :=
  let '(bytes, g1) := randomBytes 32 g in
  let verifier := base64url bytes in
  let challenge := base64url (SHA256.sha256 (bytes_of_string verifier)) in
  ({| verifier := verifier; challenge := challenge |}, g1).

Record Authorization : Type :=
  { url : string; auth_verifier : string; auth_state : string }.

Definition authorization_params (challenge state : string) : list (string * string) :=
  [ ("client_id", GOOGLE_CLIENT_ID);
    ("redirect_uri", REDIRECT_URI);
    ("response_type", "code");
    ("scope", SCOPES);
    ("access_type", "offline");
    ("prompt", "consent");
    ("code_challenge", challenge);
    ("code_challenge_method", "S256");
    ("state", state) ].

Definition getAuthorizationUrl (g : Csprng) : Authorization * Csprng :=
  let '(pkce, g1) := generatePKCE g in
  let '(bytes, g2) := randomBytes 16 g1 in
  let state := hex bytes in
  let params := authorization_params (challenge pkce) state in
  ({| url := GOOGLE_AUTH_URL ++ String "?" (URLSearchParams_toString params);
      auth_verifier := verifier pkce;
      auth_state := state |}, g2).

(** The query of a URL as its raw [key=value] items. *)
Definition query_items (u : string) : list string :=
  match after_first "?" u with
  | Some q => split_on "&" q
  | None => []
  end.

(** *** The callback listener *)

(** A request as [new URL(req.url, base)] presents it, when it makes a URL
    of [req.url]: the path and the decoded query pairs in order. The
    targets it refuses are in [Wire.Target]. *)
Record HttpRequest : Type :=
  { pathname : string; searchParams : list (string * string) }.

(** [url.searchParams.get(name)]: the first value under that name. *)
Fixpoint searchParams_get (name : string) (q : list (string * string)) : option string :=
  match q with
  | [] => None
  | (k, v) :: rest => if String.eqb k name then Some v else searchParams_get name rest
  end.

(** Truthiness of a string-or-null. *)
Definition present (o : option string) : bool :=
  match o with
  | Some s => negb (String.eqb s "")
  | None => false
  end.

(** [state !== expectedState] for a string-or-null against a string. *)
Definition differs (o : option string) (expected : string) : bool :=
  match o with
  | Some s => negb (String.eqb s expected)
  | None => true
  end.

Inductive Settlement : Type :=
| Resolved (code : string)
| Rejected (message : string).

(** What the event loop can deliver to the callbacks registered by
    [startCallbackServer]. *)
Inductive Event : Type :=
| Request (req : HttpRequest)
| TimerFired
| ServerError (code message : string).

(** The promise, the server, and a record of what the callbacks did. *)
Record Listener : Type :=
  { promise : option Settlement;        (* [None]: still pending *)
    handle_open : bool;                 (* the bound port *)
    releases : nat;                     (* times the port was released *)
    close_calls : nat;                  (* invocations of [server.close()] *)
    settle_calls : list Settlement;     (* invocations of [resolve]/[reject], in order *)
    replies : list Z }.                 (* status lines written, in order *)

(** [resolve(x)] / [reject(e)]: only the first call settles a promise. *)
Definition settle (s : Settlement) (l : Listener) : Listener :=
  {| promise := match promise l with Some s0 => Some s0 | None => Some s end;
     handle_open := handle_open l;
     releases := releases l;
     close_calls := close_calls l;
     settle_calls := settle_calls l ++ [s];
     replies := replies l |}.

(** [server.close()]: releases the handle if there is one. *)
Definition server_close (l : Listener) : Listener :=
  {| promise := promise l;
     handle_open := false;
     releases := if handle_open l then S (releases l) else releases l;
     close_calls := S (close_calls l);
     settle_calls := settle_calls l;
     replies := replies l |}.

Definition writeHead (status : Z) (l : Listener) : Listener :=
  {| promise := promise l;
     handle_open := handle_open l;
     releases := releases l;
     close_calls := close_calls l;
     settle_calls := settle_calls l;
     replies := replies l ++ [status] |}.

Definition TIMEOUT_MESSAGE : string := "OAuth callback timeout - no response received".

Definition on_request (expectedState : string) (req : HttpRequest) (l : Listener) : Listener :=
  if negb (String.eqb (pathname req) "/oauth-callback") then writeHead 404 l
  else
    let code := searchParams_get "code" (searchParams req) in
    let state := searchParams_get "state" (searchParams req) in
    let error := searchParams_get "error" (searchParams req) in
    if present error then
      settle (Rejected ("OAuth error: " ++ default "" error))
        (server_close (writeHead 400 l))
    else if differs state expectedState then
      settle (Rejected "State mismatch") (server_close (writeHead 400 l))
    else if negb (present code) then
      settle (Rejected "No authorization code") (server_close (writeHead 400 l))
    else
      settle (Resolved (default "" code)) (server_close (writeHead 200 l)).

Definition on_timeout (l : Listener) : Listener :=
  settle (Rejected TIMEOUT_MESSAGE) (server_close l).

(** The ['error'] callback rejects and leaves the server alone. *)
Definition on_error (code message : string) (l : Listener) : Listener :=
  if String.eqb code "EADDRINUSE" then
    settle (Rejected ("Port " ++ CALLBACK_PORT
                      ++ " is already in use. Close any other OAuth flows and try again.")) l
  else settle (Rejected message) l.

(** The error codes with which [server.listen()] fails: the port could not
    be bound. Any other code is an error of a server that is listening. *)
Definition bind_failed (code : string) : bool :=
  String.eqb code "EADDRINUSE" || String.eqb code "EACCES"
  || String.eqb code "EADDRNOTAVAIL".

(** A server whose [listen()] failed has no handle: it never held the port,
    and a later [server.close()] finds nothing to release. *)
Definition never_bound (l : Listener) : Listener :=
  {| promise := promise l;
     handle_open := false;
     releases := releases l;
     close_calls := close_calls l;
     settle_calls := settle_calls l;
     replies := replies l |}.

(** One event: what it says of the server, then the callback registered
    for it. *)
Definition deliver (expectedState : string) (l : Listener) (e : Event) : Listener :=
  match e with
  | Request req => on_request expectedState req l
  | TimerFired => on_timeout l
  | ServerError code message =>
      on_error code message (if bind_failed code then never_bound l else l)
  end.

(** The listener when [startCallbackServer] returns: the promise pending,
    nothing called yet. The port counts as bound; a bind that failed is
    made known by its [ServerError] event, which comes before any other. *)
Definition listening : Listener :=
  {| promise := None; handle_open := true; releases := 0; close_calls := 0;
     settle_calls := []; replies := [] |}.

Definition deliver_all (expectedState : string) (l : Listener) (events : list Event)
  : Listener :=
  fold_left (deliver expectedState) events l.

(** The listener after the event loop has delivered [events]. *)
Definition startCallbackServer (expectedState : string) (events : list Event) : Listener :=
  deliver_all expectedState listening events.

(** *** Token client and identity resolver *)

(** The requests this module sends, by what distinguishes them. *)
Inductive Call : Type :=
| TokenExchange (code verifier : string)
| TokenRefresh (refreshToken : value)
| GetUserInfo (accessToken : value)
| LoadCodeAssist (endpoint : string) (accessToken : value).

(** A [fetch] response: [ok], the status, the body as [text()] gives it
    and as [json()] gives it ([None] when it is not JSON and [json()]
    throws). *)
Record Response : Type :=
  { ok : bool; status : string; text : string; json : option value }.

Inductive FetchOutcome : Type :=
| NetworkError (message : string)
| Responded (r : Response).

Definition Network : Type := Call -> FetchOutcome.

(** An asynchronous computation: the requests it sent, and how it ended. *)
Definition Async (A : Type) : Type := (list Call * result A)%type.

Definition ret {A} (a : A) : Async A := ([], Ok a).

Definition throw {A} (e : Exn) : Async A := ([], Throw e).

Definition bind {A B} (m : Async A) (f : A -> Async B) : Async B :=
  match m with
  | (sent, Ok a) => let '(sent', r) := f a in ((sent ++ sent')%list, r)
  | (sent, Throw e) => (sent, Throw e)
  | (sent, Hang) => (sent, Hang)
  end.

(** [try { m } catch (e) { h e }] *)
Definition try_catch {A} (m : Async A) (h : Exn -> Async A) : Async A :=
  match m with
  | (sent, Throw e) => let '(sent', r) := h e in ((sent ++ sent')%list, r)
  | other => other
  end.

Definition lift {A} (r : result A) : Async A := ([], r).

Definition fetch (net : Network) (c : Call) : Async Response :=
  ([c], match net c with
        | NetworkError m => Throw m
        | Responded r => Ok r
        end).

Declare Scope async_scope.
Delimit Scope async_scope with async.
Notation "'let*' x ':=' m 'in' k" := (bind m (fun x => k))
  (at level 10, x name, m at level 100, k at level 200) : async_scope.
Local Open Scope async_scope.

Definition exchangeCode (net : Network) (code verifier : string) : Async value :=
  let* response := fetch net (TokenExchange code verifier) in
  if negb (ok response) then throw ("Token exchange failed: " ++ text response)
  else
    let* tokens := lift (parsed (json response)) in
    let* access_token := lift (get tokens "access_token") in
    if negb (truthy access_token) then throw "No access token received"
    else
      let* refresh_token := lift (get tokens "refresh_token") in
      let* expires_in := lift (get tokens "expires_in") in
      ret (Obj [ ("accessToken", access_token);
                 ("refreshToken", refresh_token);
                 ("expiresIn", expires_in) ]).

Definition refreshAccessToken (net : Network) (refreshToken : value) : Async value :=
  let* response := fetch net (TokenRefresh refreshToken) in
  if negb (ok response) then throw ("Token refresh failed: " ++ text response)
  else
    let* tokens := lift (parsed (json response)) in
    let* access_token := lift (get tokens "access_token") in
    let* expires_in := lift (get tokens "expires_in") in
    ret (Obj [ ("accessToken", access_token); ("expiresIn", expires_in) ]).

Definition getUserEmail (net : Network) (accessToken : value) : Async value :=
  let* response := fetch net (GetUserInfo accessToken) in
  if negb (ok response) then throw ("Failed to get user info: " ++ status response)
  else
    let* userInfo := lift (parsed (json response)) in
    lift (get userInfo "email").

(** One turn of the [for] loop of [discoverProjectId]: [Some v] when the
    body returns [v], [None] when it reaches the end of the [try] block,
    hits [continue], or lands in the [catch]. *)
Definition discover_at (net : Network) (accessToken : value) (endpoint : string)
  : Async (option value) :=
  try_catch
    (let* response := fetch net (LoadCodeAssist endpoint accessToken) in
     if negb (ok response) then ret None
     else
       let* data := lift (parsed (json response)) in
       let* project := lift (get data "cloudaicompanionProject") in
       if is_string project then ret (Some project)
       else if truthy (get_opt project "id") then
         let* id := lift (get project "id") in
         ret (Some id)
       else ret None)
    (fun _ => ret None).

Fixpoint discoverProjectId (endpoints : list string) (net : Network) (accessToken : value)
  : Async value :=
  match endpoints with
  | [] => ret Null
  | endpoint :: rest =>
      let* found := discover_at net accessToken endpoint in
      match found with
      | Some v => ret v
      | None => discoverProjectId rest net accessToken
      end
  end.

Definition completeOAuthFlow (endpoints : list string) (net : Network)
    (code verifier : string) : Async value :=
  let* tokens := exchangeCode net code verifier in
  let* accessToken := lift (get tokens "accessToken") in
  let* email := getUserEmail net accessToken in
  let* projectId := discoverProjectId endpoints net accessToken in
  let* refreshToken := lift (get tokens "refreshToken") in
  ret (Obj [ ("email", email);
             ("refreshToken", refreshToken);
             ("accessToken", accessToken);
             ("projectId", projectId) ]).

(** [await p] for the listener's promise. *)
Definition await (p : option Settlement) : Async string :=
  match p with
  | Some (Resolved code) => ret code
  | Some (Rejected m) => throw m
  | None => lift Hang
  end.

End OAuth.

(** ** The account ledger of [src/accounts-cli.js] *)

Module Accounts.
Import Text JS Crypto OAuth.
Local Open Scope async_scope.

Definition MAX_ACCOUNTS : nat := 10.

(** A record of the ledger is an object; the ledger is the array of them. *)
Abbreviation Account := (list (string * value)).
Abbreviation Ledger := (list Account).

(** *** The file system *)

Inductive node : Type :=
| Directory
| File (data : string)
| Unreadable (error : Exn).

(** What is on disk, and the error every write meets, if any. *)
Record Disk : Type := { entries : gmap string node; write_error : option Exn }.

Definition FS (A : Type) : Type := Disk -> Disk * result A.

Definition fs_ret {A} (a : A) : FS A := fun d => (d, Ok a).

Definition fs_bind {A B} (m : FS A) (f : A -> FS B) : FS B :=
  fun d =>
    match m d with
    | (d1, Ok a) => f a d1
    | (d1, Throw e) => (d1, Throw e)
    | (d1, Hang) => (d1, Hang)
    end.

Definition fs_try {A} (m : FS A) (h : Exn -> FS A) : FS A :=
  fun d =>
    match m d with
    | (d1, Throw e) => h e d1
    | other => other
    end.

Definition fs_lift {A} (r : result A) : FS A := fun d => (d, r).

Declare Scope fs_scope.
Delimit Scope fs_scope with fs.
Notation "'let*' x ':=' m 'in' k" := (fs_bind m (fun x => k))
  (at level 10, x name, m at level 100, k at level 200) : fs_scope.

Definition existsSync (path : string) : FS bool :=
  fun d => (d, Ok (bool_decide (is_Some (entries d !! path)))).

Definition readFileSync (path : string) : FS string :=
  fun d =>
    (d, match entries d !! path with
        | Some (File data) => Ok data
        | Some (Unreadable e) => Throw e
        | Some Directory => Throw "EISDIR: illegal operation on a directory, read"
        | None => Throw "ENOENT: no such file or directory"
        end).

(** [writeFileSync(path, data)]: fails on a disk that refuses writes and
    when [path] is a directory, and creates or replaces the file otherwise.
    The directory above [path] is not looked at. *)
Definition writeFileSync (path data : string) : FS unit :=
  fun d =>
    match write_error d with
    | Some e => (d, Throw e)
    | None =>
        match entries d !! path with
        | Some Directory => (d, Throw "EISDIR: illegal operation on a directory, open")
        | _ => ({| entries := <[path := File data]> (entries d);
                   write_error := None |}, Ok tt)
        end
    end.

(** [mkdirSync(path, {recursive: true})], as far as the directory asked
    for goes: the ancestors that the call creates with it when they are
    missing are not recorded. *)
Definition mkdirSync (path : string) : FS unit :=
  fun d =>
    match write_error d with
    | Some e => (d, Throw e)
    | None => ({| entries := <[path := Directory]> (entries d);
                  write_error := None |}, Ok tt)
    end.

Section Store.

(** From [constants.js] and from the platform. *)
Variable ACCOUNT_CONFIG_PATH : string.
Variable ANTIGRAVITY_ENDPOINT_FALLBACKS : list string.
Variable dirname : string -> string.
Variable JSON_parse : string -> option value.
Variable JSON_stringify : value -> string.

Definition loadAccounts : FS value :=
  (fs_try
     (let* present := existsSync ACCOUNT_CONFIG_PATH in
      if (present : bool) then
        let* data := readFileSync ACCOUNT_CONFIG_PATH in
        let* config := fs_lift (parsed (JSON_parse data)) in
        let* accounts := fs_lift (get config "accounts") in
        fs_ret (or_else accounts (Arr []))
      else fs_ret (Arr []))
     (fun _ => fs_ret (Arr [])))%fs.

Definition saved_account (now : string) (acc : Account) : value :=
  Obj [ ("email", prop "email" acc);
        ("source", Str "oauth");
        ("refreshToken", prop "refreshToken" acc);
        ("projectId", prop "projectId" acc);
        ("addedAt", or_else (prop "addedAt" acc) (Str now));
        ("lastUsed", or_else (prop "lastUsed" acc) Null);
        ("isRateLimited", or_else (prop "isRateLimited" acc) (Bool false));
        ("rateLimitResetTime", or_else (prop "rateLimitResetTime" acc) Null) ].

Definition spread (extra base : list (string * value)) : list (string * value) :=
  fold_left (fun o kv => set_prop (fst kv) (snd kv) o) extra base.

Definition saved_config (now : string) (accounts : Ledger)
    (settings : list (string * value)) : value :=
  Obj [ ("accounts", Arr (map (saved_account now) accounts));
        ("settings", Obj (spread settings
                            [ ("cooldownDurationMs", Num 60000);
                              ("maxRetries", Num 5) ]));
        ("activeIndex", Num 0) ].

Definition saveAccounts (now : string) (accounts : Ledger)
    (settings : list (string * value)) : FS unit :=
  (fs_try
     (let dir := dirname ACCOUNT_CONFIG_PATH in
      let* present := existsSync dir in
      let* _u := (if (present : bool) then fs_ret tt else mkdirSync dir) in
      writeFileSync ACCOUNT_CONFIG_PATH
        (JSON_stringify (saved_config now accounts settings)))
     (fun e => fs_lift (Throw e)))%fs.

(** *** Adding an account *)

(** Everything outside the process during one pass of the add loop. *)
Record Attempt : Type :=
  { entropy : Csprng;           (* what [crypto.randomBytes] will draw *)
    events : list Event;        (* what reaches the callback listener *)
    network : Network;          (* how the provider answers *)
    clock : string;             (* [new Date().toISOString()] *)
    add_more : string }.        (* the answer to "Add another account?" *)

(** [existingAccounts.find(a => a.email === email)], by position. *)
Fixpoint find_email (email : value) (accounts : Ledger) : option nat :=
  match accounts with
  | [] => None
  | a :: rest =>
      if strict_eq (prop "email" a) email then Some 0
      else option_map S (find_email email rest)
  end.

(** The three assignments on the record found. *)
Definition update_tokens (result : value) (now : string) (existing : Account) : Account :=
  set_prop "addedAt" (Str now)
    (set_prop "projectId" (get_opt result "projectId")
       (set_prop "refreshToken" (get_opt result "refreshToken") existing)).

Definition new_account (result : value) (now : string) : Account :=
  [ ("email", get_opt result "email");
    ("refreshToken", get_opt result "refreshToken");
    ("projectId", get_opt result "projectId");
    ("addedAt", Str now);
    ("isRateLimited", Bool false);
    ("rateLimitResetTime", Null) ].

(** [addAccount(existingAccounts)]: the array as the call leaves it, and
    the value returned ([None] for [null]). *)
Definition addAccount (att : Attempt) (existingAccounts : Ledger)
  : Async (Ledger * option Account) :=
  let '(auth, _) := getAuthorizationUrl (entropy att) in
  try_catch
    (let* code := await (promise (startCallbackServer (auth_state auth) (events att))) in
     let* result := completeOAuthFlow ANTIGRAVITY_ENDPOINT_FALLBACKS (network att)
                      code (auth_verifier auth) in
     match find_email (get_opt result "email") existingAccounts with
     | Some i =>
         ret (alter (update_tokens result (clock att)) i existingAccounts, None)
     | None => ret (existingAccounts, Some (new_account result (clock att)))
     end)
    (fun _ => ret (existingAccounts, None)).

Inductive Outcome : Type :=
| Finished
| Failed (e : Exn)
| Unfinished.   (* still awaiting: a promise never settled, or no more input *)

(** Where a run of [interactiveAdd] stands. *)
Record Run : Type :=
  { disk : Disk; ledger : Ledger; sent : list Call; outcome : Outcome }.

(** The [while] loop of [interactiveAdd], one [Attempt] per pass. *)
Fixpoint add_loop (attempts : list Attempt) (accounts : Ledger) (d : Disk)
    (log : list Call) : Run :=
  if negb (length accounts <? MAX_ACCOUNTS)%nat then
    {| disk := d; ledger := accounts; sent := log; outcome := Finished |}
  else
    match attempts with
    | [] => {| disk := d; ledger := accounts; sent := log; outcome := Unfinished |}
    | att :: rest =>
        match addAccount att accounts with
        | (calls, Ok (accounts1, newAccount)) =>
            let accounts2 :=
              match newAccount with
              | Some a => (accounts1 ++ [a])%list
              | None => accounts1
              end in
            let saving : FS unit :=
              match newAccount with
              | Some _ => saveAccounts (clock att) accounts2 []
              | None =>
                  if (0 <? length accounts1)%nat
                  then saveAccounts (clock att) accounts2 []
                  else fs_ret tt
              end in
            match saving d with
            | (d1, Ok _) =>
                if (MAX_ACCOUNTS <=? length accounts2)%nat then
                  {| disk := d1; ledger := accounts2; sent := (log ++ calls)%list;
                     outcome := Finished |}
                else if negb (String.eqb (toLowerCase (add_more att)) "y") then
                  {| disk := d1; ledger := accounts2; sent := (log ++ calls)%list;
                     outcome := Finished |}
                else add_loop rest accounts2 d1 (log ++ calls)%list
            | (d1, Throw e) =>
                {| disk := d1; ledger := accounts2; sent := (log ++ calls)%list;
                   outcome := Failed e |}
            | (d1, Hang) =>
                {| disk := d1; ledger := accounts2; sent := (log ++ calls)%list;
                   outcome := Unfinished |}
            end
        | (calls, Throw e) =>
            {| disk := d; ledger := accounts; sent := (log ++ calls)%list;
               outcome := Failed e |}
        | (calls, Hang) =>
            {| disk := d; ledger := accounts; sent := (log ++ calls)%list;
               outcome := Unfinished |}
        end
    end.

(** The array [loadAccounts] returned, when it is an array of objects. *)
Fixpoint objects (items : list value) : option Ledger :=
  match items with
  | [] => Some []
  | Obj props :: rest => option_map (cons props) (objects rest)
  | _ :: _ => None
  end.

Definition ledger_of (v : value) : option Ledger :=
  match v with
  | Arr items => objects items
  | _ => None
  end.

(** [interactiveAdd(rl)] from a loaded ledger: [choice] answers the
    add-or-fresh-start question, asked when the ledger is not empty. *)
Definition interactiveAdd_from (accounts : Ledger) (choice : string)
    (attempts : list Attempt) (d : Disk) : Run :=
  let accounts0 :=
    if (0 <? length accounts)%nat && String.eqb (toLowerCase choice) "f"
    then [] else accounts in
  add_loop attempts accounts0 d [].

(** [interactiveAdd(rl)]; [None] when the store holds something other
    than an array of objects, which this model does not follow. *)
Definition interactiveAdd (choice : string) (attempts : list Attempt) (d : Disk)
  : option Run :=
  match loadAccounts d with
  | (d1, Ok v) =>
      option_map (fun accounts => interactiveAdd_from accounts choice attempts d1)
                 (ledger_of v)
  | _ => None
  end.

End Store.

End Accounts.

(** ** The words of the specification, on the model *)

Module Spec.
Import Text JS OAuth Accounts.

(** Requests off the callback path get a 404 and nothing else. *)
Definition off_path (e : Event) : bool :=
  match e with
  | Request req => negb (String.eqb (pathname req) "/oauth-callback")
  | _ => false
  end.

(** Events whose callback calls [server.close()]. *)
Definition closes (e : Event) : bool :=
  match e with
  | Request req => String.eqb (pathname req) "/oauth-callback"
  | TimerFired => true
  | ServerError _ _ => false
  end.

(** Events whose callback calls [resolve] or [reject]. *)
Definition settles (e : Event) : bool :=
  match e with
  | ServerError _ _ => true
  | other => closes other
  end.

Definition count (p : Event -> bool) (events : list Event) : nat :=
  length (filter (fun e => p e = true) events).

(** What the claim of suppression would mean on the record of a run. *)
Definition loser_suppressed (l : Listener) : Prop :=
  close_calls l <= 1 /\ length (settle_calls l) <= 1.

(** The facts that hold of the record after any events. *)
Record consistent (l : Listener) : Prop :=
  { first_call_wins : promise l = head (settle_calls l);
    released_once : releases l <= 1;
    open_unreleased : handle_open l = true -> releases l = 0 }.

(** A candidate fails when the request throws or the status is not a
    success. *)
Definition failed (o : FetchOutcome) : Prop :=
  match o with
  | NetworkError _ => True
  | Responded r => ok r = false
  end.

(** The project id in a response body: the bare string first, the truthy
    [id] of a nested object second. *)
Definition project_id_of (data : value) : option value :=
  match get_opt data "cloudaicompanionProject" with
  | Str s => Some (Str s)
  | Obj props => if truthy (prop "id" props) then Some (prop "id" props) else None
  | _ => None
  end.

(** A success status over a body that is not JSON or names no project. *)
Definition without_project (r : Response) : Prop :=
  match json r with
  | Some data => project_id_of data = None
  | None => True
  end.

(** Spec side of the comparison: "the first candidate returning a success
    status is used, and the project id is read from either a string field or
    a nested [{id}] object, in that precedence order"; failing candidates are
    skipped; when every candidate fails the result is unknown. *)
Fixpoint discover_spec (endpoints : list string) (net : Network) (accessToken : value)
  : value :=
  match endpoints with
  | [] => Null
  | endpoint :: rest =>
      match net (LoadCodeAssist endpoint accessToken) with
      | NetworkError _ => discover_spec rest net accessToken
      | Responded r =>
          if ok r then
            match json r with
            | Some data => default Null (project_id_of data)
            | None => Null
            end
          else discover_spec rest net accessToken
      end
  end.

(** What one candidate contributes. *)
Definition candidate (o : FetchOutcome) : option value :=
  match o with
  | NetworkError _ => None
  | Responded r =>
      if ok r then
        match json r with
        | Some data => project_id_of data
        | None => None
        end
      else None
  end.

(** The ways a store file can be corrupt: it cannot be read, it is not
    JSON, or it is JSON with no [accounts]. *)
Inductive corrupt (JSON_parse : string -> option value) (n : node) : Prop :=
| corrupt_unreadable e : n = Unreadable e -> corrupt JSON_parse n
| corrupt_not_json data : n = File data -> JSON_parse data = None -> corrupt JSON_parse n
| corrupt_no_accounts data config :
    n = File data -> JSON_parse data = Some config ->
    get_opt config "accounts" = Undefined -> corrupt JSON_parse n.

(** The same disk with the store file gone. *)
Definition without_store (ACCOUNT_CONFIG_PATH : string) (d : Disk) : Disk :=
  {| entries := delete ACCOUNT_CONFIG_PATH (entries d); write_error := write_error d |}.

End Spec.

(** ** Worlds for worked runs *)

Module Scenario.
Import Text Encoding JS Crypto OAuth Accounts.

Definition refresh_reply : Response :=
  {| ok := true; status := "200"; text := "";
     json := Some (Obj [ ("access_token", Str "ya29.new");
                         ("expires_in", Num 3599);
                         ("refresh_token", Str "1//rotated") ]) |}.

Definition refresh_denied : Response :=
  {| ok := false; status := "400"; text := "invalid_grant"; json := None |}.

Definition reply (code : string) (body : option value) : FetchOutcome :=
  Responded {| ok := String.eqb code "200"; status := code; text := ""; json := body |}.

(** The first two hosts answer 500, the third names a project. *)
Definition third_host_answers : Network :=
  fun c =>
    match c with
    | LoadCodeAssist "https://c.example" _ =>
        reply "200" (Some (Obj [("cloudaicompanionProject", Str "proj-123")]))
    | _ => reply "500" None
    end.

(** The first host answers 200 with an empty object, the second names a
    project. *)
Definition first_host_empty : Network :=
  fun c =>
    match c with
    | LoadCodeAssist "https://a.example" _ => reply "200" (Some (Obj []))
    | LoadCodeAssist "https://b.example" _ =>
        reply "200" (Some (Obj [("cloudaicompanionProject", Str "proj-b")]))
    | _ => reply "500" None
    end.

Definition STORE : string := "/home/dev/.config/antigravity-proxy/accounts.json".
Definition STORE_DIR : string := "/home/dev/.config/antigravity-proxy".
Definition LEGACY_STORE : string := "/srv/proxy/data/accounts.json".
Definition HOSTS : list string := ["https://a.example"; "https://b.example"].

Definition dirname_of_store (path : string) : string := STORE_DIR.

(** Stand-ins for [JSON.parse] and [JSON.stringify] on the few texts used
    below. *)
Definition parse_sample (text : string) : option value :=
  if String.eqb text "{}" then Some (Obj []) else None.

Definition stringify_sample (v : value) : string :=
  match v with
  | Obj _ => "{...}"
  | _ => "null"
  end.

Definition generator : Csprng :=
  {| supply := fun i => byte_of_N (N.of_nat (7 * i + 3) mod 256); drawn := 0 |}.

Definition issued : string := auth_state (fst (getAuthorizationUrl generator)).

Definition callback (state code : string) : Event :=
  Request {| pathname := "/oauth-callback";
             searchParams := [("code", code); ("state", state)] |}.

Definition favicon : Event :=
  Request {| pathname := "/favicon.ico"; searchParams := [] |}.

(** A provider that signs [email] in and hands out [refresh]. *)
Definition provider (email refresh : string) : Network :=
  fun c =>
    match c with
    | TokenExchange _ _ =>
        reply "200" (Some (Obj [ ("access_token", Str "ya29.a");
                                 ("refresh_token", Str refresh);
                                 ("expires_in", Num 3599) ]))
    | TokenRefresh _ =>
        reply "200" (Some (Obj [ ("access_token", Str "ya29.b");
                                 ("expires_in", Num 3599) ]))
    | GetUserInfo _ => reply "200" (Some (Obj [("email", Str email)]))
    | LoadCodeAssist _ _ =>
        reply "200" (Some (Obj [("cloudaicompanionProject", Str "proj-123")]))
    end.

Definition signs_in (email refresh : string) : Attempt :=
  {| entropy := generator;
     events := [callback issued "4/0Ab"; TimerFired];
     network := provider email refresh;
     clock := "2026-03-01T10:00:00.000Z";
     add_more := "n" |}.

Definition forged_callback : Attempt :=
  {| entropy := generator;
     events := [favicon; callback "forged" "4/0Ab"; TimerFired];
     network := provider "b@example.com" "1//new";
     clock := "2026-03-01T10:00:00.000Z";
     add_more := "n" |}.

Definition stored (email : string) : Account :=
  [ ("email", Str email);
    ("source", Str "oauth");
    ("refreshToken", Str "1//old");
    ("projectId", Str "proj-old");
    ("addedAt", Str "2025-01-01T00:00:00.000Z");
    ("lastUsed", Num 1700000000000);
    ("isRateLimited", Bool true);
    ("rateLimitResetTime", Num 1700000060000) ].

Definition two_accounts : Ledger := [stored "a@example.com"; stored "b@example.com"].

Definition ten_accounts : Ledger :=
  map stored [ "u0@example.com"; "u1@example.com"; "u2@example.com"; "u3@example.com";
               "u4@example.com"; "u5@example.com"; "u6@example.com"; "u7@example.com";
               "u8@example.com"; "u9@example.com" ].

Definition eleven_accounts : Ledger := (ten_accounts ++ [stored "u10@example.com"])%list.

(** A store written by hand with eleven records: its text, abbreviated, and
    what [JSON.parse] makes of it. *)
Definition parse_oversized (text : string) : option value :=
  if String.eqb text "eleven"
  then Some (Obj [("accounts", Arr (map Obj eleven_accounts))])
  else None.

Definition oversized : Disk :=
  {| entries := {[ STORE := File "eleven" ]}; write_error := None |}.

Definition empty_disk : Disk := {| entries := ∅; write_error := None |}.

Definition legacy_only : Disk :=
  {| entries := {[ LEGACY_STORE := File "{}" ]}; write_error := None |}.

Definition garbled : Disk :=
  {| entries := {[ STORE := File "accounts: oops" ]}; write_error := None |}.

End Scenario.

(** ** The commands around the ledger *)

Module Cli.
Import Text JS Crypto OAuth Accounts.
Local Open Scope async_scope.

Definition double_quote : ascii := ascii_of_nat 34.

Definition quoted (s : string) : string :=
  String double_quote (s ++ String double_quote "").

(** Characters that mean nothing to a shell inside double quotes. *)
Definition plain (c : ascii) : bool :=
  Encoding.is_alnum c || contains_char c "*-._+=&?:/%".

Definition is_lower_hex (c : ascii) : bool := contains_char c Encoding.hex_digits.

(** [openBrowser(url)]: the command line handed to [exec]. *)
Definition openBrowser (platform url : string) : string :=
  if String.eqb platform "darwin" then "open " ++ quoted url
  else if String.eqb platform "win32" then "start " ++ quoted "" ++ " " ++ quoted url
  else "xdg-open " ++ quoted url.

(** [accounts.length === 0] *)
Definition length_is_zero (accounts : value) : result bool :=
  match accounts with
  | Undefined | Null => Throw "TypeError: Cannot read properties"
  | Arr items => Ok (match items with [] => true | _ => false end)
  | Str s => Ok (String.eqb s "")
  | Obj props => Ok (strict_eq (prop "length" props) (Num 0))
  | _ => Ok false
  end.

(** The callback of [accounts.forEach] reads two properties of each
    element. *)
Fixpoint display_each (items : list value) : result unit :=
  match items with
  | [] => Ok tt
  | acc :: rest =>
      match get acc "isRateLimited" with
      | Ok _ =>
          match get acc "email" with
          | Ok _ => display_each rest
          | Throw e => Throw e
          | Hang => Hang
          end
      | Throw e => Throw e
      | Hang => Hang
      end
  end.

(** [displayAccounts(accounts)], without what it prints: whether it returns
    or throws. Only an array has [forEach]. *)
Definition displayAccounts (accounts : value) : result unit :=
  match length_is_zero accounts with
  | Ok true => Ok tt
  | Ok false =>
      match accounts with
      | Arr items => display_each items
      | _ => Throw "TypeError: accounts.forEach is not a function"
      end
  | Throw e => Throw e
  | Hang => Hang
  end.

(** One line of [verifyAccounts]: the check mark with the email the provider
    reports, or the cross with the stored email and the error message. *)
Inductive Report : Type :=
| Verified (email : value)
| NotVerified (email : value) (message : Exn).

(** The body of the [for] loop of [verifyAccounts]. *)
Definition verify_one (net : Network) (account : value) : Async Report :=
  try_catch
    (let* refreshToken := lift (get account "refreshToken") in
     let* tokens := refreshAccessToken net refreshToken in
     let* accessToken := lift (get tokens "accessToken") in
     let* email := getUserEmail net accessToken in
     ret (Verified email))
    (fun e =>
       let* email := lift (get account "email") in
       ret (NotVerified email e)).

Fixpoint verify_each (net : Network) (accounts : list value) : Async (list Report) :=
  match accounts with
  | [] => ret []
  | account :: rest =>
      let* line := verify_one net account in
      let* lines := verify_each net rest in
      ret (line :: lines)
  end.

Section Store.

Variable ACCOUNT_CONFIG_PATH : string.
Variable dirname : string -> string.
Variable JSON_parse : string -> option value.
Variable JSON_stringify : value -> string.

(** [listAccounts()] *)
Definition listAccounts : FS unit :=
  (let* accounts := loadAccounts ACCOUNT_CONFIG_PATH JSON_parse in
   fs_lift (displayAccounts accounts))%fs.

(** [clearAccounts(rl)]; [confirm] answers the question, asked when there is
    something to clear. *)
Definition clearAccounts (now confirm : string) : FS unit :=
  (let* accounts := loadAccounts ACCOUNT_CONFIG_PATH JSON_parse in
   let* empty := fs_lift (length_is_zero accounts) in
   if (empty : bool) then fs_ret tt
   else
     let* _u := fs_lift (displayAccounts accounts) in
     if String.eqb (toLowerCase confirm) "y"
     then saveAccounts ACCOUNT_CONFIG_PATH dirname JSON_stringify now [] []
     else fs_ret tt)%fs.

(** [verifyAccounts()]: the disk as it leaves it and the lines it prints;
    [None] when the store holds something other than an array, which this
    model does not follow. *)
Definition verifyAccounts (net : Network) (d : Disk)
  : Disk * option (Async (list Report)) :=
  match loadAccounts ACCOUNT_CONFIG_PATH JSON_parse d with
  | (d1, Ok (Arr items)) => (d1, Some (verify_each net items))
  | (d1, _) => (d1, None)
  end.

End Store.

End Cli.

(** ** Invariants of the ledger *)

Module Invariants.
Import Text JS OAuth Accounts.

(** No two records carry the same email, in the sense of [===]. *)
Definition distinct_emails (accounts : Ledger) : Prop :=
  forall i j a b, i < j -> accounts !! i = Some a -> accounts !! j = Some b ->
                  strict_eq (prop "email" a) (prop "email" b) = false.

(** The properties that the add loop may assign on an existing record. *)
Definition token_property (k : string) : Prop :=
  k = "refreshToken" \/ k = "projectId" \/ k = "addedAt".

(** [later] has every record of [earlier] at the same place, equal but for
    the token properties. *)
Definition extends (earlier later : Ledger) : Prop :=
  forall i a, earlier !! i = Some a ->
              exists a', later !! i = Some a'
                         /\ forall k, ~ token_property k -> prop k a' = prop k a.

End Invariants.

(** ** The listener seen from the socket *)

Module Wire.
Import Text JS OAuth Spec.

(** A server error that reports a failed bind. *)
Definition bind_error (e : Event) : bool :=
  match e with
  | ServerError code _ => bind_failed code
  | _ => false
  end.

(** The events after which the port is not held: those whose callback
    closes the server, and a failed bind. *)
Definition unbinds (e : Event) : bool := closes e || bind_error e.

(** How often a run releases the port: once when the first of these
    events is one that closes the server, never when it is a failed bind or
    when there is none. *)
Definition released (events : list Event) : nat :=
  match List.find unbinds events with
  | Some e => if closes e then 1 else 0
  | None => 0
  end.

Definition is_request (e : Event) : bool :=
  match e with
  | Request _ => true
  | _ => false
  end.

(** [req.url] as the HTTP parser hands it to the callback:
    [new URL(req.url, base)] either makes a URL of it or throws a
    [TypeError] (on [//], for one). Which targets it accepts is the
    platform's affair; a trace records the outcome. *)
Inductive Target : Type :=
| Parses (req : HttpRequest)
| Invalid (target : string).

Inductive Arrival : Type :=
| Incoming (target : Target)
| Timer
| Failure (code message : string).

(** The callback of [http.createServer] from its first line on: nothing
    around [new URL] catches what it throws, and nothing has been written
    by then. *)
Definition handler (expectedState : string) (target : Target) (l : Listener)
  : result Listener :=
  match target with
  | Parses req => Ok (on_request expectedState req l)
  | Invalid _ => Throw "TypeError: Invalid URL"
  end.

(** The process that runs the listener. Events are delivered in turn until
    a callback throws: the exception is caught nowhere, so the process ends
    with it and nothing that arrives later is served. *)
Fixpoint serve (expectedState : string) (l : Listener) (arrivals : list Arrival)
  : Listener * option Exn :=
  match arrivals with
  | [] => (l, None)
  | Incoming target :: rest =>
      match handler expectedState target l with
      | Ok l' => serve expectedState l' rest
      | Throw e => (l, Some e)
      | Hang => (l, None)
      end
  | Timer :: rest => serve expectedState (deliver expectedState l TimerFired) rest
  | Failure code message :: rest =>
      serve expectedState (deliver expectedState l (ServerError code message)) rest
  end.

Definition is_invalid (a : Arrival) : bool :=
  match a with
  | Incoming (Invalid _) => true
  | _ => false
  end.

(** The events that come before the first target that is not a URL. *)
Fixpoint served (arrivals : list Arrival) : list Event :=
  match arrivals with
  | [] => []
  | Incoming (Parses req) :: rest => Request req :: served rest
  | Incoming (Invalid _) :: _ => []
  | Timer :: rest => TimerFired :: served rest
  | Failure code message :: rest => ServerError code message :: served rest
  end.

End Wire.

(** ** What reaches the disk *)

Module Json.
Import Text JS.

Definition is_undefined (v : value) : bool :=
  match v with
  | Undefined => true
  | _ => false
  end.

(** The own properties of an object that [JSON.stringify] writes: those
    whose value is not [undefined]. *)
Definition defined_only (props : list (string * value)) : list (string * value) :=
  List.filter (fun kv => negb (is_undefined (snd kv))) props.

End Json.

(** ** Worlds in which something goes wrong *)

Module Failures.
Import Text Encoding JS Crypto OAuth Accounts Scenario.

Definition NOW : string := "2026-03-01T10:00:00.000Z".
Definition LATER : string := "2027-01-01T00:00:00.000Z".

Definition code_delivered : HttpRequest :=
  {| pathname := "/oauth-callback";
     searchParams := [("code", "4/0Ab"); ("state", "s3cr3t")] |}.

(** The user refused consent; the callback carries neither the state that
    was issued nor a code. *)
Definition consent_denied : HttpRequest :=
  {| pathname := "/oauth-callback";
     searchParams := [("error", "access_denied"); ("state", "other")] |}.

Definition code_missing : HttpRequest :=
  {| pathname := "/oauth-callback"; searchParams := [("state", "s3cr3t")] |}.

Definition refused (code body : string) : FetchOutcome :=
  Responded {| ok := false; status := code; text := body; json := None |}.

Definition unreachable : Network := fun _ => NetworkError "fetch failed".

(** The provider as in [provider], but for one kind of request. *)
Definition exchange_refused : Network :=
  fun c =>
    match c with
    | TokenExchange _ _ => refused "400" "invalid_grant"
    | _ => provider "a@example.com" "1//a" c
    end.

Definition token_missing : Network :=
  fun c =>
    match c with
    | TokenExchange _ _ => reply "200" (Some (Obj [("token_type", Str "Bearer")]))
    | _ => provider "a@example.com" "1//a" c
    end.

Definition userinfo_refused : Network :=
  fun c =>
    match c with
    | GetUserInfo _ => refused "401" "Unauthorized"
    | _ => provider "a@example.com" "1//a" c
    end.

Definition no_project : Network :=
  fun c =>
    match c with
    | LoadCodeAssist _ _ => refused "403" "Forbidden"
    | _ => provider "a@example.com" "1//a" c
    end.

(** Every request answered with a success status over a body that is not
    JSON, that is [null], that is a JSON string. *)
Definition refresh_garbled : Network := fun _ => reply "200" None.

Definition null_body : Network := fun _ => reply "200" (Some Null).

Definition text_body : Network := fun _ => reply "200" (Some (Str "ok")).

(** The refresh token stored for [a@example.com] has been revoked. *)
Definition revoked : Network :=
  fun c =>
    match c with
    | TokenRefresh _ => Responded refresh_denied
    | _ => provider "a@example.com" "1//a" c
    end.

Definition refused_sign_in : Attempt :=
  {| entropy := generator;
     events := [callback issued "4/0Ab"; TimerFired];
     network := exchange_refused;
     clock := NOW;
     add_more := "n" |}.

(** Signs in and asks for another pass. *)
Definition signs_in_again (email refresh : string) : Attempt :=
  {| entropy := generator;
     events := [callback issued "4/0Ab"; TimerFired];
     network := provider email refresh;
     clock := NOW;
     add_more := "Y" |}.



Definition unsaved : Account :=
  [ ("email", Str "a@example.com"); ("refreshToken", Str "1//a") ].

(** A parser that knows the one text [stringify_sample] writes for
    [config]. *)
Definition parse_written (config : value) (text : string) : option value :=
  if String.eqb text "{...}" then Some config else None.

(** A store with two records, its text abbreviated, and a parser that also
    knows the text of the empty configuration. *)
Definition parse_two (text : string) : option value :=
  if String.eqb text "two"
  then Some (Obj [("accounts", Arr (map Obj two_accounts))])
  else parse_written (saved_config NOW [] []) text.

Definition two_on_disk : Disk :=
  {| entries := {[ STORE := File "two" ]}; write_error := None |}.

(** The directory of the store is there, the store is not; another file
    lies elsewhere. *)
Definition prepared : Disk :=
  {| entries := <[STORE_DIR := Directory]> {[ LEGACY_STORE := File "{}" ]};
     write_error := None |}.

Definition read_only : Disk :=
  {| entries := {[ STORE := File "two" ]};
     write_error := Some "EACCES: permission denied" |}.

End Failures.

(** * Properties *)

(** ** Encodings *)

Module EncodingFacts.
Import Text Encoding.

Lemma list_ind3 {A} (P : list A -> Prop) :
  P [] -> (forall a, P [a]) -> (forall a b, P [a; b]) ->
  (forall a b c l, P l -> P (a :: b :: c :: l)) ->
  forall l, P l.
Proof.
  intros H0 H1 H2 H3.
  fix IH 1. intros [|a [|b [|c l]]].
  - exact H0.
  - apply H1.
  - apply H2.
  - apply H3, IH.
Qed.

(** A property checked on the 64 sextets holds of every sextet. *)
Lemma below_64 (p : N -> bool) :
  forallb p (map N.of_nat (seq 0 64)) = true ->
  forall i, (i < 64)%N -> p i = true.
Proof.
  intros H i Hi. rewrite forallb_forall in H. apply H.
  apply in_map_iff. exists (N.to_nat i). split; [lia|].
  apply in_seq. lia.
Qed.

Lemma byte_val_bound b : (byte_val b < 256)%N.
Proof. unfold byte_val. pose proof (Byte.to_N_bounded b). lia. Qed.

Lemma sextets_bound b0 b1 b2 :
  let '(s0, s1, s2, s3) := sextets b0 b1 b2 in
  (s0 < 64 /\ s1 < 64 /\ s2 < 64 /\ s3 < 64)%N.
Proof.
  unfold sextets.
  pose proof (byte_val_bound b0). pose proof (byte_val_bound b1). pose proof (byte_val_bound b2).
  repeat split; try (apply N.mod_lt; lia).
  apply N.Div0.div_lt_upper_bound; lia.
Qed.

Lemma url_safe_nth i : (i < 64)%N ->
  url_safe_char (nth_char base64_alphabet i) = nth_char base64url_alphabet i
  /\ Ascii.eqb (nth_char base64_alphabet i) "=" = false.
Proof.
  intros Hi.
  pose proof (below_64 (fun i => Ascii.eqb (url_safe_char (nth_char base64_alphabet i)) (nth_char base64url_alphabet i)
     && negb (Ascii.eqb (nth_char base64_alphabet i) "=")) eq_refl i Hi) as H.
  cbv beta in H. apply andb_true_iff in H as [H1 H2].
  apply Ascii.eqb_eq in H1. apply negb_true_iff in H2. auto.
Qed.

Lemma base64url_refines bs : base64url bs = URLsafeBase64_spec bs.
Proof.
  unfold URLsafeBase64_spec.
  induction bs as [|b0|b0 b1|b0 b1 b2 rest IH] using list_ind3.
  - reflexivity.
  - cbn [base64url base64_padded].
    pose proof (sextets_bound b0 x00 x00) as Hb.
    destruct (sextets b0 x00 x00) as [[[s0 s1] s2] s3].
    destruct Hb as (H0 & H1 & _ & _).
    destruct (url_safe_nth s0 H0) as [E0 N0], (url_safe_nth s1 H1) as [E1 N1].
    cbn [url_safe_unpadded]. rewrite N0, N1, E0, E1. reflexivity.
  - cbn [base64url base64_padded].
    pose proof (sextets_bound b0 b1 x00) as Hb.
    destruct (sextets b0 b1 x00) as [[[s0 s1] s2] s3].
    destruct Hb as (H0 & H1 & H2 & _).
    destruct (url_safe_nth s0 H0) as [E0 N0], (url_safe_nth s1 H1) as [E1 N1],
      (url_safe_nth s2 H2) as [E2 N2].
    cbn [url_safe_unpadded]. rewrite N0, N1, N2, E0, E1, E2. reflexivity.
  - cbn [base64url base64_padded].
    pose proof (sextets_bound b0 b1 b2) as Hb.
    destruct (sextets b0 b1 b2) as [[[s0 s1] s2] s3].
    destruct Hb as (H0 & H1 & H2 & H3).
    destruct (url_safe_nth s0 H0) as [E0 N0], (url_safe_nth s1 H1) as [E1 N1],
      (url_safe_nth s2 H2) as [E2 N2], (url_safe_nth s3 H3) as [E3 N3].
    cbn [url_safe_unpadded]. rewrite N0, N1, N2, N3, E0, E1, E2, E3, IH. reflexivity.
Qed.

Local Open Scope N_scope.

Lemma regroup (n : N) :
  (n / 262144) * 262144 + ((n / 4096) mod 64) * 4096 + ((n / 64) mod 64) * 64 + n mod 64 = n.
Proof.
  replace (n / 262144) with (n / 64 / 64 / 64) by (rewrite !N.Div0.div_div; reflexivity).
  replace (n / 4096) with (n / 64 / 64) by (rewrite !N.Div0.div_div; reflexivity).
  pose proof (N.div_mod' n 64). pose proof (N.div_mod' (n / 64) 64).
  pose proof (N.div_mod' (n / 64 / 64) 64). lia.
Qed.

Lemma div_unique_lt (a b q r : N) : a = b * q + r -> r < b -> a / b = q /\ a mod b = r.
Proof.
  intros E H. split.
  - symmetry. apply (N.div_unique a b q r); assumption.
  - symmetry. apply (N.mod_unique a b q r); assumption.
Qed.

Lemma quantum_3 (x y z : N) : x < 256 -> y < 256 -> z < 256 ->
  let n := x * 65536 + y * 256 + z in
  let m := (n / 262144) * 262144 + ((n / 4096) mod 64) * 4096
            + ((n / 64) mod 64) * 64 + n mod 64 in
  m / 65536 = x /\ (m / 256) mod 256 = y /\ m mod 256 = z.
Proof.
  intros Hx Hy Hz n m. subst m. rewrite regroup. subst n.
  destruct (div_unique_lt (x * 65536 + y * 256 + z) 65536 x (y * 256 + z)) as [E1 _]; [lia|lia|].
  destruct (div_unique_lt (x * 65536 + y * 256 + z) 256 (x * 256 + y) z) as [E2 E3]; [lia|lia|].
  destruct (div_unique_lt (x * 256 + y) 256 x y) as [_ E4]; [lia|lia|].
  rewrite E1, E2, E3, E4. auto.
Qed.

Lemma quantum_2 (x y : N) : x < 256 -> y < 256 ->
  let n := x * 65536 + y * 256 in
  let m := (n / 262144) * 4096 + ((n / 4096) mod 64) * 64 + (n / 64) mod 64 in
  m / 1024 = x /\ (m / 4) mod 256 = y.
Proof.
  intros Hx Hy n m.
  assert (Hm : m = x * 1024 + y * 4).
  { pose proof (regroup n) as R. fold m in R.
    destruct (div_unique_lt n 64 (x * 1024 + y * 4) 0) as [_ E]; [subst n; lia|lia|].
    rewrite E in R. subst m n. lia. }
  rewrite Hm.
  destruct (div_unique_lt (x * 1024 + y * 4) 1024 x (y * 4)) as [E1 _]; [lia|lia|].
  destruct (div_unique_lt (x * 1024 + y * 4) 4 (x * 256 + y) 0) as [E2 _]; [lia|lia|].
  destruct (div_unique_lt (x * 256 + y) 256 x y) as [_ E3]; [lia|lia|].
  rewrite E1, E2, E3. auto.
Qed.

Lemma quantum_1 (x : N) : x < 256 ->
  let n := x * 65536 in
  ((n / 262144) * 64 + (n / 4096) mod 64) / 16 = x.
Proof.
  intros Hx n.
  assert (Hm : (n / 262144) * 64 + (n / 4096) mod 64 = x * 16).
  { pose proof (regroup n) as R.
    destruct (div_unique_lt n 64 (x * 1024) 0) as [E0 E]; [subst n; lia|lia|].
    destruct (div_unique_lt (x * 1024) 64 (x * 16) 0) as [_ E']; [lia|lia|].
    rewrite E, E0, E' in R. subst n. lia. }
  rewrite Hm.
  destruct (div_unique_lt (x * 16) 16 x 0) as [E1 _]; [lia|lia|]. exact E1.
Qed.

Local Close Scope N_scope.

Lemma sextet_of_nth i : (i < 64)%N -> sextet_of (nth_char base64url_alphabet i) = i.
Proof.
  intros Hi.
  pose proof (below_64 (fun i => N.eqb (sextet_of (nth_char base64url_alphabet i)) i) eq_refl i Hi) as H.
  now apply N.eqb_eq in H.
Qed.

Lemma byte_of_N_val b : byte_of_N (byte_val b) = b.
Proof. unfold byte_of_N, byte_val. now rewrite Byte.of_to_N. Qed.



Lemma base64url_roundtrip bs : base64url_decode (base64url bs) = bs.
Proof.
  induction bs as [|b0|b0 b1|b0 b1 b2 rest IH] using list_ind3.
  - reflexivity.
  - cbn [base64url].
    pose proof (sextets_bound b0 x00 x00) as Hb.
    pose proof (quantum_1 (byte_val b0) (byte_val_bound b0)) as Q.
    unfold sextets in *. change (byte_val x00) with 0%N in *.
    rewrite !N.add_0_r in *.
    destruct Hb as (H0 & H1 & _).
    cbn [base64url_decode]. rewrite !sextet_of_nth by assumption.
    cbv zeta in Q. rewrite Q. now rewrite byte_of_N_val.
  - cbn [base64url].
    pose proof (sextets_bound b0 b1 x00) as Hb.
    pose proof (quantum_2 _ _ (byte_val_bound b0) (byte_val_bound b1)) as Q.
    unfold sextets in *. change (byte_val x00) with 0%N in *.
    rewrite !N.add_0_r in *.
    destruct Hb as (H0 & H1 & H2 & _).
    cbn [base64url_decode]. rewrite !sextet_of_nth by assumption.
    cbv zeta in Q. destruct Q as [Q1 Q2]. rewrite Q1, Q2. now rewrite !byte_of_N_val.
  - cbn [base64url].
    pose proof (sextets_bound b0 b1 b2) as Hb.
    pose proof (quantum_3 _ _ _ (byte_val_bound b0) (byte_val_bound b1) (byte_val_bound b2)) as Q.
    unfold sextets in *.
    destruct Hb as (H0 & H1 & H2 & H3).
    cbn [base64url_decode]. rewrite !sextet_of_nth by assumption.
    cbv zeta in Q. destruct Q as (Q1 & Q2 & Q3). rewrite Q1, Q2, Q3, IH.
    now rewrite !byte_of_N_val.
Qed.

Lemma url_safe_char_not_pad c : Ascii.eqb c "=" = false -> Ascii.eqb "=" (url_safe_char c) = false.
Proof.
  intros H. unfold url_safe_char.
  destruct (Ascii.eqb c "+"); [reflexivity|].
  destruct (Ascii.eqb c "/"); [reflexivity|].
  now rewrite Ascii.eqb_sym.
Qed.

Lemma url_safe_unpadded_no_pad s : contains_char "=" (url_safe_unpadded s) = false.
Proof.
  induction s as [|c s IH]; [reflexivity|].
  cbn [url_safe_unpadded]. destruct (Ascii.eqb c "=") eqn:E; [exact IH|].
  cbn [contains_char]. now rewrite (url_safe_char_not_pad c E).
Qed.

Lemma base64url_no_padding bs : contains_char "=" (base64url bs) = false.
Proof. rewrite base64url_refines. apply url_safe_unpadded_no_pad. Qed.

Lemma append_cons c (a b : string) : String c a ++ b = String c (a ++ b).
Proof. reflexivity. Qed.

Lemma contains_char_app c a b :
  contains_char c (a ++ b) = contains_char c a || contains_char c b.
Proof.
  induction a as [|d a IH]; [reflexivity|].
  rewrite append_cons. cbn [contains_char]. destruct (Ascii.eqb c d); [reflexivity|exact IH].
Qed.

Lemma forall_chars_app p a b :
  forall_chars p (a ++ b) = forall_chars p a && forall_chars p b.
Proof.
  induction a as [|d a IH]; [reflexivity|].
  rewrite append_cons. cbn [forall_chars]. rewrite IH. now rewrite andb_assoc.
Qed.

Lemma form_encode_char_no_amp c : contains_char "&" (form_encode_char c) = false.
Proof. destruct c as [[] [] [] [] [] [] [] []]; reflexivity. Qed.

Lemma form_urlencode_no_amp s : contains_char "&" (form_urlencode s) = false.
Proof.
  induction s as [|c s IH]; [reflexivity|].
  cbn [form_urlencode]. now rewrite contains_char_app, form_encode_char_no_amp, IH.
Qed.

Lemma form_urlencode_safe s : forall_chars form_safe s = true -> form_urlencode s = s.
Proof.
  induction s as [|c s IH]; [reflexivity|].
  cbn [forall_chars form_urlencode]. intros [Hc Hs]%andb_true_iff.
  unfold form_encode_char. rewrite Hc, (IH Hs). reflexivity.
Qed.

Lemma split_on_no_sep sep s : contains_char sep s = false -> split_on sep s = [s].
Proof.
  induction s as [|c s IH]; [reflexivity|].
  cbn [contains_char split_on]. rewrite (Ascii.eqb_sym c sep).
  destruct (Ascii.eqb sep c); [discriminate|]. intros H. now rewrite (IH H).
Qed.

Lemma split_on_app sep a b :
  contains_char sep a = false ->
  split_on sep (a ++ String sep b) = a :: split_on sep b.
Proof.
  induction a as [|c a IH]; intros H.
  - change ("" ++ String sep b) with (String sep b).
    cbn [split_on]. now rewrite Ascii.eqb_refl.
  - cbn [contains_char] in H. rewrite append_cons. cbn [split_on]. rewrite (Ascii.eqb_sym c sep).
    destruct (Ascii.eqb sep c); [discriminate|]. now rewrite (IH H).
Qed.

Lemma split_on_join sep (items : list string) :
  items <> [] ->
  Forall (fun it => contains_char sep it = false) items ->
  split_on sep (join sep items) = items.
Proof.
  induction items as [|it items IH]; [congruence|].
  intros _ H. inversion H as [|? ? Hit Hrest]; subst.
  destruct items as [|it' items].
  - cbn [join]. now apply split_on_no_sep.
  - change (join sep (it :: it' :: items)) with (it ++ String sep (join sep (it' :: items))).
    rewrite split_on_app by assumption. f_equal. apply IH; [congruence|assumption].
Qed.

Lemma hex_of_byte_safe b : forall_chars form_safe (hex_of_byte b) = true.
Proof. destruct b; reflexivity. Qed.

Lemma hex_safe bs : forall_chars form_safe (hex bs) = true.
Proof.
  unfold hex. induction bs as [|b bs IH]; [reflexivity|].
  cbn [map concat_strings]. now rewrite forall_chars_app, hex_of_byte_safe, IH.
Qed.

Lemma nth_base64url_safe i : (i < 64)%N -> form_safe (nth_char base64url_alphabet i) = true.
Proof. apply (below_64 (fun i => form_safe (nth_char base64url_alphabet i))). reflexivity. Qed.

Lemma nth_in_alphabet i : (i < 64)%N -> is_base64url_char (nth_char base64url_alphabet i) = true.
Proof.
  apply (below_64 (fun i => is_base64url_char (nth_char base64url_alphabet i))). reflexivity.
Qed.

Lemma base64url_alphabet_only bs : forall_chars is_base64url_char (base64url bs) = true.
Proof.
  induction bs as [|b0|b0 b1|b0 b1 b2 rest IH] using list_ind3.
  - reflexivity.
  - cbn [base64url]. pose proof (sextets_bound b0 x00 x00) as Hb.
    destruct (sextets b0 x00 x00) as [[[s0 s1] s2] s3]. destruct Hb as (H0 & H1 & _).
    cbn [forall_chars]. now rewrite !nth_in_alphabet.
  - cbn [base64url]. pose proof (sextets_bound b0 b1 x00) as Hb.
    destruct (sextets b0 b1 x00) as [[[s0 s1] s2] s3]. destruct Hb as (H0 & H1 & H2 & _).
    cbn [forall_chars]. now rewrite !nth_in_alphabet.
  - cbn [base64url]. pose proof (sextets_bound b0 b1 b2) as Hb.
    destruct (sextets b0 b1 b2) as [[[s0 s1] s2] s3]. destruct Hb as (H0 & H1 & H2 & H3).
    cbn [forall_chars]. now rewrite !nth_in_alphabet, IH.
Qed.

Example sha256_abc :
  hex (SHA256.sha256 (bytes_of_string "abc"))
  = "ba7816bf8f01cfea414140de5dae2223b00361a396177a9cb410ff61f20015ad".
Proof. vm_compute. reflexivity. Qed.

Example sha256_empty :
  hex (SHA256.sha256 [])
  = "e3b0c44298fc1c149afbf4c8996fb92427ae41e4649b934ca495991b7852b855".
Proof. vm_compute. reflexivity. Qed.

Example pkce_rfc7636 :
  base64url (SHA256.sha256 (bytes_of_string "dBjftJeZ4CVP-mB92K27uhbUJU1p1r_wW1gFWFOEjXk"))
  = "E9Melhoa2OwvFrEMTJguCHaoeK1t8URWbuGJSstw-cM".
Proof. vm_compute. reflexivity. Qed.

Example sha256_two_blocks :
  hex (SHA256.sha256
         (bytes_of_string "abcdbcdecdefdefgefghfghighijhijkijkljklmklmnlmnomnopnopq"))
  = "248d6a61d20638b8e5c026930c3e6039a33ce45964ff2167f6ecedd419db06c1".
Proof. vm_compute. reflexivity. Qed.

Example base64url_Man : base64url [x4d; x61; x6e] = "TWFu".
Proof. reflexivity. Qed.

Example base64url_short : base64url [x4d; x61] = "TWE" /\ base64url [x4d] = "TQ".
Proof. split; reflexivity. Qed.

Example base64url_minus_underscore :
  base64url [xfb; xff; xbe] = "-_--" /\ base64_padded [xfb; xff] = "+/8=".
Proof. split; reflexivity. Qed.

Example hex_bytes : hex [x00; x0f; xa5; xff] = "000fa5ff".
Proof. reflexivity. Qed.

Example form_urlencode_redirect :
  form_urlencode "http://localhost:51121/oauth-callback a"
  = "http%3A%2F%2Flocalhost%3A51121%2Foauth-callback+a".
Proof. reflexivity. Qed.

End EncodingFacts.

(** ** PKCE and the authorization URL *)

Module AuthorizationFacts.
Import Text Encoding EncodingFacts Crypto OAuth.

Lemma randomBytes_length n g : length (fst (randomBytes n g)) = n.
Proof. unfold randomBytes. cbn [fst]. now rewrite length_map, length_seq. Qed.

Lemma generatePKCE_fst g :
  fst (generatePKCE g)
  = {| verifier := base64url (fst (randomBytes 32 g));
       challenge := base64url (SHA256.sha256
                       (bytes_of_string (base64url (fst (randomBytes 32 g))))) |}.
Proof. unfold generatePKCE. destruct (randomBytes 32 g). reflexivity. Qed.

(** C5. Every generated PKCE pair has
    [challenge = URLsafeBase64(SHA256(verifier))] in the spec's sense
    (base64, made URL-safe, padding removed), the challenge holds no [=],
    and the verifier is that same encoding of the 32 bytes drawn from the
    random source, all of which can be read back from it; both are made of
    URL-safe characters only. *)
Theorem generatePKCE_S256 (g : Csprng) :
  let pkce := fst (generatePKCE g) in
  let random := fst (randomBytes 32 g) in
  challenge pkce = URLsafeBase64_spec (SHA256.sha256 (bytes_of_string (verifier pkce)))
  /\ contains_char "=" (challenge pkce) = false
  /\ verifier pkce = URLsafeBase64_spec random
  /\ contains_char "=" (verifier pkce) = false
  /\ length random = 32
  /\ base64url_decode (verifier pkce) = random
  /\ forall_chars is_base64url_char (verifier pkce) = true
  /\ forall_chars is_base64url_char (challenge pkce) = true.
Proof.
  cbv zeta. rewrite generatePKCE_fst. cbn [verifier challenge].
  split; [apply base64url_refines|].
  split; [apply base64url_no_padding|].
  split; [apply base64url_refines|].
  split; [apply base64url_no_padding|].
  split; [apply randomBytes_length|].
  split; [apply base64url_roundtrip|].
  split; apply base64url_alphabet_only.
Qed.

Lemma after_first_app sep a b :
  contains_char sep a = false -> after_first sep (a ++ String sep b) = Some b.
Proof.
  induction a as [|c a IH]; intros H.
  - change ("" ++ String sep b) with (String sep b). cbn [after_first].
    now rewrite Ascii.eqb_refl.
  - cbn [contains_char] in H. rewrite append_cons. cbn [after_first].
    rewrite (Ascii.eqb_sym c sep). destruct (Ascii.eqb sep c); [discriminate|]. auto.
Qed.

Lemma query_item_no_amp kv : contains_char "&" (query_item kv) = false.
Proof.
  unfold query_item. rewrite contains_char_app. cbn [contains_char].
  now rewrite !form_urlencode_no_amp.
Qed.

Lemma query_items_of_params (params : list (string * string)) :
  params <> [] ->
  query_items (GOOGLE_AUTH_URL ++ String "?" (URLSearchParams_toString params))
  = map query_item params.
Proof.
  intros Hne. unfold query_items. rewrite after_first_app by reflexivity.
  unfold URLSearchParams_toString. apply split_on_join.
  - destruct params; [congruence|discriminate].
  - apply List.Forall_forall. intros it [kv [<- _]]%in_map_iff. apply query_item_no_amp.
Qed.

Lemma getAuthorizationUrl_fst g :
  exists challenge,
    fst (getAuthorizationUrl g)
    = {| url := GOOGLE_AUTH_URL
                ++ String "?" (URLSearchParams_toString
                                 (authorization_params challenge
                                    (hex (fst (randomBytes 16 (snd (generatePKCE g)))))));
         auth_verifier := verifier (fst (generatePKCE g));
         auth_state := hex (fst (randomBytes 16 (snd (generatePKCE g)))) |}.
Proof.
  unfold getAuthorizationUrl. destruct (generatePKCE g) as [pkce g1].
  cbn [fst snd]. destruct (randomBytes 16 g1) as [bytes g2]. cbn [fst].
  now exists (challenge pkce).
Qed.

(** C8. The authorization URL always carries the query parameters
    [code_challenge_method=S256], [access_type=offline], [prompt=consent],
    and a [state] parameter equal to the state returned with the URL. *)
Theorem getAuthorizationUrl_parameters (g : Csprng) :
  let auth := fst (getAuthorizationUrl g) in
  In "code_challenge_method=S256" (query_items (url auth))
  /\ In "access_type=offline" (query_items (url auth))
  /\ In "prompt=consent" (query_items (url auth))
  /\ In ("state=" ++ auth_state auth) (query_items (url auth)).
Proof.
  cbv zeta. destruct (getAuthorizationUrl_fst g) as [ch ->]. cbn [url auth_state].
  rewrite query_items_of_params by discriminate.
  set (st := hex _).
  split; [|split; [|split]]; apply in_map_iff.
  - exists ("code_challenge_method", "S256"). split; [reflexivity|].
    unfold authorization_params. cbn [In]. auto 20.
  - exists ("access_type", "offline"). split; [reflexivity|].
    unfold authorization_params. cbn [In]. auto 20.
  - exists ("prompt", "consent"). split; [reflexivity|].
    unfold authorization_params. cbn [In]. auto 20.
  - exists ("state", st). split.
    + unfold query_item. cbn [fst snd].
      rewrite (form_urlencode_safe st) by apply hex_safe. reflexivity.
    + unfold authorization_params. cbn [In]. auto 20.
Qed.

End AuthorizationFacts.

(** ** The callback listener *)

Module ListenerFacts.
Import Text JS OAuth Spec.

Lemma deliver_all_app st l xs ys :
  deliver_all st l (xs ++ ys) = deliver_all st (deliver_all st l xs) ys.
Proof. apply fold_left_app. Qed.

(** The shape of every callback: an optional reply, an optional close,
    an optional settle call. *)
Lemma deliver_shape st l e :
  (off_path e = true /\ exists status, deliver st l e = writeHead status l)
  \/ (closes e = true /\
      exists s, (exists status, deliver st l e = settle s (server_close (writeHead status l)))
                \/ (e = TimerFired /\ s = Rejected TIMEOUT_MESSAGE
                    /\ deliver st l e = settle s (server_close l)))
  \/ (closes e = false /\ settles e = true /\
      exists s l', deliver st l e = settle s l' /\ (l' = l \/ l' = never_bound l)).
Proof.
  destruct e as [req| |code msg]; cbn [deliver off_path closes settles].
  - unfold on_request. destruct (String.eqb (pathname req) "/oauth-callback"); cbn [negb].
    + right. left. split; [reflexivity|].
      repeat match goal with
             | |- context [if ?b then _ else _] => destruct b
             end; eexists; left; eexists; reflexivity.
    + left. split; [reflexivity|]. eexists; reflexivity.
  - right. left. split; [reflexivity|]. eexists. right. repeat split.
  - right. right. split; [reflexivity|]. split; [reflexivity|]. unfold on_error.
    destruct (String.eqb code "EADDRINUSE"); eexists; eexists; (split; [reflexivity|]);
      destruct (bind_failed code); auto.
Qed.

Lemma consistent_never_bound l : consistent l -> consistent (never_bound l).
Proof.
  intros [H1 H2 H3]. split; cbn [never_bound promise settle_calls releases handle_open].
  - assumption.
  - assumption.
  - discriminate.
Qed.

Lemma consistent_writeHead status l : consistent l -> consistent (writeHead status l).
Proof. intros [H1 H2 H3]. split; assumption. Qed.

Lemma consistent_server_close l : consistent l -> consistent (server_close l).
Proof.
  intros [H1 H2 H3]. split; cbn [server_close promise settle_calls releases handle_open].
  - assumption.
  - destruct (handle_open l); [rewrite H3 by reflexivity; lia | assumption].
  - discriminate.
Qed.

Lemma consistent_settle s l : consistent l -> consistent (settle s l).
Proof.
  intros [H1 H2 H3]. split; cbn [settle promise settle_calls releases handle_open];
    try assumption.
  rewrite H1. destruct (settle_calls l); reflexivity.
Qed.

Lemma consistent_deliver st l e : consistent l -> consistent (deliver st l e).
Proof.
  intros H.
  destruct (deliver_shape st l e)
    as [[_ [status ->]] | [[_ [s [[status ->] | (_ & _ & ->)]]]
                          | (_ & _ & s & l' & -> & [-> | ->])]];
    auto using consistent_writeHead, consistent_server_close, consistent_settle,
      consistent_never_bound.
Qed.

Lemma consistent_run st events : forall l, consistent l -> consistent (deliver_all st l events).
Proof.
  induction events as [|e events IH]; intros l H; [exact H|].
  apply IH, consistent_deliver, H.
Qed.

Lemma consistent_listening : consistent listening.
Proof. split; cbn; auto; lia. Qed.

(** Counting the calls. *)
Lemma calls_deliver st l e :
  close_calls (deliver st l e) = close_calls l + (if closes e then 1 else 0)
  /\ length (settle_calls (deliver st l e))
     = length (settle_calls l) + (if settles e then 1 else 0).
Proof.
  destruct (deliver_shape st l e)
    as [[Ho [status ->]] | [[Hc [s [[status ->] | (_ & _ & ->)]]]
                          | (Hc & Hs & s & l' & -> & [-> | ->])]].
  - destruct e as [req| |]; try discriminate. cbn [off_path] in Ho.
    cbn [closes settles]. apply negb_true_iff in Ho. rewrite Ho.
    cbn [writeHead close_calls settle_calls]. lia.
  - assert (Hs : settles e = true) by (destruct e; auto).
    rewrite Hc, Hs. cbn [settle server_close writeHead close_calls settle_calls].
    rewrite length_app. cbn [length]. lia.
  - assert (Hs : settles e = true) by (destruct e; auto).
    rewrite Hc, Hs. cbn [settle server_close close_calls settle_calls].
    rewrite length_app. cbn [length]. lia.
  - rewrite Hc, Hs. cbn [settle close_calls settle_calls].
    rewrite length_app. cbn [length]. lia.
  - rewrite Hc, Hs. cbn [settle never_bound close_calls settle_calls].
    rewrite length_app. cbn [length]. lia.
Qed.

Lemma calls_run st events : forall l,
  close_calls (deliver_all st l events) = close_calls l + count closes events
  /\ length (settle_calls (deliver_all st l events))
     = length (settle_calls l) + count settles events.
Proof.
  induction events as [|e events IH]; intros l.
  - cbn. unfold count. cbn. lia.
  - change (deliver_all st l (e :: events)) with (deliver_all st (deliver st l e) events).
    destruct (IH (deliver st l e)) as [-> ->].
    destruct (calls_deliver st l e) as [-> ->].
    unfold count. rewrite !filter_cons.
    destruct (closes e) eqn:Hc, (settles e) eqn:Hs;
      repeat case_decide; try congruence; cbn [length]; lia.
Qed.

(** Once settled, settled for good. *)
Lemma settled_deliver st l e s :
  promise l = Some s -> promise (deliver st l e) = Some s.
Proof.
  intros H.
  destruct (deliver_shape st l e)
    as [[_ [status ->]] | [[_ [s' [[status ->] | (_ & _ & ->)]]]
                          | (_ & _ & s' & l' & -> & [-> | ->])]];
    cbn [settle server_close writeHead never_bound promise]; now rewrite H.
Qed.

Lemma settled_run st events : forall l s,
  promise l = Some s -> promise (deliver_all st l events) = Some s.
Proof.
  induction events as [|e events IH]; intros l s H; [exact H|].
  apply IH, settled_deliver, H.
Qed.

Lemma settles_deliver st l e :
  settles e = true -> is_Some (promise (deliver st l e)).
Proof.
  intros Hs.
  destruct (deliver_shape st l e)
    as [[Ho [status ->]] | [[_ [s' [[status ->] | (_ & _ & ->)]]]
                          | (_ & _ & s' & l' & -> & [-> | ->])]].
  - destruct e; try discriminate. cbn in Ho, Hs. rewrite Hs in Ho. discriminate.
  - cbn [settle server_close writeHead promise]. destruct (promise l); eauto.
  - cbn [settle server_close promise]. destruct (promise l); eauto.
  - cbn [settle promise]. destruct (promise l); eauto.
  - cbn [settle never_bound promise]. destruct (promise l); eauto.
Qed.

Lemma settled_after st events : forall l e,
  In e events -> settles e = true -> is_Some (promise (deliver_all st l events)).
Proof.
  induction events as [|e' events IH]; intros l e Hin Hs; [destruct Hin|].
  change (deliver_all st l (e' :: events)) with (deliver_all st (deliver st l e') events).
  destruct Hin as [->|Hin].
  - destruct (settles_deliver st l e Hs) as [s Hp].
    rewrite (settled_run st events _ s Hp). eauto.
  - eapply IH; eauto.
Qed.

(** C1, as amended. In every run of the listener the promise holds the
    argument of the first call of [resolve] or [reject] and never changes
    once set, and it is set whenever the timer has fired; the port is
    released at most once. The later callback is not suppressed: every
    callback-path request and the timer each call [server.close()], and
    each of them and each server error calls [resolve] or [reject]. *)
Theorem startCallbackServer_first_settlement_wins (st : string) (events : list Event) :
  let l := startCallbackServer st events in
  promise l = head (settle_calls l)
  /\ (forall more s, promise l = Some s ->
        promise (startCallbackServer st (events ++ more)) = Some s)
  /\ (In TimerFired events -> is_Some (promise l))
  /\ releases l <= 1
  /\ close_calls l = count closes events
  /\ length (settle_calls l) = count settles events.
Proof.
  cbv zeta. change (startCallbackServer st events) with (deliver_all st listening events).
  pose proof (consistent_run st events listening consistent_listening) as [H1 H2 _].
  destruct (calls_run st events listening) as [Hc Hs].
  split; [exact H1|].
  split.
  { intros more s Hp.
    change (startCallbackServer st (events ++ more)) with (deliver_all st listening (events ++ more)).
    rewrite deliver_all_app. now apply settled_run. }
  split.
  { intros Hin. now apply (settled_after st events listening TimerFired). }
  split; [exact H2|].
  split; [exact Hc|exact Hs].
Qed.

Lemma startCallbackServer_first_settlement_wins_witness :
  promise (startCallbackServer "s" [TimerFired; TimerFired])
  = Some (Rejected TIMEOUT_MESSAGE)
  /\ is_Some (promise (startCallbackServer "s" [TimerFired])).
Proof.
  destruct (startCallbackServer_first_settlement_wins "s" [TimerFired])
    as (_ & Hstable & Htimer & _).
  split.
  - apply (Hstable [TimerFired] (Rejected TIMEOUT_MESSAGE)). reflexivity.
  - apply Htimer. left. reflexivity.
Defined.

(** C1, as stated, fails: after a successful callback the timer still
    fires, so [server.close()] runs a second time and [reject] is called
    on the promise that [resolve] already settled. *)
Lemma callback_then_timer_not_suppressed :
  let l := startCallbackServer "issued"
             [ Request {| pathname := "/oauth-callback";
                          searchParams := [("code", "4/0Ab"); ("state", "issued")] |};
               TimerFired ] in
  close_calls l = 2
  /\ settle_calls l = [Resolved "4/0Ab"; Rejected TIMEOUT_MESSAGE]
  /\ ~ loser_suppressed l.
Proof.
  cbv zeta. split; [reflexivity|]. split; [reflexivity|].
  unfold loser_suppressed. cbn. lia.
Qed.

Example callback_resolves :
  promise (startCallbackServer "s1"
             [ Request {| pathname := "/favicon.ico"; searchParams := [] |};
               Request {| pathname := "/oauth-callback";
                          searchParams := [("state", "s1"); ("code", "c1")] |} ])
  = Some (Resolved "c1").
Proof. reflexivity. Qed.

Example provider_error_rejects :
  promise (startCallbackServer "s1"
             [ Request {| pathname := "/oauth-callback";
                          searchParams := [("error", "access_denied"); ("state", "s1")] |} ])
  = Some (Rejected "OAuth error: access_denied").
Proof. reflexivity. Qed.

Example missing_code_rejects :
  promise (startCallbackServer "s1"
             [ Request {| pathname := "/oauth-callback"; searchParams := [("state", "s1")] |} ])
  = Some (Rejected "No authorization code").
Proof. reflexivity. Qed.

Example nothing_yet_is_pending :
  promise (startCallbackServer "s1"
             [ Request {| pathname := "/"; searchParams := [("state", "s1"); ("code", "c1")] |} ])
  = None.
Proof. reflexivity. Qed.

Example late_callback_after_timeout :
  let l := startCallbackServer "s1"
             [ TimerFired;
               Request {| pathname := "/oauth-callback";
                          searchParams := [("state", "s1"); ("code", "c1")] |} ] in
  promise l = Some (Rejected TIMEOUT_MESSAGE) /\ close_calls l = 2 /\ releases l = 1.
Proof. cbv zeta. repeat split. Qed.

End ListenerFacts.


(** ** Token refresh and project discovery *)

Module TokenFacts.
Import Text JS OAuth Scenario.

Lemma bind_ok {A B} calls (a : A) (f : A -> Async B) :
  bind (calls, Ok a) f = ((calls ++ fst (f a))%list, snd (f a)).
Proof. unfold bind. destruct (f a). reflexivity. Qed.

Lemma refreshAccessToken_unfold net refreshToken :
  refreshAccessToken net refreshToken
  = ([TokenRefresh refreshToken],
     match net (TokenRefresh refreshToken) with
     | NetworkError m => Throw m
     | Responded r =>
         if negb (ok r) then Throw ("Token refresh failed: " ++ text r)
         else match json r with
              | Some tokens =>
                  match get tokens "access_token" with
                  | Ok a =>
                      match get tokens "expires_in" with
                      | Ok e => Ok (Obj [("accessToken", a); ("expiresIn", e)])
                      | Throw x => Throw x
                      | Hang => Hang
                      end
                  | Throw x => Throw x
                  | Hang => Hang
                  end
              | None => Throw "SyntaxError: Unexpected token in JSON"
              end
     end).
Proof.
  unfold refreshAccessToken, fetch.
  destruct (net (TokenRefresh refreshToken)) as [m|r]; [reflexivity|].
  rewrite bind_ok. destruct (negb (ok r)); [reflexivity|].
  unfold lift. destruct (json r) as [tokens|]; [|reflexivity]. cbn [parsed].
  rewrite bind_ok. destruct (get tokens "access_token"); [|reflexivity|reflexivity].
  rewrite bind_ok. destruct (get tokens "expires_in"); reflexivity.
Qed.

(** C9. Whenever a refresh succeeds, its result is an object with exactly
    the two properties [accessToken] and [expiresIn], read from the
    response, and has no [refreshToken], whatever the provider sent; when
    the provider answers with a non-success status the refresh throws
    "Token refresh failed: " followed by the response body. *)
Theorem refreshAccessToken_result (net : Network) (refreshToken : value) :
  (forall v, snd (refreshAccessToken net refreshToken) = Ok v ->
     exists r tokens,
       net (TokenRefresh refreshToken) = Responded r /\ ok r = true
       /\ json r = Some tokens
       /\ v = Obj [ ("accessToken", get_opt tokens "access_token");
                    ("expiresIn", get_opt tokens "expires_in") ]
       /\ get_opt v "refreshToken" = Undefined)
  /\ (forall r, net (TokenRefresh refreshToken) = Responded r -> ok r = false ->
        snd (refreshAccessToken net refreshToken)
        = Throw ("Token refresh failed: " ++ text r))
  /\ (forall r props, net (TokenRefresh refreshToken) = Responded r -> ok r = true ->
        json r = Some (Obj props) ->
        snd (refreshAccessToken net refreshToken)
        = Ok (Obj [ ("accessToken", prop "access_token" props);
                    ("expiresIn", prop "expires_in" props) ])).
Proof.
  rewrite refreshAccessToken_unfold. cbn [snd].
  split; [|split].
  - intros v H. destruct (net (TokenRefresh refreshToken)) as [m|r]; [discriminate|].
    destruct (ok r) eqn:Hok; cbn [negb] in H; [|discriminate].
    destruct (json r) as [tokens|] eqn:Hjson; try discriminate.
    exists r, tokens.
    split; [reflexivity|]. split; [exact Hok|]. split; [exact Hjson|].
    destruct tokens; cbn [get] in H; try discriminate;
      injection H as <-; split; reflexivity.
  - intros r -> ->. reflexivity.
  - intros r props -> -> ->. reflexivity.
Qed.

Lemma refreshAccessToken_result_witness :
  snd (refreshAccessToken (fun _ => Responded refresh_reply) (Str "1//old"))
  = Ok (Obj [ ("accessToken", Str "ya29.new"); ("expiresIn", Num 3599) ])
  /\ snd (refreshAccessToken (fun _ => Responded refresh_denied) (Str "1//old"))
     = Throw "Token refresh failed: invalid_grant".
Proof.
  split.
  - exact (proj2 (proj2 (refreshAccessToken_result
                           (fun _ => Responded refresh_reply) (Str "1//old")))
             refresh_reply
             [ ("access_token", Str "ya29.new"); ("expires_in", Num 3599);
               ("refresh_token", Str "1//rotated") ]
             eq_refl eq_refl eq_refl).
  - exact (proj1 (proj2 (refreshAccessToken_result
                           (fun _ => Responded refresh_denied) (Str "1//old")))
             refresh_denied eq_refl eq_refl).
Defined.

End TokenFacts.

Module DiscoveryFacts.
Import Text JS OAuth Spec Scenario TokenFacts.

Lemma discover_at_candidate net accessToken endpoint :
  discover_at net accessToken endpoint
  = ([LoadCodeAssist endpoint accessToken],
     Ok (candidate (net (LoadCodeAssist endpoint accessToken)))).
Proof.
  unfold discover_at, fetch, candidate.
  destruct (net (LoadCodeAssist endpoint accessToken)) as [m|r]; [reflexivity|].
  cbn [bind]. destruct (ok r); [|reflexivity].
  destruct (json r) as [data|]; [|reflexivity].
  unfold project_id_of.
  destruct data as [| | | | |items|props]; try reflexivity.
  cbn [bind try_catch lift ret parsed negb get get_opt].
  destruct (prop "cloudaicompanionProject" props) as [| | | | |items|inner];
    try reflexivity.
  cbn [is_string get_opt get]. destruct (truthy (prop "id" inner)); reflexivity.
Qed.

Lemma discoverProjectId_cons endpoint rest net accessToken :
  snd (discoverProjectId (endpoint :: rest) net accessToken)
  = match candidate (net (LoadCodeAssist endpoint accessToken)) with
    | Some v => Ok v
    | None => snd (discoverProjectId rest net accessToken)
    end.
Proof.
  cbn [discoverProjectId]. rewrite discover_at_candidate, bind_ok.
  destruct (candidate _); reflexivity.
Qed.

Lemma discoverProjectId_returns endpoints net accessToken :
  exists v, snd (discoverProjectId endpoints net accessToken) = Ok v.
Proof.
  induction endpoints as [|endpoint rest IH]; [now exists Null|].
  rewrite discoverProjectId_cons. destruct (candidate _) as [v|]; eauto.
Qed.

(** C6, as amended. Discovery never throws. A candidate that throws or
    answers with a non-success status is skipped, and so is one that answers
    with a success status over a body that names no project; the first
    success that names one decides, its bare string taking precedence over
    the [id] of a nested object; when every candidate fails the result is
    [null]. *)
Theorem discoverProjectId_first_project (net : Network) (accessToken : value) :
  (forall endpoints, exists v, snd (discoverProjectId endpoints net accessToken) = Ok v)
  /\ (forall endpoint rest,
        failed (net (LoadCodeAssist endpoint accessToken)) ->
        snd (discoverProjectId (endpoint :: rest) net accessToken)
        = snd (discoverProjectId rest net accessToken))
  /\ (forall endpoint rest r,
        net (LoadCodeAssist endpoint accessToken) = Responded r -> ok r = true ->
        without_project r ->
        snd (discoverProjectId (endpoint :: rest) net accessToken)
        = snd (discoverProjectId rest net accessToken))
  /\ (forall endpoint rest r data s,
        net (LoadCodeAssist endpoint accessToken) = Responded r -> ok r = true ->
        json r = Some data -> get_opt data "cloudaicompanionProject" = Str s ->
        snd (discoverProjectId (endpoint :: rest) net accessToken) = Ok (Str s))
  /\ (forall endpoint rest r data inner,
        net (LoadCodeAssist endpoint accessToken) = Responded r -> ok r = true ->
        json r = Some data -> get_opt data "cloudaicompanionProject" = Obj inner ->
        truthy (prop "id" inner) = true ->
        snd (discoverProjectId (endpoint :: rest) net accessToken) = Ok (prop "id" inner))
  /\ (forall endpoints,
        (forall endpoint, In endpoint endpoints ->
                          failed (net (LoadCodeAssist endpoint accessToken))) ->
        snd (discoverProjectId endpoints net accessToken) = Ok Null).
Proof.
  assert (Hfailed : forall o, failed o -> candidate o = None).
  { intros [m|r]; cbn; [reflexivity|]. now intros ->. }
  split; [intros; apply discoverProjectId_returns|].
  split.
  { intros endpoint rest H. rewrite discoverProjectId_cons. now rewrite (Hfailed _ H). }
  split.
  { intros endpoint rest r Hnet Hok H. rewrite discoverProjectId_cons, Hnet.
    unfold candidate, without_project in *. rewrite Hok.
    destruct (json r); [now rewrite H|reflexivity]. }
  split.
  { intros endpoint rest r data s Hnet Hok Hjson H. rewrite discoverProjectId_cons, Hnet.
    unfold candidate, project_id_of. now rewrite Hok, Hjson, H. }
  split.
  { intros endpoint rest r data inner Hnet Hok Hjson H Hid.
    rewrite discoverProjectId_cons, Hnet.
    unfold candidate, project_id_of. now rewrite Hok, Hjson, H, Hid. }
  intros endpoints. induction endpoints as [|endpoint rest IH]; intros H; [reflexivity|].
  rewrite discoverProjectId_cons, (Hfailed _ (H endpoint (or_introl eq_refl))).
  apply IH. intros e He. apply H. now right.
Qed.

Lemma discoverProjectId_first_project_witness :
  snd (discoverProjectId ["https://a.example"; "https://b.example"; "https://c.example"]
         third_host_answers (Str "ya29"))
  = Ok (Str "proj-123").
Proof.
  destruct (discoverProjectId_first_project third_host_answers (Str "ya29"))
    as (_ & Hskip & _ & Hstring & _).
  rewrite (Hskip "https://a.example") by reflexivity.
  rewrite (Hskip "https://b.example") by reflexivity.
  exact (Hstring "https://c.example" [] _ _ "proj-123" eq_refl eq_refl eq_refl eq_refl).
Defined.

(** C6, as stated, fails: the first successful candidate is not the one
    used when its body names no project; the loop goes on to the next. *)
Lemma first_success_is_passed_over :
  snd (discoverProjectId ["https://a.example"; "https://b.example"]
         first_host_empty (Str "ya29"))
  = Ok (Str "proj-b")
  /\ discover_spec ["https://a.example"; "https://b.example"] first_host_empty (Str "ya29")
     = Null
  /\ snd (discoverProjectId ["https://a.example"; "https://b.example"]
            first_host_empty (Str "ya29"))
     <> Ok (discover_spec ["https://a.example"; "https://b.example"]
              first_host_empty (Str "ya29")).
Proof. split; [reflexivity|]. split; [reflexivity|]. discriminate. Qed.

End DiscoveryFacts.

(** ** The ledger *)

Module LedgerFacts.
Import Text JS Crypto OAuth Accounts Spec ListenerFacts.

Section Store.

Variable ACCOUNT_CONFIG_PATH : string.
Variable ANTIGRAVITY_ENDPOINT_FALLBACKS : list string.
Variable dirname : string -> string.
Variable JSON_parse : string -> option value.
Variable JSON_stringify : value -> string.

Local Abbreviation load := (loadAccounts ACCOUNT_CONFIG_PATH JSON_parse).
Local Abbreviation save := (saveAccounts ACCOUNT_CONFIG_PATH dirname JSON_stringify).
Local Abbreviation add := (addAccount ANTIGRAVITY_ENDPOINT_FALLBACKS).
Local Abbreviation loop :=
  (add_loop ACCOUNT_CONFIG_PATH ANTIGRAVITY_ENDPOINT_FALLBACKS dirname JSON_stringify).
Local Abbreviation complete := (completeOAuthFlow ANTIGRAVITY_ENDPOINT_FALLBACKS).

(** *** Properties of objects *)

Lemma prop_set_prop_eq k v o : prop k (set_prop k v o) = v.
Proof.
  unfold prop. induction o as [|[k' v'] o IH]; cbn [set_prop assoc].
  - now rewrite String.eqb_refl.
  - destruct (String.eqb k k') eqn:E; cbn [assoc]; rewrite E; [reflexivity|exact IH].
Qed.

Lemma prop_set_prop_ne k k' v o : k <> k' -> prop k' (set_prop k v o) = prop k' o.
Proof.
  intros Hne. unfold prop. induction o as [|[k0 v0] o IH]; cbn [set_prop assoc].
  - destruct (String.eqb k' k) eqn:E; [|reflexivity].
    apply String.eqb_eq in E. congruence.
  - destruct (String.eqb k k0) eqn:E; cbn [assoc].
    + apply String.eqb_eq in E. subst k0.
      destruct (String.eqb k' k) eqn:E'; [|reflexivity].
      apply String.eqb_eq in E'. congruence.
    + destruct (String.eqb k' k0); [reflexivity|exact IH].
Qed.

(** The equality on emails is exact and case-sensitive. *)
Lemma strict_eq_Str a b : strict_eq (Str a) (Str b) = true <-> a = b.
Proof. apply String.eqb_eq. Qed.

(** *** [find] *)

Lemma find_email_Some email (accounts : Ledger) i :
  find_email email accounts = Some i <->
  (exists a, accounts !! i = Some a /\ strict_eq (prop "email" a) email = true)
  /\ (forall j a, j < i -> accounts !! j = Some a ->
                  strict_eq (prop "email" a) email = false).
Proof.
  revert i. induction accounts as [|a0 accounts IH]; intros i; cbn [find_email].
  - split; [discriminate|]. intros [[a [H _]] _]. discriminate.
  - destruct (strict_eq (prop "email" a0) email) eqn:E.
    + split.
      * intros [= <-]. split; [exists a0; auto|]. intros j a Hj. lia.
      * intros [[a [Hi Ha]] Hbefore]. destruct i as [|i]; [reflexivity|].
        specialize (Hbefore 0 a0 ltac:(lia) eq_refl). congruence.
    + destruct (find_email email accounts) as [i'|] eqn:F; cbn [option_map].
      * split.
        -- intros [= <-]. destruct (proj1 (IH i') eq_refl) as [[a [Hi Ha]] Hbefore].
           split; [exists a; auto|].
           intros [|j] a' Hj Hl; [injection Hl as <-; exact E|].
           apply (Hbefore j a'); [lia|exact Hl].
        -- intros [[a [Hi Ha]] Hbefore]. destruct i as [|i].
           ++ injection Hi as <-. congruence.
           ++ f_equal. assert (Some i' = Some i) as [= ->]; [|reflexivity].
              apply IH. split; [exists a; auto|].
              intros j a' Hj Hl. apply (Hbefore (S j) a'); [lia|exact Hl].
      * split; [discriminate|].
        intros [[a [Hi Ha]] Hbefore]. destruct i as [|i].
        -- injection Hi as <-. congruence.
        -- assert (None = Some i) as [=]. apply IH. split; [exists a; auto|].
           intros j a' Hj Hl. apply (Hbefore (S j) a'); [lia|exact Hl].
Qed.

(** *** [addAccount] *)

Lemma addAccount_unfold (att : Attempt) (accounts : Ledger) :
  let auth := fst (getAuthorizationUrl (entropy att)) in
  add att accounts
  = match promise (startCallbackServer (auth_state auth) (events att)) with
    | None => ([], Hang)
    | Some (Rejected _) => ([], Ok (accounts, None))
    | Some (Resolved code) =>
        match complete (network att) code (auth_verifier auth) with
        | (calls, Ok result) =>
            (calls,
             Ok (match find_email (get_opt result "email") accounts with
                 | Some i => (alter (update_tokens result (clock att)) i accounts, None)
                 | None => (accounts, Some (new_account result (clock att)))
                 end))
        | (calls, Throw _) => (calls, Ok (accounts, None))
        | (calls, Hang) => (calls, Hang)
        end
    end.
Proof.
  cbv zeta. unfold addAccount.
  destruct (getAuthorizationUrl (entropy att)) as [auth g]. cbn [fst].
  destruct (promise (startCallbackServer (auth_state auth) (events att))) as [[code|m]|];
    [|reflexivity|reflexivity].
  cbn [await ret bind].
  destruct (complete (network att) code (auth_verifier auth)) as [calls [result|e|]];
    cbn [bind try_catch ret app]; rewrite ?app_nil_r; [|reflexivity|reflexivity].
  destruct (find_email (get_opt result "email") accounts);
    cbn [bind try_catch ret app]; rewrite ?app_nil_r; reflexivity.
Qed.

Lemma addAccount_length att (accounts accounts' : Ledger) calls fresh :
  add att accounts = (calls, Ok (accounts', fresh)) -> length accounts' = length accounts.
Proof.
  rewrite addAccount_unfold.
  destruct (promise _) as [[code|m]|]; [|now intros [= _ <- _]|discriminate].
  destruct (complete _ _ _) as [calls' [result|e|]];
    [|now intros [= _ <- _]|discriminate].
  destruct (find_email _ _); intros [= _ <- _]; [apply length_alter|reflexivity].
Qed.

Lemma loop_unfold att rest (accounts : Ledger) d log :
  length accounts < MAX_ACCOUNTS ->
  loop (att :: rest) accounts d log
  = match add att accounts with
    | (calls, Ok (accounts1, newAccount)) =>
        let accounts2 :=
          match newAccount with
          | Some a => (accounts1 ++ [a])%list
          | None => accounts1
          end in
        let saving : FS unit :=
          match newAccount with
          | Some _ => save (clock att) accounts2 []
          | None =>
              if (0 <? length accounts1)%nat then save (clock att) accounts2 []
              else fs_ret tt
          end in
        match saving d with
        | (d1, Ok _) =>
            if (MAX_ACCOUNTS <=? length accounts2)%nat then
              {| disk := d1; ledger := accounts2; sent := (log ++ calls)%list;
                 outcome := Finished |}
            else if negb (String.eqb (toLowerCase (add_more att)) "y") then
              {| disk := d1; ledger := accounts2; sent := (log ++ calls)%list;
                 outcome := Finished |}
            else loop rest accounts2 d1 (log ++ calls)%list
        | (d1, Throw e) =>
            {| disk := d1; ledger := accounts2; sent := (log ++ calls)%list;
               outcome := Failed e |}
        | (d1, Hang) =>
            {| disk := d1; ledger := accounts2; sent := (log ++ calls)%list;
               outcome := Unfinished |}
        end
    | (calls, Throw e) =>
        {| disk := d; ledger := accounts; sent := (log ++ calls)%list; outcome := Failed e |}
    | (calls, Hang) =>
        {| disk := d; ledger := accounts; sent := (log ++ calls)%list; outcome := Unfinished |}
    end.
Proof.
  intros H. cbn [add_loop].
  apply Nat.ltb_lt in H. rewrite H. reflexivity.
Qed.

Lemma loop_full attempts (accounts : Ledger) d log :
  MAX_ACCOUNTS <= length accounts ->
  loop attempts accounts d log
  = {| disk := d; ledger := accounts; sent := log; outcome := Finished |}.
Proof.
  intros H. apply Nat.ltb_ge in H.
  destruct attempts; cbn [add_loop]; rewrite H; reflexivity.
Qed.

Lemma loop_end (accounts : Ledger) d log :
  ledger (loop [] accounts d log) = accounts.
Proof. cbn [add_loop]. destruct (negb _); reflexivity. Qed.

(** C4. When the flow ends with an email that a record of the ledger
    already has (compared with [===], the first such record), [addAccount]
    returns [null], so nothing is appended; the ledger keeps its length;
    the record keeps its position and every property other than
    [refreshToken], [projectId] and [addedAt], which take the new values;
    every other record is untouched. *)
Theorem addAccount_updates_in_place (att : Attempt) (accounts : Ledger) (code : string)
    (calls : list Call) (result : value) (i : nat) (existing : Account) :
  let auth := fst (getAuthorizationUrl (entropy att)) in
  promise (startCallbackServer (auth_state auth) (events att)) = Some (Resolved code) ->
  complete (network att) code (auth_verifier auth) = (calls, Ok result) ->
  accounts !! i = Some existing ->
  strict_eq (prop "email" existing) (get_opt result "email") = true ->
  (forall j a, j < i -> accounts !! j = Some a ->
               strict_eq (prop "email" a) (get_opt result "email") = false) ->
  exists accounts' updated,
    add att accounts = (calls, Ok (accounts', None))
    /\ length accounts' = length accounts
    /\ accounts' !! i = Some updated
    /\ prop "refreshToken" updated = get_opt result "refreshToken"
    /\ prop "projectId" updated = get_opt result "projectId"
    /\ prop "addedAt" updated = Str (clock att)
    /\ (forall k, k <> "refreshToken" -> k <> "projectId" -> k <> "addedAt" ->
                  prop k updated = prop k existing)
    /\ (forall j, j <> i -> accounts' !! j = accounts !! j)
    /\ (forall d log, length accounts < MAX_ACCOUNTS ->
                      ledger (loop [att] accounts d log) = accounts').
Proof.
  cbv zeta. intros Hcode Hflow Hi Heq Hfirst.
  assert (Hfind : find_email (get_opt result "email") accounts = Some i).
  { apply find_email_Some. split; [exists existing; auto|exact Hfirst]. }
  assert (Hadd : add att accounts
                 = (calls, Ok (alter (update_tokens result (clock att)) i accounts, None))).
  { rewrite addAccount_unfold. cbv zeta. now rewrite Hcode, Hflow, Hfind. }
  exists (alter (update_tokens result (clock att)) i accounts),
         (update_tokens result (clock att) existing).
  split; [exact Hadd|].
  split; [apply length_alter|].
  split; [now rewrite list_lookup_alter_eq, Hi|].
  unfold update_tokens.
  split; [rewrite !prop_set_prop_ne by discriminate; apply prop_set_prop_eq|].
  split; [rewrite !prop_set_prop_ne by discriminate; apply prop_set_prop_eq|].
  split; [apply prop_set_prop_eq|].
  split; [intros k H1 H2 H3; rewrite !prop_set_prop_ne by congruence; reflexivity|].
  split; [intros j Hj; apply list_lookup_alter_ne; congruence|].
  intros d log Hlen. rewrite loop_unfold by exact Hlen. rewrite Hadd. cbv zeta.
  match goal with
  | |- context [match ?saving d with _ => _ end] =>
      destruct (saving d) as [d1 [u|e|]]; [|reflexivity|reflexivity]
  end.
  destruct (MAX_ACCOUNTS <=? _)%nat; [reflexivity|].
  destruct (negb _); [reflexivity|apply loop_end].
Qed.

(** *** The listener inside the flow *)




(** *** The cap *)

Lemma loop_length attempts : forall (accounts : Ledger) d log,
  length accounts <= MAX_ACCOUNTS ->
  length (ledger (loop attempts accounts d log)) <= MAX_ACCOUNTS.
Proof.
  induction attempts as [|att rest IH]; intros accounts d log Hlen.
  - now rewrite loop_end.
  - destruct (Nat.lt_ge_cases (length accounts) MAX_ACCOUNTS) as [Hlt|Hge];
      [|now rewrite loop_full].
    rewrite loop_unfold by exact Hlt.
    destruct (add att accounts) as [calls [[accounts1 fresh]|e|]] eqn:Hadd;
      [|exact Hlen|exact Hlen].
    apply addAccount_length in Hadd.
    cbv zeta.
    set (accounts2 := match fresh with
                      | Some a => (accounts1 ++ [a])%list
                      | None => accounts1
                      end).
    assert (H2 : length accounts2 <= MAX_ACCOUNTS).
    { subst accounts2. destruct fresh; [rewrite length_app; cbn [length]|]; lia. }
    match goal with
    | |- context [match ?saving d with _ => _ end] =>
        destruct (saving d) as [d1 [u|e|]]; [|exact H2|exact H2]
    end.
    destruct (MAX_ACCOUNTS <=? _)%nat; [exact H2|].
    destruct (negb _); [exact H2|]. now apply IH.
Qed.

(** C3, as amended. The cap is 10. A run of [interactiveAdd] that starts
    from at most 10 records never holds more than 10. When the ledger
    already holds 10 and the user does not ask for a fresh start, the add
    loop is not entered: no flow is started, nothing is written, the ledger
    keeps its 10 records, and the run ends normally; no error is raised. *)
Theorem interactiveAdd_within_cap (accounts : Ledger) (choice : string)
    (attempts : list Attempt) (d : Disk) :
  let run := interactiveAdd_from ACCOUNT_CONFIG_PATH ANTIGRAVITY_ENDPOINT_FALLBACKS
               dirname JSON_stringify accounts choice attempts d in
  MAX_ACCOUNTS = 10
  /\ (length accounts <= MAX_ACCOUNTS -> length (ledger run) <= MAX_ACCOUNTS)
  /\ (length accounts = MAX_ACCOUNTS -> toLowerCase choice <> "f" ->
        run = {| disk := d; ledger := accounts; sent := []; outcome := Finished |}).
Proof.
  cbv zeta. unfold interactiveAdd_from.
  split; [reflexivity|]. split.
  - intros Hlen. apply loop_length.
    destruct (_ && _); [cbn [length]; lia|exact Hlen].
  - intros Hlen Hchoice.
    destruct (String.eqb (toLowerCase choice) "f") eqn:E;
      [apply String.eqb_eq in E; contradiction|].
    rewrite andb_false_r. apply loop_full. lia.
Qed.

(** *** Loading and saving *)

Lemma loadAccounts_unfold (d : Disk) :
  load d
  = (d, Ok (match entries d !! ACCOUNT_CONFIG_PATH with
            | Some (File data) =>
                match JSON_parse data with
                | Some config =>
                    match get config "accounts" with
                    | Ok accounts => or_else accounts (Arr [])
                    | _ => Arr []
                    end
                | None => Arr []
                end
            | _ => Arr []
            end)).
Proof.
  unfold loadAccounts, fs_try, fs_bind, existsSync, readFileSync, fs_lift, fs_ret.
  destruct (entries d !! ACCOUNT_CONFIG_PATH) as [n|] eqn:E.
  - rewrite bool_decide_eq_true_2 by eauto.
    rewrite E. destruct n as [|data|e]; try reflexivity.
    destruct (JSON_parse data) as [config|]; [|reflexivity].
    cbn [parsed]. destruct config; reflexivity.
  - rewrite bool_decide_eq_false_2; [reflexivity|]. intros [x Hx]. discriminate.
Qed.

(** C7, as amended. [loadAccounts] returns the empty array, not an error,
    when the store file is absent, and it never changes the disk: no
    file of another location is looked for or copied. *)
Theorem loadAccounts_absent (d : Disk) :
  fst (load d) = d
  /\ (entries d !! ACCOUNT_CONFIG_PATH = None -> snd (load d) = Ok (Arr [])).
Proof.
  rewrite loadAccounts_unfold. cbn [fst snd]. split; [reflexivity|].
  now intros ->.
Qed.

Lemma saveAccounts_overwrites now (accounts : Ledger) settings (d : Disk) :
  write_error d = None ->
  dirname ACCOUNT_CONFIG_PATH <> ACCOUNT_CONFIG_PATH ->
  entries d !! ACCOUNT_CONFIG_PATH <> Some Directory ->
  snd (save now accounts settings d) = Ok tt
  /\ entries (fst (save now accounts settings d)) !! ACCOUNT_CONFIG_PATH
     = Some (File (JSON_stringify (saved_config now accounts settings))).
Proof.
  intros Hw Hdir Hnode.
  unfold saveAccounts, fs_try, fs_bind, existsSync, mkdirSync, writeFileSync, fs_ret.
  destruct (bool_decide _).
  - rewrite Hw.
    destruct (entries d !! ACCOUNT_CONFIG_PATH) as [[|data|e]|] eqn:E;
      try congruence; cbn [fst snd entries]; now rewrite lookup_insert_eq.
  - rewrite Hw. cbn [write_error entries].
    rewrite lookup_insert_ne by exact Hdir.
    destruct (entries d !! ACCOUNT_CONFIG_PATH) as [[|data|e]|] eqn:E;
      try congruence; cbn [fst snd entries]; now rewrite lookup_insert_eq.
Qed.

(** C10. When the store file exists but cannot be read, is not JSON, or
    is JSON without an [accounts] field, [loadAccounts] returns the empty
    array and no error, exactly as it does when the file is absent; a save
    that follows replaces the file with the serialized ledger. *)
Theorem loadAccounts_corrupt (d : Disk) (n : node) :
  entries d !! ACCOUNT_CONFIG_PATH = Some n ->
  corrupt JSON_parse n ->
  load d = (d, Ok (Arr []))
  /\ snd (load d) = snd (load (without_store ACCOUNT_CONFIG_PATH d))
  /\ (forall now (accounts : Ledger),
        write_error d = None ->
        dirname ACCOUNT_CONFIG_PATH <> ACCOUNT_CONFIG_PATH ->
        snd (save now accounts [] d) = Ok tt
        /\ entries (fst (save now accounts [] d)) !! ACCOUNT_CONFIG_PATH
           = Some (File (JSON_stringify (saved_config now accounts [])))).
Proof.
  intros Hn Hcorrupt.
  assert (Hload : load d = (d, Ok (Arr []))).
  { rewrite loadAccounts_unfold, Hn.
    destruct Hcorrupt as [e ->|data -> Hp|data config -> Hp Hacc];
      [reflexivity|now rewrite Hp|].
    rewrite Hp. destruct config; try reflexivity.
    cbn [get get_opt] in *. now rewrite Hacc. }
  split; [exact Hload|]. split.
  - rewrite Hload, loadAccounts_unfold. cbn [snd without_store entries].
    now rewrite lookup_delete_eq.
  - intros now accounts Hw Hdir. apply saveAccounts_overwrites; try assumption.
    rewrite Hn. destruct Hcorrupt as [e ->|data -> _|data config -> _ _]; discriminate.
Qed.

Lemma objects_of_ledger (accounts : Ledger) : objects (map Obj accounts) = Some accounts.
Proof.
  induction accounts as [|a accounts IH]; [reflexivity|].
  cbn [map objects]. now rewrite IH.
Qed.

(** [interactiveAdd] works on whatever [loadAccounts] returned. *)
Lemma interactiveAdd_loaded (accounts : Ledger) choice attempts (d : Disk) :
  snd (load d) = Ok (Arr (map Obj accounts)) ->
  interactiveAdd ACCOUNT_CONFIG_PATH ANTIGRAVITY_ENDPOINT_FALLBACKS dirname
    JSON_parse JSON_stringify choice attempts d
  = Some (interactiveAdd_from ACCOUNT_CONFIG_PATH ANTIGRAVITY_ENDPOINT_FALLBACKS dirname
            JSON_stringify accounts choice attempts d).
Proof.
  unfold interactiveAdd. rewrite loadAccounts_unfold. cbn [snd].
  intros [= ->]. cbn [ledger_of option_map]. now rewrite objects_of_ledger.
Qed.

End Store.

End LedgerFacts.

(** ** Worked runs *)

Module ScenarioFacts.
Import Text Encoding JS Crypto OAuth Accounts Spec Scenario Failures.
Import ListenerFacts DiscoveryFacts LedgerFacts.



Lemma addAccount_updates_in_place_witness :
  exists accounts' updated,
    addAccount HOSTS (signs_in "b@example.com" "1//new") two_accounts
    = ([ TokenExchange "4/0Ab" (auth_verifier (fst (getAuthorizationUrl generator)));
         GetUserInfo (Str "ya29.a");
         LoadCodeAssist "https://a.example" (Str "ya29.a") ],
       Ok (accounts', None))
    /\ length accounts' = 2
    /\ accounts' !! 1 = Some updated
    /\ prop "refreshToken" updated = Str "1//new"
    /\ prop "isRateLimited" updated = Bool true.
Proof.
  destruct (addAccount_updates_in_place STORE HOSTS dirname_of_store stringify_sample
              (signs_in "b@example.com" "1//new") two_accounts "4/0Ab"
              [ TokenExchange "4/0Ab" (auth_verifier (fst (getAuthorizationUrl generator)));
                GetUserInfo (Str "ya29.a");
                LoadCodeAssist "https://a.example" (Str "ya29.a") ]
              (Obj [ ("email", Str "b@example.com");
                     ("refreshToken", Str "1//new");
                     ("accessToken", Str "ya29.a");
                     ("projectId", Str "proj-123") ])
              1 (stored "b@example.com"))
    as (accounts' & updated & Hadd & Hlen & Hi & Hrt & _ & _ & Hother & _).
  - vm_compute. reflexivity.
  - vm_compute. reflexivity.
  - reflexivity.
  - reflexivity.
  - intros [|j] a Hj Ha; [|lia]. injection Ha as <-. reflexivity.
  - exists accounts', updated.
    split; [exact Hadd|]. split; [exact Hlen|]. split; [exact Hi|].
    split; [exact Hrt|].
    rewrite (Hother "isRateLimited") by discriminate. reflexivity.
Defined.

Lemma interactiveAdd_within_cap_witness :
  interactiveAdd_from STORE HOSTS dirname_of_store stringify_sample
    ten_accounts "a" [signs_in "k@example.com" "1//k"] empty_disk
  = {| disk := empty_disk; ledger := ten_accounts; sent := []; outcome := Finished |}
  /\ length (ledger (interactiveAdd_from STORE HOSTS dirname_of_store stringify_sample
                       two_accounts "a" [signs_in "k@example.com" "1//k"] empty_disk))
     <= MAX_ACCOUNTS.
Proof.
  split.
  - apply (interactiveAdd_within_cap STORE HOSTS dirname_of_store stringify_sample
             ten_accounts "a" [signs_in "k@example.com" "1//k"] empty_disk).
    + reflexivity.
    + vm_compute. discriminate.
  - apply (interactiveAdd_within_cap STORE HOSTS dirname_of_store stringify_sample
             two_accounts "a" [signs_in "k@example.com" "1//k"] empty_disk).
    vm_compute. lia.
Defined.

(** C3, as stated, fails: with 10 records in the ledger, a run in which an
    eleventh account stands ready to sign in ends normally, without any
    error, and without having started the flow. *)
Lemma eleventh_account_no_error :
  let run := interactiveAdd_from STORE HOSTS dirname_of_store stringify_sample
               ten_accounts "a" [signs_in "k@example.com" "1//k"] empty_disk in
  length ten_accounts = 10
  /\ find_email (Str "k@example.com") ten_accounts = None
  /\ outcome run = Finished
  /\ sent run = []
  /\ ~ (exists e, outcome run = Failed e).
Proof.
  cbv zeta. split; [reflexivity|]. split; [reflexivity|].
  split; [reflexivity|]. split; [reflexivity|].
  intros [e He]. discriminate He.
Qed.

Lemma loadAccounts_absent_witness :
  snd (loadAccounts STORE parse_sample empty_disk) = Ok (Arr []).
Proof.
  apply (loadAccounts_absent STORE parse_sample empty_disk). reflexivity.
Defined.

(** C7, as stated, fails: with a file at the old location and none at the
    current one, loading leaves the current location empty. *)
Lemma legacy_store_not_migrated :
  entries legacy_only !! LEGACY_STORE = Some (File "{}")
  /\ entries legacy_only !! STORE = None
  /\ entries (fst (loadAccounts STORE parse_sample legacy_only)) !! STORE = None
  /\ entries (fst (loadAccounts STORE parse_sample legacy_only)) !! STORE
     <> entries legacy_only !! LEGACY_STORE.
Proof.
  rewrite loadAccounts_unfold. cbn [fst].
  assert (H1 : entries legacy_only !! LEGACY_STORE = Some (File "{}"))
    by apply lookup_singleton_eq.
  assert (H2 : entries legacy_only !! STORE = None)
    by (apply lookup_singleton_ne; discriminate).
  rewrite H1, H2. repeat split; discriminate.
Qed.

Lemma loadAccounts_corrupt_witness :
  loadAccounts STORE parse_sample garbled = (garbled, Ok (Arr []))
  /\ entries (fst (saveAccounts STORE dirname_of_store stringify_sample
                     "2026-03-01T10:00:00.000Z" two_accounts [] garbled)) !! STORE
     = Some (File "{...}").
Proof.
  destruct (loadAccounts_corrupt STORE dirname_of_store parse_sample stringify_sample
              garbled (File "accounts: oops"))
    as (Hload & _ & Hsave).
  - apply lookup_singleton_eq.
  - apply (corrupt_not_json parse_sample _ "accounts: oops"); reflexivity.
  - split; [exact Hload|].
    apply (Hsave "2026-03-01T10:00:00.000Z" two_accounts); [reflexivity|].
    vm_compute. discriminate.
Defined.

(** Nothing trims a store that was written with more than 10 records:
    it loads as it is and the add loop leaves it alone. *)
Example oversized_store_stays_oversized :
  option_map (fun r => (length (ledger r), outcome r, sent r))
    (interactiveAdd STORE HOSTS dirname_of_store parse_oversized stringify_sample
       "a" [signs_in "k@example.com" "1//k"] oversized)
  = Some (11, Finished, []).
Proof.
  rewrite (interactiveAdd_loaded STORE HOSTS dirname_of_store parse_oversized
             stringify_sample eleven_accounts).
  - reflexivity.
  - rewrite loadAccounts_unfold. cbn [snd].
    replace (entries oversized !! STORE) with (Some (File "eleven"))
      by (symmetry; apply lookup_singleton_eq).
    reflexivity.
Qed.

(** The whole flow for a new account: three requests, one record pushed
    and saved. *)
Example first_account_is_saved :
  let run := interactiveAdd_from STORE HOSTS dirname_of_store stringify_sample
               [] "" [signs_in "a@example.com" "1//a"] empty_disk in
  outcome run = Finished
  /\ ledger run
     = [ [ ("email", Str "a@example.com");
           ("refreshToken", Str "1//a");
           ("projectId", Str "proj-123");
           ("addedAt", Str "2026-03-01T10:00:00.000Z");
           ("isRateLimited", Bool false);
           ("rateLimitResetTime", Null) ] ]
  /\ length (sent run) = 3
  /\ entries (disk run) !! STORE = Some (File "{...}").
Proof. vm_compute. repeat split. Qed.

End ScenarioFacts.

(** ** More on the callback listener *)

Module ListenerMore.
Import Text JS OAuth Spec Wire ListenerFacts.

Lemma off_path_not_closing e : off_path e = true -> closes e = false.
Proof.
  destruct e as [req| |]; cbn [off_path closes]; try discriminate.
  now intros ->%negb_true_iff.
Qed.

Lemma off_path_deliver st l e : off_path e = true -> deliver st l e = writeHead 404 l.
Proof.
  destruct e as [req| |]; cbn [off_path]; try discriminate.
  intros H. cbn [deliver]. unfold on_request. now rewrite H.
Qed.

(** Requests off the callback path leave the listener as it was, one 404
    each. *)
Lemma off_path_run st before : forall l,
  forallb off_path before = true ->
  deliver_all st l before
  = {| promise := promise l; handle_open := handle_open l; releases := releases l;
       close_calls := close_calls l; settle_calls := settle_calls l;
       replies := replies l ++ repeat 404%Z (length before) |}.
Proof.
  induction before as [|e before IH]; intros l H.
  - cbn [length repeat]. rewrite app_nil_r. now destruct l.
  - cbn [forallb] in H. apply andb_true_iff in H as [He Hrest].
    change (deliver_all st l (e :: before)) with (deliver_all st (deliver st l e) before).
    rewrite (IH _ Hrest), (off_path_deliver st l e He).
    cbn [writeHead promise handle_open releases close_calls settle_calls replies length repeat].
    now rewrite <- app_assoc.
Qed.

Lemma handle_deliver st l e :
  handle_open (deliver st l e) = handle_open l && negb (unbinds e).
Proof.
  unfold unbinds. destruct e as [req| |code msg]; cbn [deliver closes bind_error].
  - rewrite orb_false_r. unfold on_request.
    destruct (String.eqb (pathname req) "/oauth-callback"); cbn [negb].
    + rewrite andb_false_r.
      repeat match goal with
             | |- context [if ?b then _ else _] => destruct b
             end; reflexivity.
    + cbn. now rewrite andb_true_r.
  - unfold on_timeout. cbn. now rewrite andb_false_r.
  - unfold on_error. cbn [orb].
    destruct (String.eqb code "EADDRINUSE"), (bind_failed code);
      cbn [settle never_bound handle_open negb];
      now rewrite ?andb_false_r, ?andb_true_r.
Qed.

Lemma handle_run st events : forall l,
  handle_open (deliver_all st l events) = handle_open l && negb (existsb unbinds events).
Proof.
  induction events as [|e events IH]; intros l.
  - cbn. now rewrite andb_true_r.
  - change (deliver_all st l (e :: events)) with (deliver_all st (deliver st l e) events).
    rewrite IH, handle_deliver. cbn [existsb].
    rewrite negb_orb. now rewrite andb_assoc.
Qed.

Lemma releases_deliver st l e :
  releases (deliver st l e)
  = releases l + (if handle_open l && closes e then 1 else 0).
Proof.
  destruct e as [req| |code msg]; cbn [deliver closes].
  - unfold on_request.
    destruct (String.eqb (pathname req) "/oauth-callback"); cbn [negb].
    + rewrite andb_true_r.
      destruct (present _); [|destruct (differs _ _); [|destruct (negb _)]];
        cbn [settle server_close writeHead releases handle_open];
        destruct (handle_open l); lia.
    + rewrite andb_false_r. cbn. lia.
  - rewrite andb_true_r. unfold on_timeout.
    cbn [settle server_close releases handle_open]. destruct (handle_open l); lia.
  - rewrite andb_false_r. unfold on_error.
    destruct (String.eqb code "EADDRINUSE"), (bind_failed code);
      cbn [settle never_bound releases]; lia.
Qed.

Lemma released_cons e events :
  released (e :: events)
  = if unbinds e then (if closes e then 1 else 0) else released events.
Proof. unfold released. cbn [List.find]. now destruct (unbinds e). Qed.

Lemma releases_run st events : forall l,
  releases (deliver_all st l events)
  = releases l + (if handle_open l then released events else 0).
Proof.
  induction events as [|e events IH]; intros l.
  - cbn. destruct (handle_open l); lia.
  - change (deliver_all st l (e :: events)) with (deliver_all st (deliver st l e) events).
    rewrite IH, handle_deliver, releases_deliver, released_cons. unfold unbinds.
    destruct (handle_open l), (closes e), (bind_error e); cbn [andb orb negb]; lia.
Qed.


Lemma first_to_settle st before e after s :
  forallb off_path before = true ->
  (forall l, promise l = None -> promise (deliver st l e) = Some s) ->
  promise (startCallbackServer st (before ++ e :: after)) = Some s.
Proof.
  intros Hbefore He. unfold startCallbackServer. rewrite deliver_all_app.
  change (deliver_all st (deliver_all st listening before) (e :: after))
    with (deliver_all st (deliver st (deliver_all st listening before) e) after).
  apply settled_run, He. now rewrite off_path_run.
Qed.

Lemma closed_after st before e after :
  closes e = true ->
  handle_open (startCallbackServer st (before ++ e :: after)) = false.
Proof.
  intros He. unfold startCallbackServer. rewrite handle_run, existsb_app.
  cbn [existsb]. unfold unbinds at 2. rewrite He, orb_true_r. reflexivity.
Qed.

Lemma released_after st before e after :
  forallb off_path before = true -> closes e = true ->
  releases (startCallbackServer st (before ++ e :: after)) = 1.
Proof.
  intros Hbefore He. unfold startCallbackServer. rewrite releases_run.
  cbn [listening releases handle_open].
  induction before as [|x before IH]; cbn [app].
  - rewrite released_cons. unfold unbinds. now rewrite He.
  - cbn [forallb] in Hbefore. apply andb_true_iff in Hbefore as [Hx Hrest].
    rewrite released_cons. unfold unbinds.
    rewrite (off_path_not_closing x Hx).
    destruct x as [req| |]; try discriminate Hx. cbn [bind_error orb].
    now apply IH.
Qed.

(** The success path. When only requests on other paths came before it,
    a request on the callback path that has no (or an empty) [error], the
    expected [state] and a non-empty [code] resolves the flow with exactly
    that code, whatever comes later; it is answered 200 after one 404 per
    earlier request, and the port is released, once. *)
Theorem first_callback_resolves (st code : string) (before after : list Event)
    (req : HttpRequest) :
  forallb off_path before = true ->
  pathname req = "/oauth-callback" ->
  present (searchParams_get "error" (searchParams req)) = false ->
  searchParams_get "state" (searchParams req) = Some st ->
  searchParams_get "code" (searchParams req) = Some code ->
  code <> "" ->
  promise (startCallbackServer st (before ++ Request req :: after)) = Some (Resolved code)
  /\ handle_open (startCallbackServer st (before ++ Request req :: after)) = false
  /\ releases (startCallbackServer st (before ++ Request req :: after)) = 1
  /\ replies (startCallbackServer st (before ++ [Request req]))
     = (repeat 404%Z (length before) ++ [200%Z])%list.
Proof.
  intros Hbefore Hpath Herr Hstate Hcode Hne.
  assert (Hreq : forall l, on_request st req l
                           = settle (Resolved code) (server_close (writeHead 200 l))).
  { intros l. unfold on_request. rewrite Hpath, Herr, Hstate, Hcode.
    replace (String.eqb "/oauth-callback" "/oauth-callback") with true by reflexivity.
    cbn [negb differs present default].
    rewrite String.eqb_refl. cbn [negb].
    destruct (String.eqb code "") eqn:E; [apply String.eqb_eq in E; contradiction|].
    reflexivity. }
  assert (Hcloses : closes (Request req) = true) by (cbn [closes]; now rewrite Hpath).
  split; [|split; [|split]].
  - apply first_to_settle; [exact Hbefore|]. intros l Hl. cbn [deliver].
    rewrite Hreq. cbn. now rewrite Hl.
  - now apply closed_after.
  - now apply released_after.
  - unfold startCallbackServer.
    rewrite deliver_all_app, (off_path_run st before listening Hbefore).
    cbn [deliver_all fold_left deliver]. rewrite Hreq. reflexivity.
Qed.

(** The provider's error comes first. When only requests on other paths
    came before it, a request on the callback path with a non-empty [error]
    rejects the flow with that error, even when it also carries the
    expected [state] and a [code]; the port is released, once. *)
Theorem provider_error_takes_precedence (st e : string) (before after : list Event)
    (req : HttpRequest) :
  forallb off_path before = true ->
  pathname req = "/oauth-callback" ->
  searchParams_get "error" (searchParams req) = Some e ->
  e <> "" ->
  promise (startCallbackServer st (before ++ Request req :: after))
  = Some (Rejected ("OAuth error: " ++ e))
  /\ handle_open (startCallbackServer st (before ++ Request req :: after)) = false
  /\ releases (startCallbackServer st (before ++ Request req :: after)) = 1.
Proof.
  intros Hbefore Hpath Herr Hne.
  assert (Hcloses : closes (Request req) = true) by (cbn [closes]; now rewrite Hpath).
  split; [|split].
  - apply first_to_settle; [exact Hbefore|]. intros l Hl. cbn [deliver].
    unfold on_request. rewrite Hpath, Herr.
    replace (String.eqb "/oauth-callback" "/oauth-callback") with true by reflexivity.
    cbn [negb present default].
    destruct (String.eqb e "") eqn:E; [apply String.eqb_eq in E; contradiction|].
    cbn. now rewrite Hl.
  - now apply closed_after.
  - now apply released_after.
Qed.

(** When only requests on other paths came before it, a request on the
    callback path with no (or an empty) [error], the expected [state] and
    no [code] (or an empty one) rejects the flow with
    "No authorization code"; the port is released, once. *)
Theorem callback_without_code_rejects (st : string) (before after : list Event)
    (req : HttpRequest) :
  forallb off_path before = true ->
  pathname req = "/oauth-callback" ->
  present (searchParams_get "error" (searchParams req)) = false ->
  searchParams_get "state" (searchParams req) = Some st ->
  present (searchParams_get "code" (searchParams req)) = false ->
  promise (startCallbackServer st (before ++ Request req :: after))
  = Some (Rejected "No authorization code")
  /\ handle_open (startCallbackServer st (before ++ Request req :: after)) = false
  /\ releases (startCallbackServer st (before ++ Request req :: after)) = 1.
Proof.
  intros Hbefore Hpath Herr Hstate Hcode.
  assert (Hcloses : closes (Request req) = true) by (cbn [closes]; now rewrite Hpath).
  split; [|split].
  - apply first_to_settle; [exact Hbefore|]. intros l Hl. cbn [deliver].
    unfold on_request. rewrite Hpath, Herr, Hstate, Hcode.
    replace (String.eqb "/oauth-callback" "/oauth-callback") with true by reflexivity.
    cbn [negb differs]. rewrite String.eqb_refl. cbn. now rewrite Hl.
  - now apply closed_after.
  - now apply released_after.
Qed.

(** When the timer fires after nothing but requests on other paths, no
    request on the callback path and no server error having come before
    it, the flow is rejected with the timeout error and the port is
    released, once; whatever arrives afterwards changes none of this. *)
Theorem timeout_rejects (st : string) (before after : list Event) :
  forallb off_path before = true ->
  promise (startCallbackServer st (before ++ TimerFired :: after))
  = Some (Rejected TIMEOUT_MESSAGE)
  /\ handle_open (startCallbackServer st (before ++ TimerFired :: after)) = false
  /\ releases (startCallbackServer st (before ++ TimerFired :: after)) = 1.
Proof.
  intros Hbefore. split; [|split].
  - apply first_to_settle; [exact Hbefore|]. intros l Hl. cbn. now rewrite Hl.
  - now apply closed_after.
  - now apply released_after.
Qed.

Lemma replies_deliver st l e :
  length (replies (deliver st l e))
  = length (replies l) + (if e is Request _ then 1 else 0).
Proof.
  destruct e as [req| |code msg]; cbn [deliver].
  - unfold on_request.
    repeat match goal with
           | |- context [if ?b then _ else _] => destruct b
           end;
      cbn [settle server_close writeHead replies]; now rewrite length_app.
  - cbn. lia.
  - unfold on_error.
    destruct (String.eqb code "EADDRINUSE"), (bind_failed code); cbn; lia.
Qed.

Lemma replies_run st events : forall l,
  length (replies (deliver_all st l events))
  = length (replies l) + count is_request events.
Proof.
  induction events as [|e events IH]; intros l.
  - unfold count. cbn. lia.
  - change (deliver_all st l (e :: events)) with (deliver_all st (deliver st l e) events).
    rewrite IH, replies_deliver. unfold count. rewrite filter_cons.
    destruct e; cbn [is_request]; repeat case_decide; try congruence; cbn [length]; lia.
Qed.

Lemma serve_served st arrivals : forall l,
  fst (serve st l arrivals) = deliver_all st l (served arrivals).
Proof.
  induction arrivals as [|[[req|target]| |code msg] rest IH]; intros l;
    cbn [serve served handler]; try reflexivity; now rewrite IH.
Qed.

Lemma serve_uncaught st arrivals : forall l,
  match snd (serve st l arrivals) with
  | Some _ => existsb is_invalid arrivals = true
  | None => existsb is_invalid arrivals = false
  end.
Proof.
  induction arrivals as [|[[req|target]| |code msg] rest IH]; intros l;
    cbn [serve handler existsb is_invalid orb snd]; try reflexivity; apply IH.
Qed.

(** Every request whose target is a URL is answered exactly once, whatever
    its path and whatever the state of the flow; the timer and server
    errors write nothing. A request whose target is not a URL is not
    answered: the callback throws on its first line, and the listener is
    left as the events before that request made it, none of the later ones
    being served. The run ends with an exception exactly when such a
    request arrives. *)
Theorem one_reply_per_served_request (st : string) (arrivals : list Arrival) :
  fst (serve st listening arrivals) = startCallbackServer st (served arrivals)
  /\ length (replies (fst (serve st listening arrivals)))
     = count is_request (served arrivals)
  /\ match snd (serve st listening arrivals) with
     | Some _ => existsb is_invalid arrivals = true
     | None => existsb is_invalid arrivals = false
     end.
Proof.
  split; [|split].
  - apply serve_served.
  - rewrite serve_served. apply replies_run.
  - apply serve_uncaught.
Qed.

(** The port is taken: the flow is rejected with the message written for
    [EADDRINUSE]; the timer still fires and closes a server that holds
    nothing, and its rejection comes too late. *)
Example bind_failure_then_timer :
  let l := startCallbackServer "s3cr3t"
             [ServerError "EADDRINUSE" "listen EADDRINUSE"; TimerFired] in
  promise l
  = Some (Rejected
            "Port 51121 is already in use. Close any other OAuth flows and try again.")
  /\ handle_open l = false /\ releases l = 0 /\ close_calls l = 1
  /\ length (settle_calls l) = 2.
Proof. cbv zeta. repeat split. Qed.

End ListenerMore.

(** ** More on PKCE and the authorization URL *)

Module AuthorizationMore.
Import Text Encoding EncodingFacts Crypto OAuth Cli AuthorizationFacts.

Lemma base64url_length bs : String.length (base64url bs) = (4 * length bs + 2) / 3.
Proof.
  induction bs as [|b0|b0 b1|b0 b1 b2 rest IH] using list_ind3; try reflexivity.
  cbn [base64url]. destruct (sextets b0 b1 b2) as [[[s0 s1] s2] s3].
  cbn [String.length length]. rewrite IH.
  replace (4 * S (S (S (length rest))) + 2) with ((4 * length rest + 2) + 4 * 3) by lia.
  rewrite Nat.div_add by lia. lia.
Qed.

Lemma be_bytes_length width z : length (SHA256.be_bytes width z) = width.
Proof. unfold SHA256.be_bytes. now rewrite length_map, length_seq. Qed.

Lemma sha256_length msg : length (SHA256.sha256 msg) = 32.
Proof.
  unfold SHA256.sha256, SHA256.digest_bytes.
  destruct (fold_left _ _ _) as [[[[[[[a b] c] d] e] f] g] h].
  cbn [map concat]. rewrite !length_app, !be_bytes_length. reflexivity.
Qed.

Lemma string_length_app (a b : string) :
  String.length (a ++ b) = String.length a + String.length b.
Proof.
  induction a as [|c a IH]; [reflexivity|].
  rewrite append_cons. cbn [String.length]. now rewrite IH.
Qed.

Lemma hex_length bs : String.length (hex bs) = 2 * length bs.
Proof.
  unfold hex. induction bs as [|b bs IH]; [reflexivity|].
  cbn [map concat_strings length]. rewrite string_length_app, IH.
  unfold hex_of_byte. cbn [String.length]. lia.
Qed.

Lemma hex_of_byte_lower b : forall_chars is_lower_hex (hex_of_byte b) = true.
Proof. destruct b; reflexivity. Qed.

Lemma hex_lower bs : forall_chars is_lower_hex (hex bs) = true.
Proof.
  unfold hex. induction bs as [|b bs IH]; [reflexivity|].
  cbn [map concat_strings]. now rewrite forall_chars_app, hex_of_byte_lower, IH.
Qed.

Lemma generatePKCE_snd g : snd (generatePKCE g) = snd (randomBytes 32 g).
Proof. unfold generatePKCE. destruct (randomBytes 32 g). reflexivity. Qed.

Lemma getAuthorizationUrl_eq g :
  getAuthorizationUrl g
  = let pkce := fst (generatePKCE g) in
    let g1 := snd (randomBytes 32 g) in
    let state := hex (fst (randomBytes 16 g1)) in
    ({| url := GOOGLE_AUTH_URL
               ++ String "?" (URLSearchParams_toString
                                (authorization_params (challenge pkce) state));
        auth_verifier := verifier pkce;
        auth_state := state |},
     snd (randomBytes 16 g1)).
Proof.
  cbv zeta. unfold getAuthorizationUrl. rewrite <- generatePKCE_snd.
  destruct (generatePKCE g) as [pkce g1]. cbn [fst snd].
  destruct (randomBytes 16 g1) as [bytes g2]. reflexivity.
Qed.

(** What one call draws and returns: the verifier is 43 URL-safe characters
    encoding the next 32 bytes of the random source, the challenge is 43
    characters, the state is 32 lower-case hex digits encoding the 16 bytes
    after those, and the source has moved on by 48 bytes, so the next call
    shares none with this one. *)
Theorem getAuthorizationUrl_draws (g : Csprng) :
  let auth := fst (getAuthorizationUrl g) in
  let g' := snd (getAuthorizationUrl g) in
  String.length (auth_verifier auth) = 43
  /\ base64url_decode (auth_verifier auth) = map (fun i => supply g (drawn g + i)) (seq 0 32)
  /\ String.length (challenge (fst (generatePKCE g))) = 43
  /\ String.length (auth_state auth) = 32
  /\ forall_chars is_lower_hex (auth_state auth) = true
  /\ auth_state auth = hex (map (fun i => supply g (drawn g + 32 + i)) (seq 0 16))
  /\ supply g' = supply g
  /\ drawn g' = drawn g + 48.
Proof.
  cbv zeta. rewrite getAuthorizationUrl_eq. cbv zeta. cbn [fst snd auth_verifier auth_state].
  rewrite generatePKCE_fst. cbn [verifier challenge].
  split; [now rewrite base64url_length, randomBytes_length|].
  split; [now rewrite base64url_roundtrip|].
  split; [now rewrite base64url_length, sha256_length|].
  split; [now rewrite hex_length, randomBytes_length|].
  split; [apply hex_lower|].
  split; [reflexivity|].
  split; [reflexivity|].
  cbn [randomBytes snd drawn]. lia.
Qed.

Lemma base64url_form_safe bs : forall_chars form_safe (base64url bs) = true.
Proof.
  induction bs as [|b0|b0 b1|b0 b1 b2 rest IH] using list_ind3.
  - reflexivity.
  - cbn [base64url]. pose proof (sextets_bound b0 x00 x00) as Hb.
    destruct (sextets b0 x00 x00) as [[[s0 s1] s2] s3]. destruct Hb as (H0 & H1 & _).
    cbn [forall_chars]. now rewrite !nth_base64url_safe.
  - cbn [base64url]. pose proof (sextets_bound b0 b1 x00) as Hb.
    destruct (sextets b0 b1 x00) as [[[s0 s1] s2] s3]. destruct Hb as (H0 & H1 & H2 & _).
    cbn [forall_chars]. now rewrite !nth_base64url_safe.
  - cbn [base64url]. pose proof (sextets_bound b0 b1 b2) as Hb.
    destruct (sextets b0 b1 b2) as [[[s0 s1] s2] s3]. destruct Hb as (H0 & H1 & H2 & H3).
    cbn [forall_chars]. now rewrite !nth_base64url_safe, IH.
Qed.

(** The query of the authorization URL is these nine items in this order;
    its [code_challenge] is the S256 challenge of the verifier returned with
    the URL, and the redirect URI is the listener's own address. *)
Theorem getAuthorizationUrl_query (g : Csprng) :
  let auth := fst (getAuthorizationUrl g) in
  query_items (url auth)
  = [ "client_id=" ++ GOOGLE_CLIENT_ID;
      "redirect_uri=http%3A%2F%2Flocalhost%3A51121%2Foauth-callback";
      "response_type=code";
      "scope=" ++ form_urlencode SCOPES;
      "access_type=offline";
      "prompt=consent";
      "code_challenge="
        ++ base64url (SHA256.sha256 (bytes_of_string (auth_verifier auth)));
      "code_challenge_method=S256";
      "state=" ++ auth_state auth ].
Proof.
  cbv zeta. rewrite getAuthorizationUrl_eq. cbv zeta. cbn [fst url auth_verifier auth_state].
  rewrite query_items_of_params by discriminate.
  rewrite generatePKCE_fst. cbn [verifier challenge].
  pose proof (base64url_form_safe
                (SHA256.sha256 (bytes_of_string (base64url (fst (randomBytes 32 g))))))
    as Hch.
  pose proof (hex_safe (fst (randomBytes 16 (snd (randomBytes 32 g))))) as Hst.
  revert Hch Hst.
  generalize (base64url
                (SHA256.sha256 (bytes_of_string (base64url (fst (randomBytes 32 g)))))).
  generalize (hex (fst (randomBytes 16 (snd (randomBytes 32 g))))).
  intros st ch Hch Hst.
  unfold authorization_params. cbn [map]. unfold query_item. cbn [fst snd].
  rewrite (form_urlencode_safe ch Hch), (form_urlencode_safe st Hst).
  reflexivity.
Qed.

End AuthorizationMore.

(** ** The browser command *)

Module BrowserFacts.
Import Text Encoding EncodingFacts Crypto OAuth Cli AuthorizationFacts AuthorizationMore.

Lemma form_encode_char_plain c : forall_chars plain (form_encode_char c) = true.
Proof. destruct c as [[] [] [] [] [] [] [] []]; reflexivity. Qed.

Lemma form_urlencode_plain s : forall_chars plain (form_urlencode s) = true.
Proof.
  induction s as [|c s IH]; [reflexivity|].
  cbn [form_urlencode]. now rewrite forall_chars_app, form_encode_char_plain, IH.
Qed.

Lemma query_item_plain kv : forall_chars plain (query_item kv) = true.
Proof.
  unfold query_item. rewrite forall_chars_app. cbn [forall_chars].
  now rewrite !form_urlencode_plain.
Qed.

Lemma join_plain (items : list string) :
  Forall (fun it => forall_chars plain it = true) items ->
  forall_chars plain (join "&" items) = true.
Proof.
  induction items as [|it items IH]; [reflexivity|].
  intros H. inversion H as [|? ? Hit Hrest]; subst.
  destruct items as [|it' items]; [exact Hit|].
  change (join "&" (it :: it' :: items)) with (it ++ String "&" (join "&" (it' :: items))).
  rewrite forall_chars_app, Hit. cbn [forall_chars andb]. now rewrite (IH Hrest).
Qed.

Lemma plain_excludes s c :
  forall_chars plain s = true -> plain c = false -> contains_char c s = false.
Proof.
  intros Hs Hc. induction s as [|d s IH]; [reflexivity|].
  cbn [forall_chars] in Hs. apply andb_true_iff in Hs as [Hd Hs].
  cbn [contains_char]. destruct (Ascii.eqb c d) eqn:E; [|now apply IH].
  apply Ascii.eqb_eq in E. subst d. congruence.
Qed.

(** The URL that [openBrowser] puts between double quotes is made of
    letters, digits and [*-._+=&?:/%] only: it holds no double quote, space,
    backslash, dollar or backquote, so on every platform the command is the
    opener followed by the URL as one quoted word. *)
Theorem openBrowser_quotes_plain_url (g : Csprng) (platform : string) :
  let u := url (fst (getAuthorizationUrl g)) in
  forall_chars plain u = true
  /\ Forall (fun c => contains_char c u = false)
       [double_quote; " "%char; "\"%char; "$"%char; "`"%char; "'"%char; ";"%char; "|"%char]
  /\ exists opener, openBrowser platform u = opener ++ quoted u.
Proof.
  cbv zeta. rewrite getAuthorizationUrl_eq. cbv zeta. cbn [fst url].
  generalize (authorization_params (challenge (fst (generatePKCE g)))
                (hex (fst (randomBytes 16 (snd (randomBytes 32 g)))))).
  intros params.
  assert (Hplain : forall_chars plain
                     (GOOGLE_AUTH_URL ++ String "?" (URLSearchParams_toString params)) = true).
  { rewrite forall_chars_app. cbn [forall_chars].
    replace (forall_chars plain GOOGLE_AUTH_URL) with true by reflexivity.
    replace (plain "?") with true by reflexivity. cbn [andb].
    unfold URLSearchParams_toString. apply join_plain.
    apply List.Forall_forall. intros it [kv [<- _]]%in_map_iff. apply query_item_plain. }
  revert Hplain.
  generalize (GOOGLE_AUTH_URL ++ String "?" (URLSearchParams_toString params)).
  intros u Hplain.
  split; [exact Hplain|]. split.
  - repeat (apply List.Forall_cons; [apply (plain_excludes _ _ Hplain); reflexivity|]).
    apply List.Forall_nil.
  - unfold openBrowser.
    destruct (String.eqb platform "darwin"); [exists "open "; reflexivity|].
    destruct (String.eqb platform "win32"); [|exists "xdg-open "; reflexivity].
    exists ("start " ++ quoted "" ++ " "). generalize (quoted u). intros q. reflexivity.
Qed.

End BrowserFacts.

(** ** More on the token client and the identity resolver *)

Module TokenMore.
Import Text JS OAuth Spec Scenario TokenFacts DiscoveryFacts.

Lemma exchangeCode_unfold net code verifier :
  exchangeCode net code verifier
  = ([TokenExchange code verifier],
     match net (TokenExchange code verifier) with
     | NetworkError m => Throw m
     | Responded r =>
         if negb (ok r) then Throw ("Token exchange failed: " ++ text r)
         else match json r with
              | Some (Obj props) =>
                  if negb (truthy (prop "access_token" props))
                  then Throw "No access token received"
                  else Ok (Obj [ ("accessToken", prop "access_token" props);
                                 ("refreshToken", prop "refresh_token" props);
                                 ("expiresIn", prop "expires_in" props) ])
              | Some Undefined | Some Null => Throw "TypeError: Cannot read properties"
              | Some _ => Throw "No access token received"
              | None => Throw "SyntaxError: Unexpected token in JSON"
              end
     end).
Proof.
  unfold exchangeCode, fetch.
  destruct (net (TokenExchange code verifier)) as [m|r]; [reflexivity|].
  cbn [bind]. destruct (negb (ok r)); [reflexivity|].
  destruct (json r) as [tokens|]; [|reflexivity].
  destruct tokens as [| | | | |items|props]; try reflexivity.
  cbn [parsed lift bind get]. destruct (negb (truthy (prop "access_token" props))); reflexivity.
Qed.

(** [exchangeCode] sends one request and ends in one of six ways: a
    network error propagates; a non-success status throws
    "Token exchange failed: " with the body; a success whose body is not
    JSON throws the parser's error; a success whose body is [null] throws
    the [TypeError] of the property read; any other success whose body has
    no truthy [access_token] throws "No access token received"; otherwise
    the three token fields are returned, the refresh token as the provider
    sent it, possibly [undefined]. *)
Theorem exchangeCode_outcomes (net : Network) (code verifier : string) :
  fst (exchangeCode net code verifier) = [TokenExchange code verifier]
  /\ (forall m, net (TokenExchange code verifier) = NetworkError m ->
        snd (exchangeCode net code verifier) = Throw m)
  /\ (forall r, net (TokenExchange code verifier) = Responded r -> ok r = false ->
        snd (exchangeCode net code verifier) = Throw ("Token exchange failed: " ++ text r))
  /\ (forall r, net (TokenExchange code verifier) = Responded r -> ok r = true ->
        json r = None ->
        exists e, snd (exchangeCode net code verifier) = Throw e
                  /\ e <> "No access token received")
  /\ (forall r data, net (TokenExchange code verifier) = Responded r -> ok r = true ->
        json r = Some data -> data = Null \/ data = Undefined ->
        exists e, snd (exchangeCode net code verifier) = Throw e
                  /\ e <> "No access token received")
  /\ (forall r data, net (TokenExchange code verifier) = Responded r -> ok r = true ->
        json r = Some data -> data <> Null -> data <> Undefined ->
        truthy (get_opt data "access_token") = false ->
        snd (exchangeCode net code verifier) = Throw "No access token received")
  /\ (forall r data, net (TokenExchange code verifier) = Responded r -> ok r = true ->
        json r = Some data -> truthy (get_opt data "access_token") = true ->
        snd (exchangeCode net code verifier)
        = Ok (Obj [ ("accessToken", get_opt data "access_token");
                    ("refreshToken", get_opt data "refresh_token");
                    ("expiresIn", get_opt data "expires_in") ])).
Proof.
  rewrite exchangeCode_unfold. cbn [fst snd].
  split; [reflexivity|].
  split; [now intros m ->|].
  split; [now intros r -> ->|].
  split.
  { intros r -> -> ->. cbn [negb]. eexists. split; [reflexivity|discriminate]. }
  split.
  { intros r data -> -> -> [-> | ->]; cbn [negb];
      eexists; (split; [reflexivity|discriminate]). }
  split.
  { intros r data -> -> -> Hnull Hundef Hfalsy. cbn [negb].
    destruct data as [| | | | |items|props]; try reflexivity; try contradiction.
    cbn [get_opt] in Hfalsy. now rewrite Hfalsy. }
  intros r data -> -> -> Htruthy. cbn [negb].
  destruct data as [| | | | |items|props]; try discriminate Htruthy.
  cbn [get_opt] in *. now rewrite Htruthy.
Qed.

(** The ways a refresh fails besides a non-success status: a network error
    propagates, a body that is not JSON or is [null] makes it throw; in
    every case exactly one request was sent, carrying the refresh token
    given. *)
Theorem refreshAccessToken_failures (net : Network) (refreshToken : value) :
  fst (refreshAccessToken net refreshToken) = [TokenRefresh refreshToken]
  /\ (forall m, net (TokenRefresh refreshToken) = NetworkError m ->
        snd (refreshAccessToken net refreshToken) = Throw m)
  /\ (forall r, net (TokenRefresh refreshToken) = Responded r -> ok r = true ->
        json r = None \/ json r = Some Null ->
        exists e, snd (refreshAccessToken net refreshToken) = Throw e).
Proof.
  rewrite refreshAccessToken_unfold. cbn [fst snd].
  split; [reflexivity|].
  split; [now intros m ->|].
  intros r -> -> [-> | ->]; cbn; eauto.
Qed.

Lemma getUserEmail_unfold net accessToken :
  getUserEmail net accessToken
  = ([GetUserInfo accessToken],
     match net (GetUserInfo accessToken) with
     | NetworkError m => Throw m
     | Responded r =>
         if negb (ok r) then Throw ("Failed to get user info: " ++ status r)
         else match json r with
              | Some userInfo => get userInfo "email"
              | None => Throw "SyntaxError: Unexpected token in JSON"
              end
     end).
Proof.
  unfold getUserEmail, fetch.
  destruct (net (GetUserInfo accessToken)) as [m|r]; [reflexivity|].
  cbn [bind]. destruct (negb (ok r)); [reflexivity|].
  destruct (json r) as [userInfo|]; [|reflexivity].
  cbn [parsed lift bind]. destruct (get userInfo "email"); reflexivity.
Qed.

(** [getUserEmail] sends one request with the access token and ends in one
    of five ways: a network error propagates; a non-success status throws
    "Failed to get user info: " with the status, not the body; a success
    whose body is not JSON throws the parser's error; a success whose body
    is [null] throws the [TypeError] of the property read; any other
    success returns the [email] field of the body, [undefined] when the
    body has none or is not an object. *)
Theorem getUserEmail_outcomes (net : Network) (accessToken : value) :
  fst (getUserEmail net accessToken) = [GetUserInfo accessToken]
  /\ (forall m, net (GetUserInfo accessToken) = NetworkError m ->
        snd (getUserEmail net accessToken) = Throw m)
  /\ (forall r, net (GetUserInfo accessToken) = Responded r -> ok r = false ->
        snd (getUserEmail net accessToken)
        = Throw ("Failed to get user info: " ++ status r))
  /\ (forall r, net (GetUserInfo accessToken) = Responded r -> ok r = true ->
        json r = None ->
        exists e, snd (getUserEmail net accessToken) = Throw e)
  /\ (forall r data, net (GetUserInfo accessToken) = Responded r -> ok r = true ->
        json r = Some data -> data = Null \/ data = Undefined ->
        exists e, snd (getUserEmail net accessToken) = Throw e)
  /\ (forall r data, net (GetUserInfo accessToken) = Responded r -> ok r = true ->
        json r = Some data -> data <> Null -> data <> Undefined ->
        snd (getUserEmail net accessToken) = Ok (get_opt data "email")).
Proof.
  rewrite getUserEmail_unfold. cbn [fst snd].
  split; [reflexivity|].
  split; [now intros m ->|].
  split; [now intros r -> ->|].
  split; [intros r -> -> ->; cbn [negb]; eauto|].
  split; [intros r data -> -> -> [-> | ->]; cbn [negb get]; eauto|].
  intros r data -> -> -> Hnull Hundef. cbn [negb].
  destruct data; try reflexivity; contradiction.
Qed.

Lemma exchangeCode_fst net code verifier :
  fst (exchangeCode net code verifier) = [TokenExchange code verifier].
Proof. now rewrite exchangeCode_unfold. Qed.

Lemma getUserEmail_fst net accessToken :
  fst (getUserEmail net accessToken) = [GetUserInfo accessToken].
Proof. now rewrite getUserEmail_unfold. Qed.

Lemma exchangeCode_object net code verifier v :
  snd (exchangeCode net code verifier) = Ok v -> exists tokens, v = Obj tokens.
Proof.
  rewrite exchangeCode_unfold. cbn [snd].
  destruct (net _) as [m|r]; [discriminate|].
  destruct (negb (ok r)); [discriminate|].
  destruct (json r) as [[| | | | |items|props]|]; try discriminate.
  destruct (negb _); [discriminate|]. intros [= <-]. eauto.
Qed.

Lemma failed_candidate o : failed o -> candidate o = None.
Proof. destruct o as [m|r]; cbn; [reflexivity|]. now intros ->. Qed.

Lemma discoverProjectId_step endpoint rest net accessToken :
  discoverProjectId (endpoint :: rest) net accessToken
  = match candidate (net (LoadCodeAssist endpoint accessToken)) with
    | Some v => ([LoadCodeAssist endpoint accessToken], Ok v)
    | None =>
        (LoadCodeAssist endpoint accessToken :: fst (discoverProjectId rest net accessToken),
         snd (discoverProjectId rest net accessToken))
    end.
Proof.
  cbn [discoverProjectId]. rewrite discover_at_candidate, bind_ok.
  destruct (candidate _); reflexivity.
Qed.

Lemma discover_all_none endpoints net accessToken :
  (forall e, In e endpoints -> candidate (net (LoadCodeAssist e accessToken)) = None) ->
  discoverProjectId endpoints net accessToken
  = (map (fun e => LoadCodeAssist e accessToken) endpoints, Ok Null).
Proof.
  induction endpoints as [|e rest IH]; intros H; [reflexivity|].
  rewrite discoverProjectId_step, (H e (or_introl eq_refl)).
  rewrite IH by (intros x Hx; apply H; now right). reflexivity.
Qed.

(** Discovery asks the candidates in list order and stops at the first one
    that names a project: the hosts after it are never contacted; when none
    names one, every host has been asked exactly once. *)
Theorem discoverProjectId_requests (net : Network) (accessToken : value) :
  (forall before e after v,
      (forall x, In x before -> candidate (net (LoadCodeAssist x accessToken)) = None) ->
      candidate (net (LoadCodeAssist e accessToken)) = Some v ->
      discoverProjectId (before ++ e :: after) net accessToken
      = (map (fun x => LoadCodeAssist x accessToken) (before ++ [e]), Ok v))
  /\ (forall endpoints,
        (forall x, In x endpoints ->
                   candidate (net (LoadCodeAssist x accessToken)) = None) ->
        discoverProjectId endpoints net accessToken
        = (map (fun x => LoadCodeAssist x accessToken) endpoints, Ok Null)).
Proof.
  split; [|intros endpoints H; now apply discover_all_none].
  intros before e after v. induction before as [|b before IH]; intros Hnone He.
  - cbn [app map]. now rewrite discoverProjectId_step, He.
  - cbn [app map]. rewrite discoverProjectId_step, (Hnone b (or_introl eq_refl)).
    rewrite IH; [reflexivity| |exact He]. intros x Hx. apply Hnone. now right.
Qed.

Lemma complete_exchange_failed endpoints net code verifier e :
  snd (exchangeCode net code verifier) = Throw e ->
  completeOAuthFlow endpoints net code verifier = ([TokenExchange code verifier], Throw e).
Proof.
  intros H. unfold completeOAuthFlow.
  rewrite (surjective_pairing (exchangeCode net code verifier)), exchangeCode_fst, H.
  reflexivity.
Qed.

Lemma complete_email_failed endpoints net code verifier tokens e :
  snd (exchangeCode net code verifier) = Ok (Obj tokens) ->
  snd (getUserEmail net (prop "accessToken" tokens)) = Throw e ->
  completeOAuthFlow endpoints net code verifier
  = ([TokenExchange code verifier; GetUserInfo (prop "accessToken" tokens)], Throw e).
Proof.
  intros H1 H2. unfold completeOAuthFlow.
  rewrite (surjective_pairing (exchangeCode net code verifier)), exchangeCode_fst, H1.
  cbn [bind lift get app].
  rewrite (surjective_pairing (getUserEmail net (prop "accessToken" tokens))),
    getUserEmail_fst, H2.
  reflexivity.
Qed.

Lemma complete_succeeds endpoints net code verifier tokens email :
  snd (exchangeCode net code verifier) = Ok (Obj tokens) ->
  snd (getUserEmail net (prop "accessToken" tokens)) = Ok email ->
  exists projectId,
    snd (discoverProjectId endpoints net (prop "accessToken" tokens)) = Ok projectId
    /\ completeOAuthFlow endpoints net code verifier
       = (TokenExchange code verifier :: GetUserInfo (prop "accessToken" tokens)
            :: fst (discoverProjectId endpoints net (prop "accessToken" tokens)),
          Ok (Obj [ ("email", email);
                    ("refreshToken", prop "refreshToken" tokens);
                    ("accessToken", prop "accessToken" tokens);
                    ("projectId", projectId) ])).
Proof.
  intros H1 H2.
  destruct (discoverProjectId_returns endpoints net (prop "accessToken" tokens))
    as [projectId Hp].
  exists projectId. split; [exact Hp|].
  unfold completeOAuthFlow.
  rewrite (surjective_pairing (exchangeCode net code verifier)), exchangeCode_fst, H1.
  cbn [bind lift get app].
  rewrite (surjective_pairing (getUserEmail net (prop "accessToken" tokens))),
    getUserEmail_fst, H2.
  cbn [bind app].
  rewrite (surjective_pairing (discoverProjectId endpoints net (prop "accessToken" tokens))),
    Hp.
  cbn [bind lift get ret app fst snd]. rewrite ?app_nil_r. reflexivity.
Qed.

(** [completeOAuthFlow] runs its three steps in order with the access token
    of the first: a failed exchange ends the flow after one request; a failed
    email lookup ends it after two, before any discovery; and once both have
    succeeded the flow succeeds whatever discovery finds, with the four
    properties [email], [refreshToken], [accessToken] and [projectId]. *)
Theorem completeOAuthFlow_steps (endpoints : list string) (net : Network)
    (code verifier : string) :
  (forall e, snd (exchangeCode net code verifier) = Throw e ->
     completeOAuthFlow endpoints net code verifier
     = ([TokenExchange code verifier], Throw e))
  /\ (forall tokens e,
        snd (exchangeCode net code verifier) = Ok (Obj tokens) ->
        snd (getUserEmail net (prop "accessToken" tokens)) = Throw e ->
        completeOAuthFlow endpoints net code verifier
        = ([TokenExchange code verifier; GetUserInfo (prop "accessToken" tokens)], Throw e))
  /\ (forall tokens email,
        snd (exchangeCode net code verifier) = Ok (Obj tokens) ->
        snd (getUserEmail net (prop "accessToken" tokens)) = Ok email ->
        exists projectId,
          snd (discoverProjectId endpoints net (prop "accessToken" tokens)) = Ok projectId
          /\ completeOAuthFlow endpoints net code verifier
             = (TokenExchange code verifier :: GetUserInfo (prop "accessToken" tokens)
                  :: fst (discoverProjectId endpoints net (prop "accessToken" tokens)),
                Ok (Obj [ ("email", email);
                          ("refreshToken", prop "refreshToken" tokens);
                          ("accessToken", prop "accessToken" tokens);
                          ("projectId", projectId) ]))).
Proof.
  split; [|split].
  - intros e. apply complete_exchange_failed.
  - intros tokens e. apply complete_email_failed.
  - intros tokens email. apply complete_succeeds.
Qed.

(** A project that cannot be discovered does not cost the account: when the
    exchange and the email lookup succeed and every discovery candidate
    fails, the flow still succeeds, with [projectId] [null]. *)
Theorem completeOAuthFlow_without_project (endpoints : list string) (net : Network)
    (code verifier : string) (tokens : list (string * value)) (email : value) :
  snd (exchangeCode net code verifier) = Ok (Obj tokens) ->
  snd (getUserEmail net (prop "accessToken" tokens)) = Ok email ->
  (forall e, In e endpoints ->
             failed (net (LoadCodeAssist e (prop "accessToken" tokens)))) ->
  snd (completeOAuthFlow endpoints net code verifier)
  = Ok (Obj [ ("email", email);
              ("refreshToken", prop "refreshToken" tokens);
              ("accessToken", prop "accessToken" tokens);
              ("projectId", Null) ]).
Proof.
  intros H1 H2 Hfailed.
  assert (Hd : discoverProjectId endpoints net (prop "accessToken" tokens)
               = (map (fun e => LoadCodeAssist e (prop "accessToken" tokens)) endpoints,
                  Ok Null)).
  { apply discover_all_none. intros e He. apply failed_candidate, Hfailed, He. }
  unfold completeOAuthFlow.
  rewrite (surjective_pairing (exchangeCode net code verifier)), exchangeCode_fst, H1.
  cbn [bind lift get app].
  rewrite (surjective_pairing (getUserEmail net (prop "accessToken" tokens))),
    getUserEmail_fst, H2.
  cbn [bind app]. rewrite Hd. cbn [bind lift get ret app fst snd]. reflexivity.
Qed.

End TokenMore.

(** ** More on the ledger *)

Module LedgerMore.
Import Text JS Crypto OAuth Accounts Spec Invariants Json ListenerFacts TokenFacts
       DiscoveryFacts TokenMore LedgerFacts.

Section Store.

Variable ACCOUNT_CONFIG_PATH : string.
Variable ANTIGRAVITY_ENDPOINT_FALLBACKS : list string.
Variable dirname : string -> string.
Variable JSON_parse : string -> option value.
Variable JSON_stringify : value -> string.

Local Abbreviation load := (loadAccounts ACCOUNT_CONFIG_PATH JSON_parse).
Local Abbreviation save := (saveAccounts ACCOUNT_CONFIG_PATH dirname JSON_stringify).
Local Abbreviation add := (addAccount ANTIGRAVITY_ENDPOINT_FALLBACKS).
Local Abbreviation loop :=
  (add_loop ACCOUNT_CONFIG_PATH ANTIGRAVITY_ENDPOINT_FALLBACKS dirname JSON_stringify).
Local Abbreviation complete := (completeOAuthFlow ANTIGRAVITY_ENDPOINT_FALLBACKS).
Local Abbreviation issued_by att :=
  (auth_state (fst (getAuthorizationUrl (entropy att)))).

(** *** Saving *)

Lemma saveAccounts_unfold now (accounts : Ledger) settings (d : Disk) :
  save now accounts settings d
  = match write_error d with
    | Some e => (d, Throw e)
    | None =>
        let d1 :=
          if bool_decide (is_Some (entries d !! dirname ACCOUNT_CONFIG_PATH)) then d
          else {| entries := <[dirname ACCOUNT_CONFIG_PATH := Directory]> (entries d);
                  write_error := None |} in
        match entries d1 !! ACCOUNT_CONFIG_PATH with
        | Some Directory => (d1, Throw "EISDIR: illegal operation on a directory, open")
        | _ => ({| entries := <[ACCOUNT_CONFIG_PATH :=
                                  File (JSON_stringify (saved_config now accounts settings))]>
                                (entries d1);
                   write_error := None |}, Ok tt)
        end
    end.
Proof.
  unfold saveAccounts, fs_try, fs_bind, existsSync, mkdirSync, writeFileSync, fs_ret, fs_lift.
  destruct (write_error d) as [e|] eqn:Hw.
  - destruct (bool_decide _); rewrite Hw; reflexivity.
  - cbv zeta. destruct (bool_decide _).
    + rewrite Hw. destruct (entries d !! ACCOUNT_CONFIG_PATH) as [[| |]|]; reflexivity.
    + rewrite Hw. cbn [write_error entries].
      destruct (_ !! ACCOUNT_CONFIG_PATH) as [[| |]|]; reflexivity.
Qed.

(** On a disk that refuses every write, a save throws that error and
    leaves the disk as it was. When the directory of the store is there, a
    save, whether it succeeds or throws, changes no path but the store
    file. *)
Theorem saveAccounts_touches_only_store now (accounts : Ledger) settings (d : Disk) :
  (forall e, write_error d = Some e -> save now accounts settings d = (d, Throw e))
  /\ (entries d !! dirname ACCOUNT_CONFIG_PATH = Some Directory ->
      forall path, path <> ACCOUNT_CONFIG_PATH ->
        entries (fst (save now accounts settings d)) !! path = entries d !! path).
Proof.
  rewrite saveAccounts_unfold. split.
  - now intros e ->.
  - intros Hdir path Hp. destruct (write_error d); [reflexivity|]. cbv zeta.
    rewrite bool_decide_eq_true_2 by (rewrite Hdir; eauto).
    destruct (entries d !! ACCOUNT_CONFIG_PATH) as [[| |]|]; cbn [fst entries];
      rewrite ?lookup_insert_ne by congruence; reflexivity.
Qed.

Lemma saveAccounts_ok_written now (accounts : Ledger) settings (d d1 : Disk) u :
  save now accounts settings d = (d1, Ok u) ->
  entries d1 !! ACCOUNT_CONFIG_PATH
  = Some (File (JSON_stringify (saved_config now accounts settings))).
Proof.
  rewrite saveAccounts_unfold. destruct (write_error d); [discriminate|]. cbv zeta.
  destruct (_ !! ACCOUNT_CONFIG_PATH) as [[| |]|]; try discriminate;
    intros [= <- _]; cbn [entries]; apply lookup_insert_eq.
Qed.

Lemma or_else_again v dflt :
  truthy dflt = false -> or_else (or_else v dflt) dflt = or_else v dflt.
Proof. intros Hd. unfold or_else. destruct (truthy v) eqn:E; now rewrite ?E, ?Hd. Qed.

Lemma or_else_kept v dflt other :
  truthy dflt = true -> or_else (or_else v dflt) other = or_else v dflt.
Proof. intros Hd. unfold or_else. destruct (truthy v) eqn:E; now rewrite ?E, ?Hd. Qed.

Lemma assoc_absent k (props : list (string * value)) :
  ~ In k (map fst props) -> assoc k props = None.
Proof.
  induction props as [|[k' v] props IH]; intros Hin; [reflexivity|].
  cbn [assoc]. destruct (String.eqb k k') eqn:E.
  - apply String.eqb_eq in E. subst k'. exfalso. apply Hin. now left.
  - apply IH. intros H. apply Hin. now right.
Qed.

Lemma in_keys_defined_only k (props : list (string * value)) :
  In k (map fst (defined_only props)) -> In k (map fst props).
Proof.
  unfold defined_only. rewrite !in_map_iff.
  intros (kv & Hk & Hin). apply filter_In in Hin as [Hin _]. eauto.
Qed.

(** Leaving out the properties whose value is [undefined] changes no
    property read. *)
Lemma prop_defined_only k (props : list (string * value)) :
  List.NoDup (map fst props) -> prop k (defined_only props) = prop k props.
Proof.
  unfold prop. induction props as [|[k' v] props IH]; intros Hnd; [reflexivity|].
  cbn [map fst] in Hnd. apply List.NoDup_cons_iff in Hnd as [Hfresh Hnd].
  specialize (IH Hnd).
  unfold defined_only. cbn [List.filter snd]. fold (defined_only props).
  destruct v; cbn [is_undefined negb assoc];
    destruct (String.eqb k k') eqn:E; try reflexivity; try exact IH.
  apply String.eqb_eq in E. subst k'.
  rewrite (assoc_absent k (defined_only props))
    by (intros H; apply Hfresh; now apply in_keys_defined_only).
  reflexivity.
Qed.

Lemma saved_account_ext now (a b : Account) :
  (forall k, prop k a = prop k b) -> saved_account now a = saved_account now b.
Proof. intros H. unfold saved_account. now rewrite !H. Qed.

(** The object built for a record, which is what [JSON.stringify] is
    given, is a normal form: it has exactly the eight keys below, so an
    access token or anything else on the record in memory is not passed on;
    and building it again at any later time, from that object or from what
    [JSON.stringify] keeps of it (the properties that are not [undefined]),
    gives the same object. *)
Theorem saved_account_normal_form (now later : string) (acc : Account) :
  now <> "" ->
  exists props,
    saved_account now acc = Obj props
    /\ map fst props
       = [ "email"; "source"; "refreshToken"; "projectId"; "addedAt"; "lastUsed";
           "isRateLimited"; "rateLimitResetTime" ]
    /\ prop "source" props = Str "oauth"
    /\ saved_account later props = Obj props
    /\ saved_account later (defined_only props) = Obj props.
Proof.
  intros Hnow.
  assert (Hagain : saved_account later
                     [ ("email", prop "email" acc);
                       ("source", Str "oauth");
                       ("refreshToken", prop "refreshToken" acc);
                       ("projectId", prop "projectId" acc);
                       ("addedAt", or_else (prop "addedAt" acc) (Str now));
                       ("lastUsed", or_else (prop "lastUsed" acc) Null);
                       ("isRateLimited", or_else (prop "isRateLimited" acc) (Bool false));
                       ("rateLimitResetTime",
                        or_else (prop "rateLimitResetTime" acc) Null) ]
                   = saved_account now acc).
  { unfold saved_account at 1.
    cbn [prop assoc String.eqb Ascii.eqb Bool.eqb].
    rewrite (or_else_kept _ (Str now) (Str later))
      by (cbn [truthy]; now rewrite (proj2 (String.eqb_neq now "") Hnow)).
    rewrite !or_else_again by reflexivity. reflexivity. }
  eexists. split; [reflexivity|]. split; [reflexivity|].
  split; [reflexivity|]. split; [exact Hagain|].
  etransitivity; [|exact Hagain]. apply saved_account_ext. intros k.
  apply prop_defined_only. cbn [map fst].
  repeat (apply List.NoDup_cons;
          [cbn [In]; intros H; repeat (destruct H as [H|H]; [discriminate H|]); exact H|]).
  apply List.NoDup_nil.
Qed.

(** Saving and loading again gives back the records that were written, in
    the same order, on a disk that accepts writes and where the directory
    of the store is there and the store is not itself a directory,
    whenever the serializer and the parser agree on the configuration
    written. *)
Theorem save_then_load now (accounts : Ledger) settings (d : Disk) :
  write_error d = None ->
  entries d !! dirname ACCOUNT_CONFIG_PATH = Some Directory ->
  entries d !! ACCOUNT_CONFIG_PATH <> Some Directory ->
  JSON_parse (JSON_stringify (saved_config now accounts settings))
  = Some (saved_config now accounts settings) ->
  snd (save now accounts settings d) = Ok tt
  /\ snd (load (fst (save now accounts settings d)))
     = Ok (Arr (map (saved_account now) accounts))
  /\ length (map (saved_account now) accounts) = length accounts.
Proof.
  intros Hw Hparent Hnode Hparse.
  assert (Hdir : dirname ACCOUNT_CONFIG_PATH <> ACCOUNT_CONFIG_PATH).
  { intros E. rewrite E in Hparent. contradiction. }
  destruct (saveAccounts_overwrites ACCOUNT_CONFIG_PATH dirname JSON_stringify
              now accounts settings d Hw Hdir Hnode) as [Hok Hfile].
  split; [exact Hok|]. split; [|apply length_map].
  rewrite loadAccounts_unfold. cbn [snd]. rewrite Hfile, Hparse. reflexivity.
Qed.

(** *** [addAccount] *)

Lemma exchangeCode_not_hanging net code verifier :
  snd (exchangeCode net code verifier) <> Hang.
Proof.
  rewrite exchangeCode_unfold. cbn [snd].
  destruct (net _) as [m|r]; [discriminate|].
  destruct (negb (ok r)); [discriminate|].
  destruct (json r) as [[| | | | |items|props]|]; try discriminate.
  destruct (negb _); discriminate.
Qed.

Lemma getUserEmail_not_hanging net accessToken :
  snd (getUserEmail net accessToken) <> Hang.
Proof.
  rewrite getUserEmail_unfold. cbn [snd].
  destruct (net _) as [m|r]; [discriminate|].
  destruct (negb (ok r)); [discriminate|].
  destruct (json r) as [[| | | | |items|props]|]; discriminate.
Qed.

Lemma completeOAuthFlow_not_hanging net code verifier :
  snd (complete net code verifier) <> Hang.
Proof.
  destruct (snd (exchangeCode net code verifier)) as [v|e|] eqn:Hx.
  - destruct (exchangeCode_object net code verifier v Hx) as [tokens ->].
    destruct (snd (getUserEmail net (prop "accessToken" tokens))) as [email|e|] eqn:Hu.
    + destruct (complete_succeeds ANTIGRAVITY_ENDPOINT_FALLBACKS net code verifier
                  tokens email Hx Hu) as (projectId & _ & ->).
      discriminate.
    + rewrite (complete_email_failed ANTIGRAVITY_ENDPOINT_FALLBACKS net code verifier
                 tokens e Hx Hu).
      discriminate.
    + now apply getUserEmail_not_hanging in Hu.
  - rewrite (complete_exchange_failed ANTIGRAVITY_ENDPOINT_FALLBACKS net code verifier e Hx).
    discriminate.
  - now apply exchangeCode_not_hanging in Hx.
Qed.

(** [addAccount] never throws: a rejected callback and a failing flow both
    come back as [null] with the ledger untouched, the first without a
    single request having been sent; and once the timer has fired it does
    return. *)
Theorem addAccount_never_throws (att : Attempt) (accounts : Ledger) :
  (forall e, snd (add att accounts) <> Throw e)
  /\ (forall m,
        promise (startCallbackServer (issued_by att) (events att)) = Some (Rejected m) ->
        add att accounts = ([], Ok (accounts, None)))
  /\ (forall code calls e,
        promise (startCallbackServer (issued_by att) (events att)) = Some (Resolved code) ->
        complete (network att) code
          (auth_verifier (fst (getAuthorizationUrl (entropy att)))) = (calls, Throw e) ->
        add att accounts = (calls, Ok (accounts, None)))
  /\ (In TimerFired (events att) ->
        exists accounts' fresh, snd (add att accounts) = Ok (accounts', fresh)).
Proof.
  rewrite addAccount_unfold. cbv zeta.
  split; [|split; [|split]].
  - intros e. destruct (promise _) as [[code|m]|]; try discriminate.
    destruct (complete _ _ _) as [calls [result|e'|]]; discriminate.
  - now intros m ->.
  - now intros code calls e -> ->.
  - intros Hin.
    destruct (settled_after (issued_by att) (events att) listening TimerFired Hin eq_refl)
      as [s Hs].
    change (deliver_all (issued_by att) listening (events att))
      with (startCallbackServer (issued_by att) (events att)) in Hs.
    rewrite Hs. destruct s as [code|m]; [|eauto].
    pose proof (completeOAuthFlow_not_hanging (network att) code
                  (auth_verifier (fst (getAuthorizationUrl (entropy att))))) as Hh.
    destruct (complete _ _ _) as [calls [result|e'|]]; cbn [snd] in *.
    + destruct (find_email _ _); eauto.
    + eauto.
    + exfalso. now apply Hh.
Qed.

Lemma find_email_None email (accounts : Ledger) :
  find_email email accounts = None <->
  (forall i a, accounts !! i = Some a -> strict_eq (prop "email" a) email = false).
Proof.
  induction accounts as [|a0 accounts IH]; cbn [find_email].
  - split; [intros _ i a H; discriminate|reflexivity].
  - destruct (strict_eq (prop "email" a0) email) eqn:E.
    + split; [discriminate|]. intros H. specialize (H 0 a0 eq_refl). congruence.
    + destruct (find_email email accounts) as [i'|] eqn:F; cbn [option_map].
      * split; [discriminate|]. intros H.
        assert (Some i' = None) as [=]. apply IH. intros i a Hi. apply (H (S i) a Hi).
      * split; [|reflexivity]. intros _ [|i] a Hi.
        -- now injection Hi as <-.
        -- apply (proj1 IH eq_refl i a Hi).
Qed.

(** A first sign-in. When the flow ends with an email no record has,
    [addAccount] leaves the ledger alone and returns a record of exactly six
    properties, not rate-limited and stamped with the current time; the add
    loop puts it last. *)
Theorem addAccount_new_account (att : Attempt) (accounts : Ledger) (code : string)
    (calls : list Call) (result : value) :
  promise (startCallbackServer (issued_by att) (events att)) = Some (Resolved code) ->
  complete (network att) code (auth_verifier (fst (getAuthorizationUrl (entropy att))))
  = (calls, Ok result) ->
  (forall i a, accounts !! i = Some a ->
               strict_eq (prop "email" a) (get_opt result "email") = false) ->
  let fresh := [ ("email", get_opt result "email");
                 ("refreshToken", get_opt result "refreshToken");
                 ("projectId", get_opt result "projectId");
                 ("addedAt", Str (clock att));
                 ("isRateLimited", Bool false);
                 ("rateLimitResetTime", Null) ] in
  add att accounts = (calls, Ok (accounts, Some fresh))
  /\ (forall d log, length accounts < MAX_ACCOUNTS ->
                    ledger (loop [att] accounts d log) = (accounts ++ [fresh])%list).
Proof.
  cbv zeta. intros Hcode Hflow Hnone.
  apply find_email_None in Hnone.
  assert (Hadd : add att accounts
                 = (calls, Ok (accounts, Some (new_account result (clock att))))).
  { rewrite addAccount_unfold. cbv zeta. now rewrite Hcode, Hflow, Hnone. }
  split; [exact Hadd|].
  intros d log Hlen. rewrite loop_unfold by exact Hlen. rewrite Hadd. cbv zeta.
  match goal with
  | |- context [match ?saving d with _ => _ end] =>
      destruct (saving d) as [d1 [u|e|]]; [|reflexivity|reflexivity]
  end.
  destruct (MAX_ACCOUNTS <=? _)%nat; [reflexivity|].
  destruct (negb _); [reflexivity|apply loop_end].
Qed.

(** *** What the add loop keeps *)

Lemma addAccount_cases (att : Attempt) (accounts accounts' : Ledger) calls fresh :
  add att accounts = (calls, Ok (accounts', fresh)) ->
  (accounts' = accounts /\ fresh = None)
  \/ (exists result i,
        find_email (get_opt result "email") accounts = Some i
        /\ accounts' = alter (update_tokens result (clock att)) i accounts
        /\ fresh = None)
  \/ (exists result,
        find_email (get_opt result "email") accounts = None
        /\ accounts' = accounts
        /\ fresh = Some (new_account result (clock att))).
Proof.
  rewrite addAccount_unfold. cbv zeta.
  destruct (promise _) as [[code|m]|]; [|intros [= _ <- <-]; auto|discriminate].
  destruct (complete _ _ _) as [calls' [result|e|]];
    [|intros [= _ <- <-]; auto|discriminate].
  destruct (find_email _ _) as [i|] eqn:F; intros [= _ <- <-].
  - right. left. eauto.
  - right. right. eauto.
Qed.

Lemma loop_invariant (P : Ledger -> Prop) :
  (forall att (accounts accounts' : Ledger) calls fresh,
      P accounts -> add att accounts = (calls, Ok (accounts', fresh)) ->
      P (match fresh with Some a => (accounts' ++ [a])%list | None => accounts' end)) ->
  forall attempts (accounts : Ledger) d log,
    P accounts -> P (ledger (loop attempts accounts d log)).
Proof.
  intros Hstep. induction attempts as [|att rest IH]; intros accounts d log HP.
  - now rewrite loop_end.
  - destruct (Nat.lt_ge_cases (length accounts) MAX_ACCOUNTS) as [Hlt|Hge];
      [|now rewrite loop_full].
    rewrite loop_unfold by exact Hlt.
    destruct (add att accounts) as [calls [[accounts1 fresh]|e|]] eqn:Hadd;
      [|exact HP|exact HP].
    pose proof (Hstep att accounts accounts1 calls fresh HP Hadd) as H2.
    cbv zeta.
    match goal with
    | |- context [match ?saving d with _ => _ end] =>
        destruct (saving d) as [d1 [u|e|]]; [|exact H2|exact H2]
    end.
    destruct (MAX_ACCOUNTS <=? _)%nat; [exact H2|].
    destruct (negb _); [exact H2|]. now apply IH.
Qed.

Lemma email_update_tokens result now (a : Account) k :
  ~ token_property k -> prop k (update_tokens result now a) = prop k a.
Proof.
  intros Hk. unfold update_tokens.
  rewrite !prop_set_prop_ne; [reflexivity| | |];
    intros E; apply Hk; unfold token_property; rewrite <- E; auto.
Qed.

Lemma email_not_token : ~ token_property "email".
Proof. intros [H|[H|H]]; discriminate. Qed.

Lemma distinct_alter f i (accounts : Ledger) :
  (forall a, prop "email" (f a) = prop "email" a) ->
  distinct_emails accounts -> distinct_emails (alter f i accounts).
Proof.
  intros Hf Hd x y a b Hxy Ha Hb.
  assert (Hx : exists a0, accounts !! x = Some a0 /\ prop "email" a = prop "email" a0).
  { destruct (decide (i = x)) as [->|Hne].
    - rewrite list_lookup_alter_eq in Ha. destruct (accounts !! x) as [a0|]; [|discriminate].
      injection Ha as <-. eauto.
    - rewrite list_lookup_alter_ne in Ha by exact Hne. eauto. }
  assert (Hy : exists b0, accounts !! y = Some b0 /\ prop "email" b = prop "email" b0).
  { destruct (decide (i = y)) as [->|Hne].
    - rewrite list_lookup_alter_eq in Hb. destruct (accounts !! y) as [b0|]; [|discriminate].
      injection Hb as <-. eauto.
    - rewrite list_lookup_alter_ne in Hb by exact Hne. eauto. }
  destruct Hx as (a0 & Ha0 & ->), Hy as (b0 & Hb0 & ->).
  exact (Hd x y a0 b0 Hxy Ha0 Hb0).
Qed.

Lemma distinct_push (accounts : Ledger) (fresh : Account) :
  distinct_emails accounts ->
  (forall i a, accounts !! i = Some a ->
               strict_eq (prop "email" a) (prop "email" fresh) = false) ->
  distinct_emails (accounts ++ [fresh]).
Proof.
  intros Hd Hnew x y a b Hxy Ha Hb.
  destruct (Nat.lt_ge_cases y (length accounts)) as [Hy|Hy].
  - rewrite lookup_app_l in Ha by lia. rewrite lookup_app_l in Hb by lia.
    exact (Hd x y a b Hxy Ha Hb).
  - rewrite lookup_app_r in Hb by lia.
    destruct (y - length accounts) as [|n] eqn:E; [|destruct n; discriminate].
    injection Hb as <-.
    assert (Hx : x < length accounts) by lia.
    rewrite lookup_app_l in Ha by lia. now apply (Hnew x a).
Qed.

(** The add loop keeps emails unique: from a ledger where no two records
    have the same email, no run of [interactiveAdd] reaches one where two
    do. *)
Theorem interactiveAdd_keeps_emails_distinct (accounts : Ledger) (choice : string)
    (attempts : list Attempt) (d : Disk) :
  distinct_emails accounts ->
  distinct_emails
    (ledger (interactiveAdd_from ACCOUNT_CONFIG_PATH ANTIGRAVITY_ENDPOINT_FALLBACKS
               dirname JSON_stringify accounts choice attempts d)).
Proof.
  intros Hd. unfold interactiveAdd_from.
  apply (loop_invariant distinct_emails).
  - intros att l l' calls fresh Hl Hadd.
    destruct (addAccount_cases att l l' calls fresh Hadd)
      as [[-> ->] | [(result & i & _ & -> & ->) | (result & Hnone & -> & ->)]].
    + exact Hl.
    + apply distinct_alter; [|exact Hl].
      intros a. apply email_update_tokens, email_not_token.
    + apply distinct_push; [exact Hl|].
      intros i a Hi. exact (proj1 (find_email_None _ _) Hnone i a Hi).
  - destruct (_ && _); [|exact Hd]. intros i j a b _ H. discriminate.
Qed.

Lemma extends_refl (l : Ledger) : extends l l.
Proof. intros i a H. eauto. Qed.

Lemma extends_trans (l1 l2 l3 : Ledger) : extends l1 l2 -> extends l2 l3 -> extends l1 l3.
Proof.
  intros H12 H23 i a H. destruct (H12 i a H) as (a2 & H2 & E2).
  destruct (H23 i a2 H2) as (a3 & H3 & E3). exists a3. split; [exact H3|].
  intros k Hk. now rewrite E3, E2.
Qed.

(** The array in memory. Unless a fresh start is chosen, the add loop never
    removes or moves a record of the array that [loadAccounts] returned and
    assigns nothing on it but [refreshToken], [projectId] and [addedAt]:
    in the array the run ends with, email, [lastUsed] and the rate-limit
    state of every record are what they were. What a save writes for a
    record is another matter: it is the object of [saved_account]. *)
Theorem interactiveAdd_keeps_records (accounts : Ledger) (choice : string)
    (attempts : list Attempt) (d : Disk) :
  toLowerCase choice <> "f" ->
  extends accounts
    (ledger (interactiveAdd_from ACCOUNT_CONFIG_PATH ANTIGRAVITY_ENDPOINT_FALLBACKS
               dirname JSON_stringify accounts choice attempts d)).
Proof.
  intros Hchoice. unfold interactiveAdd_from.
  destruct (String.eqb (toLowerCase choice) "f") eqn:E;
    [apply String.eqb_eq in E; contradiction|].
  rewrite andb_false_r.
  apply (loop_invariant (extends accounts)); [|apply extends_refl].
  intros att l l' calls fresh Hl Hadd.
  apply (extends_trans _ l _ Hl).
  destruct (addAccount_cases att l l' calls fresh Hadd)
    as [[-> ->] | [(result & i & _ & -> & ->) | (result & _ & -> & ->)]].
  - apply extends_refl.
  - intros j a Hj. destruct (decide (i = j)) as [->|Hne].
    + exists (update_tokens result (clock att) a).
      split; [now rewrite list_lookup_alter_eq, Hj|].
      intros k Hk. now apply email_update_tokens.
    + exists a. split; [now rewrite list_lookup_alter_ne|reflexivity].
  - intros j a Hj. exists a. split; [|reflexivity].
    rewrite lookup_app_l; [exact Hj|]. now apply lookup_lt_Some in Hj.
Qed.

(** *** What the add loop writes *)

Lemma loop_nothing_added attempts : forall d log,
  (forall att, In att attempts ->
     exists m, promise (startCallbackServer (issued_by att) (events att))
               = Some (Rejected m)) ->
  let run := loop attempts [] d log in
  disk run = d /\ ledger run = [] /\ sent run = log /\ outcome run <> Failed "".
Proof.
  induction attempts as [|att rest IH]; intros d log Hrej; cbv zeta.
  - cbn. repeat split. discriminate.
  - rewrite loop_unfold by (cbn; unfold MAX_ACCOUNTS; lia).
    destruct (Hrej att (or_introl eq_refl)) as [m Hm].
    assert (Hadd : add att [] = ([], Ok ([], None))).
    { rewrite addAccount_unfold. cbv zeta. now rewrite Hm. }
    rewrite Hadd. cbv zeta. cbn [length Nat.ltb Nat.leb fs_ret MAX_ACCOUNTS].
    rewrite app_nil_r.
    destruct (negb _); [cbn; repeat split; discriminate|].
    apply IH. intros att' Hin. apply Hrej. now right.
Qed.

(** Nothing is written before a sign-in succeeds. Starting from an empty
    ledger, or after choosing a fresh start, a run in which every callback
    is rejected (timeout, refusal, forged state) sends no request and leaves
    the disk exactly as it was: a fresh start alone does not remove the
    accounts already in the store. *)
Theorem interactiveAdd_writes_nothing_without_sign_in (accounts : Ledger)
    (choice : string) (attempts : list Attempt) (d : Disk) :
  accounts = [] \/ toLowerCase choice = "f" ->
  (forall att, In att attempts ->
     exists m, promise (startCallbackServer (issued_by att) (events att))
               = Some (Rejected m)) ->
  let run := interactiveAdd_from ACCOUNT_CONFIG_PATH ANTIGRAVITY_ENDPOINT_FALLBACKS
               dirname JSON_stringify accounts choice attempts d in
  disk run = d /\ ledger run = [] /\ sent run = [].
Proof.
  intros Hstart Hrej. cbv zeta. unfold interactiveAdd_from.
  assert (H0 : (if (0 <? length accounts)%nat && String.eqb (toLowerCase choice) "f"
                then [] else accounts) = []).
  { destruct Hstart as [-> | ->]; [reflexivity|].
    replace (String.eqb "f" "f") with true by reflexivity. now destruct accounts. }
  rewrite H0.
  destruct (loop_nothing_added attempts d [] Hrej) as (H1 & H2 & H3 & _). auto.
Qed.

Lemma loop_finished_saved attempts : forall (accounts : Ledger) d log,
  length accounts < MAX_ACCOUNTS ->
  outcome (loop attempts accounts d log) = Finished ->
  ledger (loop attempts accounts d log) <> [] ->
  exists now,
    entries (disk (loop attempts accounts d log)) !! ACCOUNT_CONFIG_PATH
    = Some (File (JSON_stringify
                    (saved_config now (ledger (loop attempts accounts d log)) []))).
Proof.
  induction attempts as [|att rest IH]; intros accounts d log Hlt.
  - cbn [add_loop]. apply Nat.ltb_lt in Hlt. rewrite Hlt. cbn. discriminate.
  - rewrite loop_unfold by exact Hlt.
    destruct (add att accounts) as [calls [[accounts1 fresh]|e|]] eqn:Hadd;
      [|discriminate|discriminate].
    cbv zeta.
    set (accounts2 := match fresh with
                      | Some a => (accounts1 ++ [a])%list
                      | None => accounts1
                      end).
    set (saving := match fresh with
                   | Some _ => save (clock att) accounts2 []
                   | None => if (0 <? length accounts1)%nat
                             then save (clock att) accounts2 [] else fs_ret tt
                   end).
    destruct (saving d) as [d1 [u|e|]] eqn:Hsave; [|discriminate|discriminate].
    assert (Hwritten : accounts2 <> [] ->
              entries d1 !! ACCOUNT_CONFIG_PATH
              = Some (File (JSON_stringify (saved_config (clock att) accounts2 [])))).
    { intros Hne. subst saving accounts2. destruct fresh as [a|].
      - exact (saveAccounts_ok_written _ _ _ _ _ _ Hsave).
      - destruct accounts1 as [|a1 accounts1]; [contradiction|].
        cbn [length Nat.ltb Nat.leb] in Hsave.
        exact (saveAccounts_ok_written _ _ _ _ _ _ Hsave). }
    destruct (MAX_ACCOUNTS <=? length accounts2)%nat eqn:Hcap.
    + cbn [outcome ledger disk]. intros _ Hne. exists (clock att). now apply Hwritten.
    + destruct (negb _).
      * cbn [outcome ledger disk]. intros _ Hne. exists (clock att). now apply Hwritten.
      * apply IH. now apply Nat.leb_gt in Hcap.
Qed.

(** The store follows the ledger. When a run of [interactiveAdd] that
    entered the add loop ends normally with a ledger that is not empty, the
    store file holds the serialization of exactly that ledger, written in
    full with the default settings and [activeIndex] 0. *)
Theorem interactiveAdd_finished_is_saved (accounts : Ledger) (choice : string)
    (attempts : list Attempt) (d : Disk) :
  let run := interactiveAdd_from ACCOUNT_CONFIG_PATH ANTIGRAVITY_ENDPOINT_FALLBACKS
               dirname JSON_stringify accounts choice attempts d in
  length accounts < MAX_ACCOUNTS ->
  outcome run = Finished ->
  ledger run <> [] ->
  exists now,
    entries (disk run) !! ACCOUNT_CONFIG_PATH
    = Some (File (JSON_stringify
                    (Obj [ ("accounts", Arr (map (saved_account now) (ledger run)));
                           ("settings", Obj [ ("cooldownDurationMs", Num 60000);
                                              ("maxRetries", Num 5) ]);
                           ("activeIndex", Num 0) ]))).
Proof.
  cbv zeta. unfold interactiveAdd_from. intros Hlt Hfin Hne.
  apply loop_finished_saved; try assumption.
  destruct (_ && _); [cbn; unfold MAX_ACCOUNTS; lia|exact Hlt].
Qed.

End Store.

End LedgerMore.

(** ** The other commands *)

Module CliFacts.
Import Text JS Crypto OAuth Accounts Cli Spec TokenFacts TokenMore LedgerFacts LedgerMore.

Lemma refreshAccessToken_fst net refreshToken :
  fst (refreshAccessToken net refreshToken) = [TokenRefresh refreshToken].
Proof. now rewrite refreshAccessToken_unfold. Qed.

Lemma refreshAccessToken_cases net refreshToken :
  (exists tokens, snd (refreshAccessToken net refreshToken) = Ok (Obj tokens))
  \/ (exists e, snd (refreshAccessToken net refreshToken) = Throw e).
Proof.
  rewrite refreshAccessToken_unfold. cbn [snd].
  destruct (net _) as [m|r]; [eauto|].
  destruct (negb (ok r)); [eauto|].
  destruct (json r) as [[| | | | |items|props]|]; cbn; eauto.
Qed.

Lemma getUserEmail_cases net accessToken :
  (exists email, snd (getUserEmail net accessToken) = Ok email)
  \/ (exists e, snd (getUserEmail net accessToken) = Throw e).
Proof.
  rewrite getUserEmail_unfold. cbn [snd].
  destruct (net _) as [m|r]; [eauto|].
  destruct (negb (ok r)); [eauto|].
  destruct (json r) as [[| | | | |items|props]|]; cbn; eauto.
Qed.

Lemma verify_one_refresh_failed net props e :
  snd (refreshAccessToken net (prop "refreshToken" props)) = Throw e ->
  verify_one net (Obj props)
  = ([TokenRefresh (prop "refreshToken" props)], Ok (NotVerified (prop "email" props) e)).
Proof.
  intros H. unfold verify_one. cbn [lift get bind].
  rewrite (surjective_pairing (refreshAccessToken net (prop "refreshToken" props))),
    refreshAccessToken_fst, H.
  reflexivity.
Qed.

Lemma verify_one_email_failed net props tokens e :
  snd (refreshAccessToken net (prop "refreshToken" props)) = Ok (Obj tokens) ->
  snd (getUserEmail net (prop "accessToken" tokens)) = Throw e ->
  verify_one net (Obj props)
  = ([TokenRefresh (prop "refreshToken" props); GetUserInfo (prop "accessToken" tokens)],
     Ok (NotVerified (prop "email" props) e)).
Proof.
  intros H1 H2. unfold verify_one. cbn [lift get bind].
  rewrite (surjective_pairing (refreshAccessToken net (prop "refreshToken" props))),
    refreshAccessToken_fst, H1.
  cbn [bind lift get app].
  rewrite (surjective_pairing (getUserEmail net (prop "accessToken" tokens))),
    getUserEmail_fst, H2.
  reflexivity.
Qed.

Lemma verify_one_verified net props tokens email :
  snd (refreshAccessToken net (prop "refreshToken" props)) = Ok (Obj tokens) ->
  snd (getUserEmail net (prop "accessToken" tokens)) = Ok email ->
  verify_one net (Obj props)
  = ([TokenRefresh (prop "refreshToken" props); GetUserInfo (prop "accessToken" tokens)],
     Ok (Verified email)).
Proof.
  intros H1 H2. unfold verify_one. cbn [lift get bind].
  rewrite (surjective_pairing (refreshAccessToken net (prop "refreshToken" props))),
    refreshAccessToken_fst, H1.
  cbn [bind lift get app].
  rewrite (surjective_pairing (getUserEmail net (prop "accessToken" tokens))),
    getUserEmail_fst, H2.
  reflexivity.
Qed.

(** Verifying one stored record: the refresh comes first and the email
    lookup is attempted only with a fresh access token; a refused refresh
    is reported with the stored email and the provider's error after a
    single request, and a success is reported with the email the provider
    returns, not the stored one. *)
Theorem verify_one_reports (net : Network) (props : list (string * value)) :
  (forall r, net (TokenRefresh (prop "refreshToken" props)) = Responded r ->
     ok r = false ->
     verify_one net (Obj props)
     = ([TokenRefresh (prop "refreshToken" props)],
        Ok (NotVerified (prop "email" props) ("Token refresh failed: " ++ text r))))
  /\ (forall tokens email,
        snd (refreshAccessToken net (prop "refreshToken" props)) = Ok (Obj tokens) ->
        snd (getUserEmail net (prop "accessToken" tokens)) = Ok email ->
        verify_one net (Obj props)
        = ([TokenRefresh (prop "refreshToken" props);
            GetUserInfo (prop "accessToken" tokens)],
           Ok (Verified email)))
  /\ (forall tokens e,
        snd (refreshAccessToken net (prop "refreshToken" props)) = Ok (Obj tokens) ->
        snd (getUserEmail net (prop "accessToken" tokens)) = Throw e ->
        verify_one net (Obj props)
        = ([TokenRefresh (prop "refreshToken" props);
            GetUserInfo (prop "accessToken" tokens)],
           Ok (NotVerified (prop "email" props) e))).
Proof.
  split; [|split].
  - intros r Hnet Hok. apply verify_one_refresh_failed.
    rewrite refreshAccessToken_unfold. cbn [snd]. now rewrite Hnet, Hok.
  - intros tokens email. apply verify_one_verified.
  - intros tokens e. apply verify_one_email_failed.
Qed.

Lemma verify_one_returns net props :
  exists calls line, verify_one net (Obj props) = (calls, Ok line).
Proof.
  destruct (refreshAccessToken_cases net (prop "refreshToken" props)) as [[tokens H1]|[e H1]].
  - destruct (getUserEmail_cases net (prop "accessToken" tokens)) as [[email H2]|[e H2]].
    + rewrite (verify_one_verified net props tokens email H1 H2). eauto.
    + rewrite (verify_one_email_failed net props tokens e H1 H2). eauto.
  - rewrite (verify_one_refresh_failed net props e H1). eauto.
Qed.

Lemma verify_each_objects net (accounts : Ledger) :
  exists calls lines,
    verify_each net (map Obj accounts) = (calls, Ok lines)
    /\ length lines = length accounts
    /\ forall i a, accounts !! i = Some a ->
                   exists line, lines !! i = Some line
                                /\ snd (verify_one net (Obj a)) = Ok line.
Proof.
  induction accounts as [|a accounts IH].
  - exists [], []. split; [reflexivity|]. split; [reflexivity|]. intros i x H. discriminate.
  - destruct IH as (calls & lines & Heach & Hlen & Hlines).
    destruct (verify_one_returns net a) as (calls1 & line & Hone).
    exists (calls1 ++ calls)%list, (line :: lines).
    split; [|split].
    + cbn [map verify_each]. rewrite Hone. cbn [bind]. rewrite Heach.
      cbn [bind ret app]. now rewrite app_nil_r.
    + cbn [length]. now rewrite Hlen.
    + intros [|i] x Hx.
      * injection Hx as <-. exists line. split; [reflexivity|]. now rewrite Hone.
      * apply (Hlines i x Hx).
Qed.

Lemma display_each_objects (accounts : Ledger) :
  display_each (map Obj accounts) = Ok tt.
Proof.
  induction accounts as [|a accounts IH]; [reflexivity|].
  cbn [map display_each get]. exact IH.
Qed.

Lemma displayAccounts_objects (accounts : Ledger) :
  accounts <> [] ->
  length_is_zero (Arr (map Obj accounts)) = Ok false
  /\ displayAccounts (Arr (map Obj accounts)) = Ok tt.
Proof.
  intros Hne. unfold displayAccounts.
  assert (Hzero : length_is_zero (Arr (map Obj accounts)) = Ok false).
  { destruct accounts; [contradiction|reflexivity]. }
  rewrite Hzero. split; [reflexivity|]. apply display_each_objects.
Qed.

Section Store.

Variable ACCOUNT_CONFIG_PATH : string.
Variable dirname : string -> string.
Variable JSON_parse : string -> option value.
Variable JSON_stringify : value -> string.

Local Abbreviation load := (loadAccounts ACCOUNT_CONFIG_PATH JSON_parse).
Local Abbreviation save := (saveAccounts ACCOUNT_CONFIG_PATH dirname JSON_stringify).
Local Abbreviation clear := (clearAccounts ACCOUNT_CONFIG_PATH dirname JSON_parse JSON_stringify).
Local Abbreviation verify := (verifyAccounts ACCOUNT_CONFIG_PATH JSON_parse).

(** [verifyAccounts] on a store of records: it never throws and never
    writes; one failing account does not stop the others, and there is
    exactly one line per record, in the order of the ledger. *)
Theorem verifyAccounts_reports_every_account (net : Network) (d : Disk)
    (accounts : Ledger) :
  snd (load d) = Ok (Arr (map Obj accounts)) ->
  exists calls lines,
    verify net d = (d, Some (calls, Ok lines))
    /\ length lines = length accounts
    /\ forall i a, accounts !! i = Some a ->
                   exists line, lines !! i = Some line
                                /\ snd (verify_one net (Obj a)) = Ok line.
Proof.
  intros Hload. unfold verifyAccounts.
  rewrite loadAccounts_unfold in *. cbn [snd] in Hload. injection Hload as ->.
  destruct (verify_each_objects net accounts) as (calls & lines & Heach & Hlen & Hlines).
  exists calls, lines. rewrite Heach. auto.
Qed.

Lemma clearAccounts_unfold now confirm (d : Disk) :
  clear now confirm d
  = match snd (load d) with
    | Ok accounts =>
        match length_is_zero accounts with
        | Ok true => (d, Ok tt)
        | Ok false =>
            match displayAccounts accounts with
            | Ok _ =>
                if String.eqb (toLowerCase confirm) "y" then save now [] [] d
                else (d, Ok tt)
            | Throw e => (d, Throw e)
            | Hang => (d, Hang)
            end
        | Throw e => (d, Throw e)
        | Hang => (d, Hang)
        end
    | Throw e => (d, Throw e)
    | Hang => (d, Hang)
    end.
Proof.
  unfold clearAccounts, fs_bind. rewrite loadAccounts_unfold. cbn [snd].
  unfold fs_lift at 1. destruct (length_is_zero _) as [[|]| |]; try reflexivity.
  unfold fs_lift. destruct (displayAccounts _); try reflexivity.
  destruct (String.eqb _ _); reflexivity.
Qed.

Lemma clearAccounts_yes now confirm (d : Disk) (accounts : Ledger) :
  accounts <> [] -> snd (load d) = Ok (Arr (map Obj accounts)) ->
  toLowerCase confirm = "y" ->
  clear now confirm d = save now [] [] d.
Proof.
  intros Hne Hload Hyes. rewrite clearAccounts_unfold, Hload.
  destruct (displayAccounts_objects accounts Hne) as [-> ->].
  now rewrite Hyes.
Qed.

(** [clearAccounts] writes only on a yes. With any answer other than [y]
    or [Y] the disk is left as it was; with nothing in the store nothing is
    written either; otherwise the store is rewritten with an empty
    [accounts] array. *)
Theorem clearAccounts_writes_only_on_yes (now confirm : string) (d : Disk) :
  (toLowerCase confirm <> "y" -> fst (clear now confirm d) = d)
  /\ (snd (load d) = Ok (Arr []) -> clear now confirm d = (d, Ok tt))
  /\ (forall (accounts : Ledger),
        accounts <> [] -> snd (load d) = Ok (Arr (map Obj accounts)) ->
        toLowerCase confirm = "y" ->
        clear now confirm d = save now [] [] d).
Proof.
  rewrite clearAccounts_unfold. split; [|split].
  - intros Hno. destruct (snd (load d)) as [accounts| |]; try reflexivity.
    destruct (length_is_zero accounts) as [[|]| |]; try reflexivity.
    destruct (displayAccounts accounts); try reflexivity.
    destruct (String.eqb _ _) eqn:E; [|reflexivity].
    apply String.eqb_eq in E. contradiction.
  - now intros ->.
  - intros accounts Hne Hload Hyes. rewrite <- clearAccounts_unfold.
    exact (clearAccounts_yes now confirm d accounts Hne Hload Hyes).
Qed.

(** Clearing and loading again gives the empty ledger, whenever the
    serializer and the parser agree on the empty configuration. *)
Theorem clear_then_load (now confirm : string) (d : Disk) (accounts : Ledger) :
  accounts <> [] ->
  snd (load d) = Ok (Arr (map Obj accounts)) ->
  toLowerCase confirm = "y" ->
  write_error d = None ->
  dirname ACCOUNT_CONFIG_PATH <> ACCOUNT_CONFIG_PATH ->
  JSON_parse (JSON_stringify (saved_config now [] [])) = Some (saved_config now [] []) ->
  snd (clear now confirm d) = Ok tt
  /\ snd (load (fst (clear now confirm d))) = Ok (Arr []).
Proof.
  intros Hne Hload Hyes Hw Hdir Hparse.
  assert (Hnode : entries d !! ACCOUNT_CONFIG_PATH <> Some Directory).
  { intros Hdirnode. rewrite loadAccounts_unfold in Hload. cbn [snd] in Hload.
    rewrite Hdirnode in Hload. destruct accounts; [contradiction|discriminate]. }
  rewrite (clearAccounts_yes now confirm d accounts Hne Hload Hyes).
  destruct (saveAccounts_overwrites ACCOUNT_CONFIG_PATH dirname JSON_stringify
              now [] [] d Hw Hdir Hnode) as [Hok Hfile].
  split; [exact Hok|].
  rewrite loadAccounts_unfold. cbn [snd]. rewrite Hfile, Hparse. reflexivity.
Qed.

End Store.

End CliFacts.

(** ** The properties above, on sample runs *)

Module FailureFacts.
Import Text Encoding JS Crypto OAuth Accounts Cli Spec Invariants Json Wire.
Import Scenario Failures.
Import ListenerMore TokenMore LedgerMore CliFacts.


(** A target that is not a URL: no answer, an uncaught exception, and the
    timer is never served. *)
Lemma one_reply_per_served_request_witness :
  fst (serve "s3cr3t" listening
         [ Incoming (Parses {| pathname := "/favicon.ico"; searchParams := [] |});
           Incoming (Invalid "//");
           Timer ])
  = startCallbackServer "s3cr3t" [favicon]
  /\ length (replies (fst (serve "s3cr3t" listening
                             [ Incoming (Parses {| pathname := "/favicon.ico";
                                                   searchParams := [] |});
                               Incoming (Invalid "//");
                               Timer ]))) = 1
  /\ is_Some (snd (serve "s3cr3t" listening
                     [ Incoming (Parses {| pathname := "/favicon.ico";
                                           searchParams := [] |});
                       Incoming (Invalid "//");
                       Timer ])).
Proof.
  destruct (one_reply_per_served_request "s3cr3t"
              [ Incoming (Parses {| pathname := "/favicon.ico"; searchParams := [] |});
                Incoming (Invalid "//");
                Timer ])
    as (Hstate & Hreplies & Hcrash).
  split; [exact Hstate|]. split; [exact Hreplies|].
  destruct (snd (serve _ _ _)) as [e|]; [eauto|discriminate Hcrash].
Defined.

Lemma first_callback_resolves_witness :
  promise (startCallbackServer "s3cr3t" [favicon; Request code_delivered; TimerFired])
  = Some (Resolved "4/0Ab")
  /\ replies (startCallbackServer "s3cr3t" [favicon; Request code_delivered])
     = [404%Z; 200%Z].
Proof.
  destruct (first_callback_resolves "s3cr3t" "4/0Ab" [favicon] [TimerFired] code_delivered)
    as (Hpromise & _ & _ & Hreplies).
  - reflexivity.
  - reflexivity.
  - reflexivity.
  - reflexivity.
  - reflexivity.
  - discriminate.
  - split; [exact Hpromise|exact Hreplies].
Defined.

Lemma provider_error_takes_precedence_witness :
  promise (startCallbackServer "s3cr3t" [favicon; Request consent_denied; TimerFired])
  = Some (Rejected "OAuth error: access_denied").
Proof.
  apply (provider_error_takes_precedence "s3cr3t" "access_denied" [favicon] [TimerFired]
           consent_denied).
  - reflexivity.
  - reflexivity.
  - reflexivity.
  - discriminate.
Defined.

Lemma callback_without_code_rejects_witness :
  promise (startCallbackServer "s3cr3t" [Request code_missing; Request code_delivered])
  = Some (Rejected "No authorization code").
Proof.
  apply (callback_without_code_rejects "s3cr3t" [] [Request code_delivered] code_missing).
  - reflexivity.
  - reflexivity.
  - reflexivity.
  - reflexivity.
  - reflexivity.
Defined.

Lemma timeout_rejects_witness :
  promise (startCallbackServer "s3cr3t" [favicon; TimerFired; Request code_delivered])
  = Some (Rejected TIMEOUT_MESSAGE).
Proof.
  apply (timeout_rejects "s3cr3t" [favicon] [Request code_delivered]). reflexivity.
Defined.

Lemma exchangeCode_outcomes_witness :
  snd (exchangeCode unreachable "4/0Ab" "v") = Throw "fetch failed"
  /\ snd (exchangeCode exchange_refused "4/0Ab" "v")
     = Throw "Token exchange failed: invalid_grant"
  /\ (exists e, snd (exchangeCode refresh_garbled "4/0Ab" "v") = Throw e
                /\ e <> "No access token received")
  /\ (exists e, snd (exchangeCode null_body "4/0Ab" "v") = Throw e
                /\ e <> "No access token received")
  /\ snd (exchangeCode token_missing "4/0Ab" "v") = Throw "No access token received"
  /\ snd (exchangeCode (provider "a@example.com" "1//a") "4/0Ab" "v")
     = Ok (Obj [ ("accessToken", Str "ya29.a");
                 ("refreshToken", Str "1//a");
                 ("expiresIn", Num 3599) ]).
Proof.
  split; [|split; [|split; [|split; [|split]]]].
  - destruct (exchangeCode_outcomes unreachable "4/0Ab" "v") as (_ & H & _).
    exact (H "fetch failed" eq_refl).
  - destruct (exchangeCode_outcomes exchange_refused "4/0Ab" "v") as (_ & _ & H & _).
    exact (H {| ok := false; status := "400"; text := "invalid_grant"; json := None |}
             eq_refl eq_refl).
  - destruct (exchangeCode_outcomes refresh_garbled "4/0Ab" "v") as (_ & _ & _ & H & _).
    exact (H {| ok := true; status := "200"; text := ""; json := None |}
             eq_refl eq_refl eq_refl).
  - destruct (exchangeCode_outcomes null_body "4/0Ab" "v") as (_ & _ & _ & _ & H & _).
    exact (H {| ok := true; status := "200"; text := ""; json := Some Null |} Null
             eq_refl eq_refl eq_refl (or_introl eq_refl)).
  - destruct (exchangeCode_outcomes token_missing "4/0Ab" "v")
      as (_ & _ & _ & _ & _ & H & _).
    apply (H {| ok := true; status := "200"; text := "";
                json := Some (Obj [("token_type", Str "Bearer")]) |}
             (Obj [("token_type", Str "Bearer")])); try reflexivity; discriminate.
  - destruct (exchangeCode_outcomes (provider "a@example.com" "1//a") "4/0Ab" "v")
      as (_ & _ & _ & _ & _ & _ & H).
    exact (H {| ok := true; status := "200"; text := "";
                json := Some (Obj [ ("access_token", Str "ya29.a");
                                    ("refresh_token", Str "1//a");
                                    ("expires_in", Num 3599) ]) |}
             (Obj [ ("access_token", Str "ya29.a"); ("refresh_token", Str "1//a");
                    ("expires_in", Num 3599) ])
             eq_refl eq_refl eq_refl eq_refl).
Defined.

Lemma refreshAccessToken_failures_witness :
  snd (refreshAccessToken unreachable (Str "1//old")) = Throw "fetch failed"
  /\ exists e, snd (refreshAccessToken refresh_garbled (Str "1//old")) = Throw e.
Proof.
  split.
  - exact (proj1 (proj2 (refreshAccessToken_failures unreachable (Str "1//old")))
             "fetch failed" eq_refl).
  - exact (proj2 (proj2 (refreshAccessToken_failures refresh_garbled (Str "1//old")))
             {| ok := true; status := "200"; text := ""; json := None |}
             eq_refl eq_refl (or_introl eq_refl)).
Defined.

Lemma getUserEmail_outcomes_witness :
  snd (getUserEmail unreachable (Str "ya29.a")) = Throw "fetch failed"
  /\ snd (getUserEmail userinfo_refused (Str "ya29.a"))
     = Throw "Failed to get user info: 401"
  /\ (exists e, snd (getUserEmail refresh_garbled (Str "ya29.a")) = Throw e)
  /\ (exists e, snd (getUserEmail null_body (Str "ya29.a")) = Throw e)
  /\ snd (getUserEmail (provider "a@example.com" "1//a") (Str "ya29.a"))
     = Ok (Str "a@example.com")
  /\ snd (getUserEmail text_body (Str "ya29.a")) = Ok Undefined.
Proof.
  split; [|split; [|split; [|split; [|split]]]].
  - destruct (getUserEmail_outcomes unreachable (Str "ya29.a")) as (_ & H & _).
    exact (H "fetch failed" eq_refl).
  - destruct (getUserEmail_outcomes userinfo_refused (Str "ya29.a")) as (_ & _ & H & _).
    exact (H {| ok := false; status := "401"; text := "Unauthorized"; json := None |}
             eq_refl eq_refl).
  - destruct (getUserEmail_outcomes refresh_garbled (Str "ya29.a")) as (_ & _ & _ & H & _).
    exact (H {| ok := true; status := "200"; text := ""; json := None |}
             eq_refl eq_refl eq_refl).
  - destruct (getUserEmail_outcomes null_body (Str "ya29.a")) as (_ & _ & _ & _ & H & _).
    exact (H {| ok := true; status := "200"; text := ""; json := Some Null |} Null
             eq_refl eq_refl eq_refl (or_introl eq_refl)).
  - destruct (getUserEmail_outcomes (provider "a@example.com" "1//a") (Str "ya29.a"))
      as (_ & _ & _ & _ & _ & H).
    apply (H {| ok := true; status := "200"; text := "";
                json := Some (Obj [("email", Str "a@example.com")]) |}
             (Obj [("email", Str "a@example.com")])); try reflexivity; discriminate.
  - destruct (getUserEmail_outcomes text_body (Str "ya29.a")) as (_ & _ & _ & _ & _ & H).
    apply (H {| ok := true; status := "200"; text := ""; json := Some (Str "ok") |}
             (Str "ok")); try reflexivity; discriminate.
Defined.

Lemma discoverProjectId_requests_witness :
  discoverProjectId
    ["https://a.example"; "https://b.example"; "https://c.example"; "https://d.example"]
    third_host_answers (Str "ya29.a")
  = ([ LoadCodeAssist "https://a.example" (Str "ya29.a");
       LoadCodeAssist "https://b.example" (Str "ya29.a");
       LoadCodeAssist "https://c.example" (Str "ya29.a") ],
     Ok (Str "proj-123"))
  /\ discoverProjectId HOSTS unreachable (Str "ya29.a")
     = ([ LoadCodeAssist "https://a.example" (Str "ya29.a");
          LoadCodeAssist "https://b.example" (Str "ya29.a") ],
        Ok Null).
Proof.
  split.
  - apply (proj1 (discoverProjectId_requests third_host_answers (Str "ya29.a"))
             ["https://a.example"; "https://b.example"] "https://c.example"
             ["https://d.example"] (Str "proj-123")).
    + intros x [<-|[<-|[]]]; reflexivity.
    + reflexivity.
  - apply (proj2 (discoverProjectId_requests unreachable (Str "ya29.a")) HOSTS).
    intros x _. reflexivity.
Defined.

Lemma completeOAuthFlow_steps_witness :
  completeOAuthFlow HOSTS exchange_refused "4/0Ab" "v"
  = ([TokenExchange "4/0Ab" "v"], Throw "Token exchange failed: invalid_grant")
  /\ completeOAuthFlow HOSTS userinfo_refused "4/0Ab" "v"
     = ([TokenExchange "4/0Ab" "v"; GetUserInfo (Str "ya29.a")],
        Throw "Failed to get user info: 401")
  /\ exists projectId,
       snd (completeOAuthFlow HOSTS (provider "a@example.com" "1//a") "4/0Ab" "v")
       = Ok (Obj [ ("email", Str "a@example.com");
                   ("refreshToken", Str "1//a");
                   ("accessToken", Str "ya29.a");
                   ("projectId", projectId) ]).
Proof.
  split; [|split].
  - exact (proj1 (completeOAuthFlow_steps HOSTS exchange_refused "4/0Ab" "v")
             "Token exchange failed: invalid_grant" eq_refl).
  - exact (proj1 (proj2 (completeOAuthFlow_steps HOSTS userinfo_refused "4/0Ab" "v"))
             [ ("accessToken", Str "ya29.a"); ("refreshToken", Str "1//a");
               ("expiresIn", Num 3599) ]
             "Failed to get user info: 401" eq_refl eq_refl).
  - destruct (proj2 (proj2 (completeOAuthFlow_steps HOSTS (provider "a@example.com" "1//a")
                              "4/0Ab" "v"))
                [ ("accessToken", Str "ya29.a"); ("refreshToken", Str "1//a");
                  ("expiresIn", Num 3599) ]
                (Str "a@example.com") eq_refl eq_refl)
      as (projectId & _ & Hflow).
    exists projectId. rewrite Hflow. reflexivity.
Defined.

Lemma completeOAuthFlow_without_project_witness :
  snd (completeOAuthFlow HOSTS no_project "4/0Ab" "v")
  = Ok (Obj [ ("email", Str "a@example.com");
              ("refreshToken", Str "1//a");
              ("accessToken", Str "ya29.a");
              ("projectId", Null) ]).
Proof.
  apply (completeOAuthFlow_without_project HOSTS no_project "4/0Ab" "v"
           [ ("accessToken", Str "ya29.a"); ("refreshToken", Str "1//a");
             ("expiresIn", Num 3599) ]
           (Str "a@example.com")).
  - reflexivity.
  - reflexivity.
  - intros e _. reflexivity.
Defined.

Lemma saveAccounts_touches_only_store_witness :
  saveAccounts STORE dirname_of_store stringify_sample NOW two_accounts [] read_only
  = (read_only, Throw "EACCES: permission denied")
  /\ entries (fst (saveAccounts STORE dirname_of_store stringify_sample NOW
                     two_accounts [] prepared)) !! LEGACY_STORE
     = entries prepared !! LEGACY_STORE.
Proof.
  split.
  - apply (proj1 (saveAccounts_touches_only_store STORE dirname_of_store stringify_sample
                    NOW two_accounts [] read_only)).
    reflexivity.
  - apply (proj2 (saveAccounts_touches_only_store STORE dirname_of_store stringify_sample
                    NOW two_accounts [] prepared)).
    + vm_compute. reflexivity.
    + vm_compute. discriminate.
Defined.

Lemma saved_account_normal_form_witness :
  exists props,
    saved_account NOW unsaved = Obj props
    /\ prop "source" props = Str "oauth"
    /\ prop "projectId" props = Undefined
    /\ saved_account LATER props = Obj props
    /\ saved_account LATER (defined_only props) = Obj props.
Proof.
  destruct (saved_account_normal_form NOW LATER unsaved)
    as (props & Hsaved & _ & Hsrc & Hagain & Hkept).
  - discriminate.
  - exists props. split; [exact Hsaved|]. split; [exact Hsrc|].
    split; [|split; [exact Hagain|exact Hkept]].
    injection Hsaved as <-. reflexivity.
Defined.

Lemma save_then_load_witness :
  snd (loadAccounts STORE (parse_written (saved_config NOW two_accounts []))
         (fst (saveAccounts STORE dirname_of_store stringify_sample NOW
                 two_accounts [] prepared)))
  = Ok (Arr (map (saved_account NOW) two_accounts)).
Proof.
  apply (save_then_load STORE dirname_of_store
           (parse_written (saved_config NOW two_accounts [])) stringify_sample
           NOW two_accounts [] prepared).
  - reflexivity.
  - vm_compute. reflexivity.
  - vm_compute. discriminate.
  - reflexivity.
Defined.

Lemma addAccount_never_throws_witness :
  addAccount HOSTS forged_callback two_accounts = ([], Ok (two_accounts, None))
  /\ addAccount HOSTS refused_sign_in two_accounts
     = ([TokenExchange "4/0Ab" (auth_verifier (fst (getAuthorizationUrl generator)))],
        Ok (two_accounts, None))
  /\ exists accounts' fresh,
       snd (addAccount HOSTS refused_sign_in two_accounts) = Ok (accounts', fresh).
Proof.
  split; [|split].
  - apply (proj1 (proj2 (addAccount_never_throws HOSTS forged_callback two_accounts))
             "State mismatch").
    vm_compute. reflexivity.
  - apply (proj1 (proj2 (proj2 (addAccount_never_throws HOSTS refused_sign_in two_accounts)))
             "4/0Ab" _ "Token exchange failed: invalid_grant").
    + vm_compute. reflexivity.
    + vm_compute. reflexivity.
  - apply (proj2 (proj2 (proj2 (addAccount_never_throws HOSTS refused_sign_in two_accounts)))).
    right. left. reflexivity.
Defined.

Lemma addAccount_new_account_witness :
  ledger (add_loop STORE HOSTS dirname_of_store stringify_sample
            [signs_in "c@example.com" "1//c"] two_accounts empty_disk [])
  = (two_accounts
       ++ [ [ ("email", Str "c@example.com");
              ("refreshToken", Str "1//c");
              ("projectId", Str "proj-123");
              ("addedAt", Str "2026-03-01T10:00:00.000Z");
              ("isRateLimited", Bool false);
              ("rateLimitResetTime", Null) ] ])%list.
Proof.
  apply (addAccount_new_account STORE HOSTS dirname_of_store stringify_sample
           (signs_in "c@example.com" "1//c") two_accounts "4/0Ab"
           [ TokenExchange "4/0Ab" (auth_verifier (fst (getAuthorizationUrl generator)));
             GetUserInfo (Str "ya29.a");
             LoadCodeAssist "https://a.example" (Str "ya29.a") ]
           (Obj [ ("email", Str "c@example.com");
                  ("refreshToken", Str "1//c");
                  ("accessToken", Str "ya29.a");
                  ("projectId", Str "proj-123") ])).
  - vm_compute. reflexivity.
  - vm_compute. reflexivity.
  - intros [|[|i]] a Ha; try discriminate Ha; injection Ha as <-; reflexivity.
  - vm_compute. lia.
Defined.

Lemma distinct_two_accounts : distinct_emails two_accounts.
Proof.
  intros [|[|i]] [|[|j]] a b Hij Ha Hb; try lia; try discriminate Ha; try discriminate Hb.
  injection Ha as <-. injection Hb as <-. reflexivity.
Defined.

Lemma interactiveAdd_keeps_emails_distinct_witness :
  distinct_emails
    (ledger (interactiveAdd_from STORE HOSTS dirname_of_store stringify_sample
               two_accounts "a"
               [signs_in_again "b@example.com" "1//new"; signs_in "c@example.com" "1//c"]
               empty_disk)).
Proof.
  apply (interactiveAdd_keeps_emails_distinct STORE HOSTS dirname_of_store
           stringify_sample two_accounts "a"
           [signs_in_again "b@example.com" "1//new"; signs_in "c@example.com" "1//c"]
           empty_disk).
  exact distinct_two_accounts.
Defined.

Lemma interactiveAdd_keeps_records_witness :
  extends two_accounts
    (ledger (interactiveAdd_from STORE HOSTS dirname_of_store stringify_sample
               two_accounts "a"
               [signs_in_again "b@example.com" "1//new"; signs_in "c@example.com" "1//c"]
               empty_disk)).
Proof.
  apply (interactiveAdd_keeps_records STORE HOSTS dirname_of_store
           stringify_sample two_accounts "a"
           [signs_in_again "b@example.com" "1//new"; signs_in "c@example.com" "1//c"]
           empty_disk).
  vm_compute. discriminate.
Defined.

Lemma interactiveAdd_writes_nothing_without_sign_in_witness :
  disk (interactiveAdd_from STORE HOSTS dirname_of_store stringify_sample
          two_accounts "F" [forged_callback] two_on_disk)
  = two_on_disk.
Proof.
  apply (interactiveAdd_writes_nothing_without_sign_in STORE HOSTS dirname_of_store
           stringify_sample two_accounts "F" [forged_callback] two_on_disk).
  - right. reflexivity.
  - intros att [<-|[]]. exists "State mismatch". vm_compute. reflexivity.
Defined.

Lemma interactiveAdd_finished_is_saved_witness :
  exists now,
    entries (disk (interactiveAdd_from STORE HOSTS dirname_of_store stringify_sample
                     [] "" [signs_in "a@example.com" "1//a"] empty_disk)) !! STORE
    = Some (File (stringify_sample
                    (Obj [ ("accounts",
                            Arr (map (saved_account now)
                                   (ledger (interactiveAdd_from STORE HOSTS dirname_of_store
                                              stringify_sample [] ""
                                              [signs_in "a@example.com" "1//a"]
                                              empty_disk))));
                           ("settings", Obj [ ("cooldownDurationMs", Num 60000);
                                              ("maxRetries", Num 5) ]);
                           ("activeIndex", Num 0) ]))).
Proof.
  apply (interactiveAdd_finished_is_saved STORE HOSTS dirname_of_store stringify_sample
           [] "" [signs_in "a@example.com" "1//a"] empty_disk).
  - vm_compute. lia.
  - vm_compute. reflexivity.
  - vm_compute. discriminate.
Defined.

Lemma verify_one_reports_witness :
  verify_one revoked (Obj (stored "a@example.com"))
  = ([TokenRefresh (Str "1//old")],
     Ok (NotVerified (Str "a@example.com") "Token refresh failed: invalid_grant"))
  /\ verify_one (provider "renamed@example.com" "1//a") (Obj (stored "a@example.com"))
     = ([TokenRefresh (Str "1//old"); GetUserInfo (Str "ya29.b")],
        Ok (Verified (Str "renamed@example.com")))
  /\ verify_one userinfo_refused (Obj (stored "a@example.com"))
     = ([TokenRefresh (Str "1//old"); GetUserInfo (Str "ya29.b")],
        Ok (NotVerified (Str "a@example.com") "Failed to get user info: 401")).
Proof.
  split; [|split].
  - exact (proj1 (verify_one_reports revoked (stored "a@example.com"))
             refresh_denied eq_refl eq_refl).
  - exact (proj1 (proj2 (verify_one_reports (provider "renamed@example.com" "1//a")
                           (stored "a@example.com")))
             [("accessToken", Str "ya29.b"); ("expiresIn", Num 3599)]
             (Str "renamed@example.com") eq_refl eq_refl).
  - exact (proj2 (proj2 (verify_one_reports userinfo_refused (stored "a@example.com")))
             [("accessToken", Str "ya29.b"); ("expiresIn", Num 3599)]
             "Failed to get user info: 401" eq_refl eq_refl).
Defined.

Lemma verifyAccounts_reports_every_account_witness :
  exists calls lines,
    verifyAccounts STORE parse_two revoked two_on_disk
    = (two_on_disk, Some (calls, Ok lines))
    /\ length lines = 2.
Proof.
  destruct (verifyAccounts_reports_every_account STORE parse_two revoked two_on_disk
              two_accounts)
    as (calls & lines & Hverify & Hlen & _).
  - vm_compute. reflexivity.
  - exists calls, lines. split; [exact Hverify|exact Hlen].
Defined.

Lemma clearAccounts_writes_only_on_yes_witness :
  fst (clearAccounts STORE dirname_of_store parse_two stringify_sample NOW "yes" two_on_disk)
  = two_on_disk
  /\ clearAccounts STORE dirname_of_store parse_two stringify_sample NOW "Y" two_on_disk
     = saveAccounts STORE dirname_of_store stringify_sample NOW [] [] two_on_disk.
Proof.
  split.
  - apply (proj1 (clearAccounts_writes_only_on_yes STORE dirname_of_store parse_two
                    stringify_sample NOW "yes" two_on_disk)).
    vm_compute. discriminate.
  - apply (proj2 (proj2 (clearAccounts_writes_only_on_yes STORE dirname_of_store parse_two
                           stringify_sample NOW "Y" two_on_disk))
             two_accounts).
    + discriminate.
    + vm_compute. reflexivity.
    + reflexivity.
Defined.

Lemma clear_then_load_witness :
  snd (loadAccounts STORE parse_two
         (fst (clearAccounts STORE dirname_of_store parse_two stringify_sample NOW "Y"
                 two_on_disk)))
  = Ok (Arr []).
Proof.
  apply (clear_then_load STORE dirname_of_store parse_two stringify_sample NOW "Y"
           two_on_disk two_accounts).
  - discriminate.
  - vm_compute. reflexivity.
  - reflexivity.
  - reflexivity.
  - vm_compute. discriminate.
  - reflexivity.
Defined.

End FailureFacts.
